(** * eBayClone GraphQL API

    A shallow embedding of the marketplace server: the in-memory
    [DataStore] (src/data/store.js), the validators
    (src/utils/validation.js), the auth guard (src/utils/auth.js) and the
    resolvers (src/resolvers/*.js, src/server.js), followed by the
    properties of the specification that are checked against them.

    JavaScript objects are finite maps from field names to values, so that
    object spread, rest destructuring and field assignment keep their
    meaning.  A missing field reads as [None], which stands for
    [undefined].

    The store is a module-level singleton that every resolver reads and
    writes; here it is the state of a state-and-exception monad.  The
    resolvers are [async], and suspend only inside the calls to bcrypt: a
    request is run to completion before the next one starts.  The clock
    and the salt of bcrypt are inputs of a request ([Env]); [bcryptjs],
    [jsonwebtoken] and the environment variable [JWT_SECRET] are an
    interface ([Platform]), and so is the case mapping of
    [String.prototype.toLowerCase], which is a table of Unicode.  A
    string of the model is the UTF-8 encoding of the JavaScript string:
    [length] counts its UTF-16 code units and the regular expression
    reads its code points.  The methods of the class
    [DataStore] are grouped in the modules [Store] (sample data, users,
    listings), [Orders] and [Sessions]. *)

From Stdlib Require Import ZArith String Ascii List Floats Uint63 Lia.
From stdpp Require Import base option list gmap strings pretty.

Set Warnings "-register-all,-inexact-float".

#[local] Open Scope Z_scope.

(** ** JavaScript values *)

(** GraphQL [Int] values and the store's counters are mathematical
    integers ([VInt]); GraphQL [Float] values are binary64 numbers
    ([VFloat]), which is what a JavaScript Number is. *)
Inductive value : Type :=
| VNull
| VInt (z : Z)
| VFloat (f : float)
| VStr (s : string)
| VStrs (l : list string)
| VObj (o : gmap string value).

Abbreviation obj := (gmap string value).
Abbreviation jsval := (option value).

(** ** The platform

    What the server takes from outside its own sources: the environment
    variable [JWT_SECRET], the two libraries [bcryptjs] and
    [jsonwebtoken], and the case mapping of the runtime.  The resolvers
    and the store are written against this interface. *)

Class Platform : Type := {
  (** [process.env.JWT_SECRET] *)
  env_JWT_SECRET : jsval;
  (** [bcrypt.hash(password, rounds)]; the third argument is the salt
      the library draws *)
  bcrypt_hash : string → Z → string → string;
  (** [bcrypt.compare(password, hash)] on two strings *)
  bcrypt_compare : string → string → bool;
  (** [jwt.sign(payload, secret, {expiresIn})] at the time [Date.now()] *)
  jwt_sign : obj → string → string → Z → string;
  (** [jwt.verify(token, secret)] at the time [Date.now()]: the decoded
      payload, or the message of the error it throws *)
  jwt_verify : string → string → Z → string + obj;
  (** [s.toLowerCase()] *)
  toLowerCase : string → string;
}.

Module JS.

(** The Number of an integer: the binary64 value nearest to it, ties to
    even, and an infinity beyond the range. *)
Definition Z_to_float (z : Z) : float :=
  SF2Prim (binary_normalize prec emax z 0 false).

(** ToNumber on the operands the schema allows (numbers, null,
    undefined).  The conversion of strings, arrays and objects is not
    modelled; they read as NaN. *)
Definition to_number (v : jsval) : float :=
  match v with
  | Some (VInt z) => Z_to_float z
  | Some (VFloat f) => f
  | Some VNull => 0%float
  | _ => nan
  end.

(** [a === b].  Arrays and objects compare by reference in JavaScript,
    which a value model cannot observe; no comparison in the sources has
    such operands, and the model answers [false] for them. *)
Definition strict_eq (a b : jsval) : bool :=
  match a, b with
  | None, None => true
  | Some VNull, Some VNull => true
  | Some (VInt x), Some (VInt y) => x =? y
  | Some (VInt x), Some (VFloat g) => PrimFloat.eqb (Z_to_float x) g
  | Some (VFloat f), Some (VInt y) => PrimFloat.eqb f (Z_to_float y)
  | Some (VFloat f), Some (VFloat g) => PrimFloat.eqb f g
  | Some (VStr s), Some (VStr t) => String.eqb s t
  | _, _ => false
  end.

(** ToBoolean: [undefined], [null], [0], [NaN] and [''] are falsy. *)
Definition truthy (v : jsval) : bool :=
  match v with
  | None | Some VNull => false
  | Some (VInt z) => negb (z =? 0)
  | Some (VFloat f) => negb (PrimFloat.eqb f 0 || PrimFloat.is_nan f)
  | Some (VStr s) => negb (String.eqb s "")
  | Some (VStrs _) | Some (VObj _) => true
  end.

(** [a || b] *)
Definition or (a b : jsval) : jsval := if truthy a then a else b.

(** [a <= b] and [a < b] on numbers. *)
Definition leb (a b : jsval) : bool :=
  match a, b with
  | Some (VInt x), Some (VInt y) => x <=? y
  | _, _ => PrimFloat.leb (to_number a) (to_number b)
  end.

Definition ltb (a b : jsval) : bool :=
  match a, b with
  | Some (VInt x), Some (VInt y) => x <? y
  | _, _ => PrimFloat.ltb (to_number a) (to_number b)
  end.

(** [a * b]: the binary64 product of the two Numbers. *)
Definition mul (a b : jsval) : value :=
  VFloat (PrimFloat.mul (to_number a) (to_number b)).

Definition float_isInteger (f : float) : bool :=
  match Prim2SF f with
  | S754_zero _ => true
  | S754_finite _ m e => (0 <=? e) || (Z.pos m mod 2 ^ (- e) =? 0)
  | _ => false
  end.

(** [Number.isInteger(v)] *)
Definition isInteger (v : jsval) : bool :=
  match v with
  | Some (VInt _) => true
  | Some (VFloat f) => float_isInteger f
  | _ => false
  end.

(** [typeof v] *)
Definition typeof (v : jsval) : string :=
  match v with
  | None => "undefined"
  | Some (VInt _) | Some (VFloat _) => "number"
  | Some (VStr _) => "string"
  | Some VNull | Some (VStrs _) | Some (VObj _) => "object"
  end.

(** The code points of a string, read off its UTF-8 encoding; a byte
    that starts no sequence, or a sequence that is cut short, reads as
    U+FFFD. *)
Definition continuation (b : N) : bool := ((128 <=? b) && (b <? 192))%N.

Fixpoint decode (bs : list N) : list N :=
  match bs with
  | [] => []
  | b :: rest =>
      if (b <? 128)%N then b :: decode rest
      else if ((194 <=? b) && (b <? 224))%N then
        match rest with
        | c1 :: rest1 =>
            if continuation c1 then
              ((b - 192) * 64 + (c1 - 128))%N :: decode rest1
            else 65533%N :: decode rest
        | _ => 65533%N :: decode rest
        end
      else if ((224 <=? b) && (b <? 240))%N then
        match rest with
        | c1 :: c2 :: rest2 =>
            if continuation c1 && continuation c2 then
              (((b - 224) * 64 + (c1 - 128)) * 64 + (c2 - 128))%N :: decode rest2
            else 65533%N :: decode rest
        | _ => 65533%N :: decode rest
        end
      else if ((240 <=? b) && (b <? 245))%N then
        match rest with
        | c1 :: c2 :: c3 :: rest3 =>
            if continuation c1 && continuation c2 && continuation c3 then
              ((((b - 240) * 64 + (c1 - 128)) * 64 + (c2 - 128)) * 64 + (c3 - 128))%N
              :: decode rest3
            else 65533%N :: decode rest
        | _ => 65533%N :: decode rest
        end
      else 65533%N :: decode rest
  end.

Definition code_points (s : string) : list N :=
  decode (N_of_ascii <$> list_ascii_of_string s).

(** [s.length]: the number of UTF-16 code units, two for a code point
    beyond the basic plane. *)
Definition utf16_length (s : string) : nat :=
  foldr (λ cp n, (if (65536 <=? cp)%N then 2 else 1) + n)%nat 0%nat (code_points s).

(** [v.length] *)
Definition length (v : jsval) : jsval :=
  match v with
  | Some (VStr s) => Some (VInt (Z.of_nat (utf16_length s)))
  | Some (VStrs l) => Some (VInt (Z.of_nat (List.length l)))
  | Some (VObj o) => o !! "length"
  | _ => None
  end.

(** [{...base, ...ext}]: the fields of [ext] win. *)
Definition spread (base ext : obj) : obj := ext ∪ base.

(** [{...o, k: v}]; a field whose value is [undefined] reads like a
    missing one. *)
Definition assign (k : string) (v : jsval) (o : obj) : obj :=
  match v with
  | Some x => <[k := x]> o
  | None => delete k o
  end.

(** An object literal [{k1: v1, ..., kn: vn}]. *)
Definition literal (fields : list (string * jsval)) : obj :=
  fold_left (λ o kv, assign kv.1 kv.2 o) fields ∅.

(** [array.findIndex(p)], with [None] for [-1]. *)
Fixpoint findIndex {A : Type} (p : A → bool) (l : list A) : option nat :=
  match l with
  | [] => None
  | x :: l' => if p x then Some 0%nat else S <$> findIndex p l'
  end.

(** [array.slice(start, end)] with JavaScript's treatment of negative
    and out-of-range bounds. *)
Definition clamp (len k : Z) : Z :=
  if k <? 0 then Z.max (len + k) 0 else Z.min k len.

Definition slice {A : Type} (l : list A) (start stop : Z) : list A :=
  let len := Z.of_nat (List.length l) in
  let from := clamp len start in
  let to := clamp len stop in
  take (Z.to_nat (Z.max (to - from) 0)) (drop (Z.to_nat from) l).

(** [s.includes(t)] *)
Fixpoint includes (t s : string) : bool :=
  String.prefix t s ||
  match s with
  | EmptyString => false
  | String _ s' => includes t s'
  end.

End JS.

(** ** Errors *)

(** The [details] extension of a GraphQLError: a fixed string, the
    [{field, message}] object of the validators, or the template
    [`${kind} with ID ${id} does not exist`]. *)
Inductive details : Type :=
| DText (s : string)
| DField (field message : string)
| DNotExist (kind : string) (id : jsval).

Inductive exn : Type :=
| GraphQLError (message code : string) (extra : details)
| JsError (message : string).

(** What the server's [formatError] reports as the error code.  Apollo
    Server gives an error that carries no code the code
    INTERNAL_SERVER_ERROR before [formatError] sees it. *)
Definition exn_code (e : exn) : string :=
  match e with
  | GraphQLError _ code _ => code
  | JsError _ => "INTERNAL_SERVER_ERROR"
  end.

Definition exn_message (e : exn) : string :=
  match e with
  | GraphQLError message _ _ => message
  | JsError message => message
  end.

Inductive result (A : Type) : Type :=
| Ok (a : A)
| Err (e : exn).
Arguments Ok {A} a.
Arguments Err {A} e.

(** ** The data store (src/data/store.js) *)

Record DataStore : Type := mkStore {
  users : list obj;
  listings : list obj;
  orders : list obj;
  sessions : gset string;
  nextUserId : Z;
  nextListingId : Z;
  nextOrderId : Z;
}.

Definition set_users (l : list obj) (st : DataStore) : DataStore :=
  mkStore l (listings st) (orders st) (sessions st)
          (nextUserId st) (nextListingId st) (nextOrderId st).

Definition set_listings (l : list obj) (st : DataStore) : DataStore :=
  mkStore (users st) l (orders st) (sessions st)
          (nextUserId st) (nextListingId st) (nextOrderId st).

Definition set_orders (l : list obj) (st : DataStore) : DataStore :=
  mkStore (users st) (listings st) l (sessions st)
          (nextUserId st) (nextListingId st) (nextOrderId st).

Definition set_sessions (s : gset string) (st : DataStore) : DataStore :=
  mkStore (users st) (listings st) (orders st) s
          (nextUserId st) (nextListingId st) (nextOrderId st).

Module Store.

Definition has_id (id : jsval) (o : obj) : bool := JS.strict_eq (o !! "id") id.

(** The sample data of [initializeSampleData]: two users, two listings
    and one order; [boot] is the time stamp taken when the module is
    loaded. *)
Definition sampleHash : string :=
  "$2a$10$92IXUNpkjO0rOQ5byMi.Ye4oKoEa3Ro9llC/.og/at2.uheWG/igi".

Definition john : obj :=
  JS.literal [("id", Some (VInt 1)); ("username", Some (VStr "john_doe"));
              ("email", Some (VStr "john@example.com"));
              ("password", Some (VStr sampleHash))].

Definition jane : obj :=
  JS.literal [("id", Some (VInt 2)); ("username", Some (VStr "jane_smith"));
              ("email", Some (VStr "jane@example.com"));
              ("password", Some (VStr sampleHash))].

Definition iphone (boot : string) : obj :=
  JS.literal [("id", Some (VInt 1)); ("title", Some (VStr "iPhone 13 Pro Max"));
              ("description", Some (VStr "Brand new, still in box"));
              ("price", Some (VFloat 999.99));
              ("category", Some (VStr "electronics"));
              ("condition", Some (VStr "NEW"));
              ("location", Some (VStr "New York, NY"));
              ("images", Some (VStrs ["iphone1.jpg"; "iphone2.jpg"]));
              ("userId", Some (VInt 1));
              ("createdAt", Some (VStr boot)); ("updatedAt", Some (VStr boot))].

Definition guitar (boot : string) : obj :=
  JS.literal [("id", Some (VInt 2)); ("title", Some (VStr "Vintage Guitar"));
              ("description",
               Some (VStr "Classic acoustic guitar in excellent condition"));
              ("price", Some (VFloat 450.00));
              ("category", Some (VStr "music"));
              ("condition", Some (VStr "GOOD"));
              ("location", Some (VStr "Los Angeles, CA"));
              ("images", Some (VStrs ["guitar1.jpg"]));
              ("userId", Some (VInt 2));
              ("createdAt", Some (VStr boot)); ("updatedAt", Some (VStr boot))].

Definition sampleOrder (boot : string) : obj :=
  JS.literal [("id", Some (VInt 1)); ("userId", Some (VInt 2));
              ("listingId", Some (VInt 1)); ("quantity", Some (VInt 1));
              ("totalPrice", Some (VFloat 999.99));
              ("status", Some (VStr "PENDING"));
              ("shippingAddress",
               Some (VObj (JS.literal
                 [("street", Some (VStr "123 Main St"));
                  ("city", Some (VStr "New York"));
                  ("state", Some (VStr "NY"));
                  ("zipCode", Some (VStr "10001"));
                  ("country", Some (VStr "USA"))])));
              ("buyerNotes", Some (VStr "Please deliver after 5 PM"));
              ("createdAt", Some (VStr boot)); ("updatedAt", Some (VStr boot))].

Definition initial (boot : string) : DataStore :=
  {| users := [john; jane];
     listings := [iphone boot; guitar boot];
     orders := [sampleOrder boot];
     sessions := ∅;
     nextUserId := 3;
     nextListingId := 3;
     nextOrderId := 2 |}.

(** *** Users *)

Definition createUser (userData : obj) (now : string) (st : DataStore)
  : obj * DataStore :=
  let user :=
    <["updatedAt" := VStr now]>
      (<["createdAt" := VStr now]>
         (JS.spread {["id" := VInt (nextUserId st)]} userData)) in
  (user,
   mkStore (users st ++ [user]) (listings st) (orders st) (sessions st)
           (nextUserId st + 1) (nextListingId st) (nextOrderId st)).

Definition getUserById (id : jsval) (st : DataStore) : option obj :=
  find (has_id id) (users st).

Definition getUserByEmail (email : jsval) (st : DataStore) : option obj :=
  find (λ user, JS.strict_eq (user !! "email") email) (users st).

(** The body shared by [updateUser], [updateListing] and [updateOrder]:
    [rows[i] = {...rows[i], ...updates, updatedAt: now}]. *)
Definition merged (row updates : obj) (now : string) : obj :=
  <["updatedAt" := VStr now]> (JS.spread row updates).

Definition merge_at (rows : list obj) (i : nat) (updates : obj) (now : string)
  : obj * list obj :=
  let row := merged (default ∅ (rows !! i)) updates now in
  (row, <[i := row]> rows).

Definition updateUser (id : jsval) (updates : obj) (now : string) (st : DataStore)
  : option obj * DataStore :=
  match JS.findIndex (has_id id) (users st) with
  | None => (None, st)
  | Some userIndex =>
      let '(user, rows) := merge_at (users st) userIndex updates now in
      (Some user, set_users rows st)
  end.

Definition deleteUser (id : jsval) (st : DataStore) : bool * DataStore :=
  match JS.findIndex (has_id id) (users st) with
  | None => (false, st)
  | Some userIndex => (true, set_users (delete userIndex (users st)) st)
  end.

(** *** Listings *)

Definition createListing (listingData : obj) (now : string) (st : DataStore)
  : obj * DataStore :=
  let listing :=
    <["updatedAt" := VStr now]>
      (<["createdAt" := VStr now]>
         (JS.spread {["id" := VInt (nextListingId st)]} listingData)) in
  (listing,
   mkStore (users st) (listings st ++ [listing]) (orders st) (sessions st)
           (nextUserId st) (nextListingId st + 1) (nextOrderId st)).

Definition getListingById (id : jsval) (st : DataStore) : option obj :=
  find (has_id id) (listings st).

(** The [TypeError] of [v.toLowerCase()] for a [v] that is no string. *)
Definition no_toLowerCase (what : string) (v : jsval) : exn :=
  match v with
  | None => JsError "Cannot read properties of undefined (reading 'toLowerCase')"
  | Some VNull => JsError "Cannot read properties of null (reading 'toLowerCase')"
  | _ => JsError (what +:+ ".toLowerCase is not a function")
  end.

(** [array.filter(p)] for a [p] that may throw: the first throw ends it. *)
Fixpoint filter_until {A : Type} (p : A → result bool) (l : list A)
  : result (list A) :=
  match l with
  | [] => Ok []
  | x :: l' =>
      match p x with
      | Err e => Err e
      | Ok b =>
          match filter_until p l' with
          | Err e => Err e
          | Ok r => Ok (if b then x :: r else r)
          end
      end
  end.

Section WithPlatform.
Context `{P : Platform}.

(** [listing.field.toLowerCase().includes(searchTerm)] *)
Definition lower_includes (searchTerm field : string) (listing : obj)
  : result bool :=
  match listing !! field with
  | Some (VStr s) => Ok (JS.includes searchTerm (toLowerCase s))
  | v => Err (no_toLowerCase ("listing." +:+ field) v)
  end.

(** The test of the search: the description is looked at only when the
    title does not match. *)
Definition search_match (searchTerm : string) (listing : obj) : result bool :=
  match lower_includes searchTerm "title" listing with
  | Ok false => lower_includes searchTerm "description" listing
  | r => r
  end.

(** The first step of [getListings]: the search, when [filter.search] is
    truthy. *)
Definition search (filter : obj) (rows : list obj) : result (list obj) :=
  if JS.truthy (filter !! "search") then
    match filter !! "search" with
    | Some (VStr s) => filter_until (search_match (toLowerCase s)) rows
    | v => Err (no_toLowerCase "filter.search" v)
    end
  else Ok rows.

(** The four steps after the search, which cannot throw. *)
Definition narrow (filter : obj) (l1 : list obj) : list obj :=
  let l2 :=
    match filter !! "priceMin" with
    | Some _ => List.filter (λ listing,
                  JS.leb (filter !! "priceMin") (listing !! "price")) l1
    | None => l1
    end in
  let l3 :=
    match filter !! "priceMax" with
    | Some _ => List.filter (λ listing,
                  JS.leb (listing !! "price") (filter !! "priceMax")) l2
    | None => l2
    end in
  let l4 :=
    if JS.truthy (filter !! "category") then
      List.filter (λ listing,
        JS.strict_eq (listing !! "category") (filter !! "category")) l3
    else l3 in
  if JS.truthy (filter !! "condition") then
    List.filter (λ listing,
      JS.strict_eq (listing !! "condition") (filter !! "condition")) l4
  else l4.

Definition getListings (filter : obj) (st : DataStore) : result (list obj) :=
  match search filter (listings st) with
  | Ok l1 => Ok (narrow filter l1)
  | Err e => Err e
  end.

End WithPlatform.

Definition updateListing (id : jsval) (updates : obj) (now : string)
    (st : DataStore) : option obj * DataStore :=
  match JS.findIndex (has_id id) (listings st) with
  | None => (None, st)
  | Some listingIndex =>
      let '(listing, rows) := merge_at (listings st) listingIndex updates now in
      (Some listing, set_listings rows st)
  end.

Definition deleteListing (id : jsval) (st : DataStore) : bool * DataStore :=
  match JS.findIndex (has_id id) (listings st) with
  | None => (false, st)
  | Some listingIndex =>
      (true, set_listings (delete listingIndex (listings st)) st)
  end.

End Store.

Module Orders.

(** The [pagination] argument of [getOrders].  The schema types both
    fields as integers. *)
Record Pagination : Type := mkPagination { page : Z; limit : Z }.

(** The value of [Math.ceil(total / limit)]: an integer, or what the
    division by zero leaves ([Infinity] for a positive total, [NaN] for
    [0 / 0]). *)
Inductive pageCount : Type :=
| Pages (n : Z)
| PagesInfinity
| PagesNaN.

Definition ceil_div (total limit : Z) : pageCount :=
  if limit =? 0 then (if total =? 0 then PagesNaN else PagesInfinity)
  else Pages (- ((- total) / limit)).

(** [page < pages] *)
Definition page_before (page : Z) (pages : pageCount) : bool :=
  match pages with
  | Pages n => page <? n
  | PagesInfinity => true
  | PagesNaN => false
  end.

Record PageInfo : Type := mkPageInfo {
  total : Z;
  pages : pageCount;
  currentPage : Z;
  hasNextPage : bool;
  hasPreviousPage : bool;
}.

(** The object [{orders, pagination}] that [getOrders] returns. *)
Record OrdersPage : Type := mkOrdersPage {
  page_orders : list obj;
  page_pagination : PageInfo;
}.

Definition defaultPagination : Pagination := mkPagination 1 10.

Definition createOrder (orderData : obj) (now : string) (st : DataStore)
  : obj * DataStore :=
  let order :=
    <["updatedAt" := VStr now]>
      (<["createdAt" := VStr now]>
         (<["status" := VStr "PENDING"]>
            (JS.spread {["id" := VInt (nextOrderId st)]} orderData))) in
  (order,
   mkStore (users st) (listings st) (orders st ++ [order]) (sessions st)
           (nextUserId st) (nextListingId st) (nextOrderId st + 1)).

Definition getOrderById (id : jsval) (st : DataStore) : option obj :=
  find (Store.has_id id) (orders st).

Definition filterOrders (filter : obj) (rows : list obj) : list obj :=
  let l1 :=
    if JS.truthy (filter !! "userId") then
      List.filter (λ order, JS.strict_eq (order !! "userId") (filter !! "userId")) rows
    else rows in
  if JS.truthy (filter !! "status") then
    List.filter (λ order, JS.strict_eq (order !! "status") (filter !! "status")) l1
  else l1.

Definition getOrders (filter : obj) (pagination : Pagination) (st : DataStore)
  : OrdersPage :=
  let filteredOrders := filterOrders filter (orders st) in
  let total := Z.of_nat (List.length filteredOrders) in
  let pages := ceil_div total (limit pagination) in
  let offset := (page pagination - 1) * limit pagination in
  let paginatedOrders :=
    JS.slice filteredOrders offset (offset + limit pagination) in
  {| page_orders := paginatedOrders;
     page_pagination :=
       {| total := total;
          pages := pages;
          currentPage := page pagination;
          hasNextPage := page_before (page pagination) pages;
          hasPreviousPage := 1 <? page pagination |} |}.

Definition updateOrder (id : jsval) (updates : obj) (now : string) (st : DataStore)
  : option obj * DataStore :=
  match JS.findIndex (Store.has_id id) (orders st) with
  | None => (None, st)
  | Some orderIndex =>
      let '(order, rows) := Store.merge_at (orders st) orderIndex updates now in
      (Some order, set_orders rows st)
  end.

Definition deleteOrder (id : jsval) (st : DataStore) : bool * DataStore :=
  match JS.findIndex (Store.has_id id) (orders st) with
  | None => (false, st)
  | Some orderIndex => (true, set_orders (delete orderIndex (orders st)) st)
  end.

(** [{...order, status: 'CANCELLED', cancelledAt: now,
      cancelReason: cancelReason || 'No reason provided', updatedAt: now}] *)
Definition cancelled (order : obj) (cancelReason : jsval) (now : string) : obj :=
  <["updatedAt" := VStr now]>
    (JS.assign "cancelReason"
       (JS.or cancelReason (Some (VStr "No reason provided")))
       (<["cancelledAt" := VStr now]>
          (<["status" := VStr "CANCELLED"]> order))).

Definition cancelOrder (id : jsval) (cancelReason : jsval) (now : string)
    (st : DataStore) : option obj * DataStore :=
  match JS.findIndex (Store.has_id id) (orders st) with
  | None => (None, st)
  | Some orderIndex =>
      let order :=
        cancelled (default ∅ (orders st !! orderIndex)) cancelReason now in
      (Some order, set_orders (<[orderIndex := order]> (orders st)) st)
  end.

(** [{...order, status, updatedAt: now}] *)
Definition with_status (order : obj) (status : jsval) (now : string) : obj :=
  <["updatedAt" := VStr now]> (JS.assign "status" status order).

Definition updateOrderStatus (id : jsval) (status : jsval) (now : string)
    (st : DataStore) : option obj * DataStore :=
  match JS.findIndex (Store.has_id id) (orders st) with
  | None => (None, st)
  | Some orderIndex =>
      let order := with_status (default ∅ (orders st !! orderIndex)) status now in
      (Some order, set_orders (<[orderIndex := order]> (orders st)) st)
  end.

End Orders.

Module Sessions.

Definition addSession (token : string) (st : DataStore) : DataStore :=
  set_sessions ({[token]} ∪ sessions st) st.

Definition removeSession (token : string) (st : DataStore) : DataStore :=
  set_sessions (sessions st ∖ {[token]}) st.

Definition isValidSession (token : string) (st : DataStore) : bool :=
  bool_decide (token ∈ sessions st).

End Sessions.

(** ** The resolver monad

    A resolver reads and writes the store singleton and may throw. *)

Definition M (A : Type) : Type := DataStore → result A * DataStore.

#[global] Instance M_ret : MRet M := λ A a st, (Ok a, st).

#[global] Instance M_bind : MBind M := λ A B f m st,
  match m st with
  | (Ok a, st') => f a st'
  | (Err e, st') => (Err e, st')
  end.

#[global] Instance M_fmap : FMap M := λ A B f m st,
  match m st with
  | (Ok a, st') => (Ok (f a), st')
  | (Err e, st') => (Err e, st')
  end.

Definition throw {A : Type} (e : exn) : M A := λ st, (Err e, st).

(** A read of the store. *)
Definition gets {A : Type} (f : DataStore → A) : M A := λ st, (Ok (f st), st).

(** A call of a store method. *)
Definition call {A : Type} (f : DataStore → A * DataStore) : M A :=
  λ st, let '(a, st') := f st in (Ok a, st').

Definition modify (f : DataStore → DataStore) : M unit := λ st, (Ok tt, f st).

(** ** Validation (src/utils/validation.js) *)

Module Validation.

Definition validation_error (message field : string) : exn :=
  GraphQLError message "VALIDATION_ERROR" (DField field message).

(** The class [\s] of a regular expression: the white space and the
    line terminators of ECMAScript, by code point. *)
Definition is_space (c : N) : bool :=
  ((9 <=? c) && (c <=? 13) || (c =? 32) || (c =? 160) || (c =? 5760)
   || (8192 <=? c) && (c <=? 8202) || (c =? 8232) || (c =? 8233)
   || (c =? 8239) || (c =? 8287) || (c =? 12288) || (c =? 65279))%N.

(** The code points of [@] and of the dot. *)
Definition is_at (c : N) : bool := (c =? 64)%N.

Definition is_dot (c : N) : bool := (c =? 46)%N.

Fixpoint split_at_sign (cs : list N) : option (list N * list N) :=
  match cs with
  | [] => None
  | c :: cs' =>
      if is_at c then Some ([], cs')
      else '(l, d) ← split_at_sign cs'; Some (c :: l, d)
  end.

(** [/^[^\s@]+@[^\s@]+\.[^\s@]+$/]: no white space, a single [@] after a
    non-empty local part, and a dot strictly inside the domain. *)
Definition email_shape (s : string) : bool :=
  let cs := JS.code_points s in
  forallb (λ c, negb (is_space c)) cs &&
  match split_at_sign cs with
  | None => false
  | Some (l, d) =>
      negb (forallb (λ _, false) l) &&
      forallb (λ c, negb (is_at c)) d &&
      existsb is_dot (removelast (tail d))
  end.

(** [emailRegex.test(email)].  The argument is coerced to a string; only
    a string, or an array of strings (joined with commas), can contain
    an [@]. *)
Definition emailRegex_test (email : jsval) : bool :=
  match email with
  | Some (VStr s) => email_shape s
  | Some (VStrs l) => email_shape (String.concat "," l)
  | _ => false
  end.

Definition validateEmail (email : jsval) : M unit :=
  if negb (emailRegex_test email) then
    throw (GraphQLError "Invalid email format" "VALIDATION_ERROR"
                        (DField "email" "Email format is invalid"))
  else mret tt.

Definition validatePassword (password : jsval) : M unit :=
  if negb (JS.truthy password)
     || JS.ltb (JS.length password) (Some (VInt 6)) then
    throw (validation_error "Password must be at least 6 characters long" "password")
  else mret tt.

Definition validateUsername (username : jsval) : M unit :=
  if negb (JS.truthy username)
     || JS.ltb (JS.length username) (Some (VInt 3)) then
    throw (validation_error "Username must be at least 3 characters long" "username")
  else mret tt.

Definition validatePrice (price : jsval) : M unit :=
  if JS.leb price (Some (VInt 0)) then
    throw (validation_error "Price must be greater than 0" "price")
  else mret tt.

Definition validateQuantity (quantity : jsval) : M unit :=
  if negb (JS.isInteger quantity) || JS.leb quantity (Some (VInt 0)) then
    throw (validation_error "Quantity must be a positive integer" "quantity")
  else mret tt.

Definition validStatuses : list string :=
  ["PENDING"; "CONFIRMED"; "SHIPPED"; "DELIVERED"; "CANCELLED"].

Definition invalid_status_message : string :=
  "Invalid status. Must be: " +:+ String.concat ", " validStatuses.

(** [validStatuses.includes(status)] *)
Definition is_valid_status (status : jsval) : bool :=
  existsb (λ s, JS.strict_eq (Some (VStr s)) status) validStatuses.

Definition validateOrderStatus (status : jsval) : M unit :=
  if negb (is_valid_status status) then
    throw (validation_error invalid_status_message "status")
  else mret tt.

(** [value === undefined || value === null || value === ''] *)
Definition missing (v : jsval) : bool :=
  match v with
  | None | Some VNull | Some (VStr "") => true
  | _ => false
  end.

Definition validateRequired (v : jsval) (fieldName : string) : M unit :=
  if missing v then
    throw (validation_error (fieldName +:+ " is required") fieldName)
  else mret tt.

End Validation.

(** ** Requests *)

(** What a request sees of the clock and of the random source. *)
Record Env : Type := mkEnv {
  nowISO : string;   (* new Date().toISOString() *)
  nowMs : Z;         (* Date.now() *)
  salt : string;
}.

(** The context [createContext] builds for every request. *)
Record ReqContext : Type := mkContext {
  ctx_user : option obj;
  ctx_token : option string;
  ctx_JWT_SECRET : string;
}.

(** ** The auth guard (src/utils/auth.js) *)

Module Auth.
Section WithPlatform.
Context `{P : Platform}.

Definition JWT_SECRET : string :=
  match JS.or env_JWT_SECRET (Some (VStr "your-secret-key")) with
  | Some (VStr s) => s
  | _ => "your-secret-key"
  end.

Definition generateToken (user : obj) (env : Env) : string :=
  jwt_sign
    (JS.literal [("id", user !! "id");
                 ("email", user !! "email");
                 ("username", user !! "username")])
    JWT_SECRET "24h" (nowMs env).

Definition verifyToken (token : string) (env : Env) : M obj :=
  match jwt_verify token JWT_SECRET (nowMs env) with
  | inr decoded => mret decoded
  | inl message =>
      throw (GraphQLError "Invalid or expired token" "UNAUTHENTICATED" (DText message))
  end.

End WithPlatform.

Definition authentication_required : exn :=
  GraphQLError "Authentication required" "UNAUTHENTICATED"
               (DText "You must be logged in to perform this action").

Definition requireAuth (context : ReqContext) : M obj :=
  match ctx_user context with
  | None => throw authentication_required
  | Some user => mret user
  end.

Definition access_denied : exn :=
  GraphQLError "Access denied" "FORBIDDEN"
               (DText "You can only access your own resources").

Definition requireOwnership (context : ReqContext) (resourceUserId : jsval) : M obj :=
  user ← requireAuth context;
  if negb (JS.strict_eq (user !! "id") resourceUserId) then throw access_denied
  else mret user.

End Auth.

(** ** Resolvers (src/resolvers/*.js) *)

Definition not_found (kind : string) (id : jsval) : exn :=
  GraphQLError (kind +:+ " not found") "NOT_FOUND" (DNotExist kind id).

Definition internal_error (message detail : string) : exn :=
  GraphQLError message "INTERNAL_ERROR" (DText detail).

(** [const { password, ...userWithoutPassword } = user] *)
Definition userWithoutPassword (user : obj) : obj := delete "password" user.

Module ListingResolvers.

Definition listing (id : Z) : M obj :=
  found ← gets (Store.getListingById (Some (VInt id)));
  match found with
  | None => throw (not_found "Listing" (Some (VInt id)))
  | Some l => mret l
  end.

Definition listings `{P : Platform} (filter : option obj) : M (list obj) :=
  found ← gets (Store.getListings (default ∅ filter));
  match found with
  | Ok l => mret l
  | Err e => throw e
  end.

(** [images.map((_, index) => `listing_${Date.now()}_${index}.jpg`)] when
    [images && images.length > 0]; the uploads are an array. *)
Definition imageUrls (images : jsval) (env : Env) : M (list string) :=
  match images with
  | Some (VStrs l) =>
      mret (imap (λ index _,
              "listing_" +:+ pretty (nowMs env) +:+ "_" +:+ pretty index +:+ ".jpg") l)
  | _ =>
      if JS.truthy images && JS.ltb (Some (VInt 0)) (JS.length images) then
        throw (JsError "images.map is not a function")
      else mret []
  end.

Definition createListing (input : obj) (context : ReqContext) (env : Env) : M obj :=
  user ← Auth.requireAuth context;
  let title := input !! "title" in
  let description := input !! "description" in
  let price := input !! "price" in
  Validation.validateRequired title "title";;
  Validation.validateRequired description "description";;
  Validation.validateRequired price "price";;
  Validation.validatePrice price;;
  urls ← imageUrls (input !! "images") env;
  call (Store.createListing
          (JS.literal [("title", title);
                       ("description", description);
                       ("price", price);
                       ("category", input !! "category");
                       ("condition", input !! "condition");
                       ("location", input !! "location");
                       ("images", Some (VStrs urls));
                       ("userId", user !! "id")])
          (nowISO env)).

Definition updateListing (id : Z) (input : obj) (context : ReqContext) (env : Env)
  : M (option obj) :=
  user ← Auth.requireAuth context;
  found ← gets (Store.getListingById (Some (VInt id)));
  match found with
  | None => throw (not_found "Listing" (Some (VInt id)))
  | Some existingListing =>
      Auth.requireOwnership context (existingListing !! "userId");;
      let updates := input in
      match input !! "price" with
      | Some _ => Validation.validatePrice (input !! "price")
      | None => mret tt
      end;;
      call (Store.updateListing (Some (VInt id)) updates (nowISO env))
  end.

Definition deleteListing (id : Z) (context : ReqContext) : M string :=
  user ← Auth.requireAuth context;
  found ← gets (Store.getListingById (Some (VInt id)));
  match found with
  | None => throw (not_found "Listing" (Some (VInt id)))
  | Some existingListing =>
      Auth.requireOwnership context (existingListing !! "userId");;
      deleted ← call (Store.deleteListing (Some (VInt id)));
      if negb deleted then
        throw (internal_error "Failed to delete listing"
                 "An error occurred while deleting the listing")
      else mret "Listing deleted successfully"
  end.

(** The [user] field of a listing. *)
Definition Listing_user (parent : obj) (st : DataStore) : option obj :=
  userWithoutPassword <$> Store.getUserById (parent !! "userId") st.

End ListingResolvers.

Module OrderResolvers.

Definition access_denied_orders : exn :=
  GraphQLError "Access denied" "FORBIDDEN" (DText "You can only access your own orders").

Definition order (id : Z) (context : ReqContext) : M obj :=
  user ← Auth.requireAuth context;
  found ← gets (Orders.getOrderById (Some (VInt id)));
  match found with
  | None => throw (not_found "Order" (Some (VInt id)))
  | Some o =>
      if negb (JS.strict_eq (o !! "userId") (user !! "id")) then
        throw access_denied_orders
      else mret o
  end.

Definition orders (filter : option obj) (pagination : option Orders.Pagination)
    (context : ReqContext) : M Orders.OrdersPage :=
  user ← Auth.requireAuth context;
  let requested := default ∅ filter !! "userId" in
  let orderFilter :=
    JS.assign "userId" (JS.or requested (user !! "id")) (default ∅ filter) in
  if JS.truthy requested && negb (JS.strict_eq requested (user !! "id")) then
    throw access_denied_orders
  else
    gets (Orders.getOrders orderFilter (default Orders.defaultPagination pagination)).

Definition createOrder (input : obj) (context : ReqContext) (env : Env) : M obj :=
  user ← Auth.requireAuth context;
  let listingId := input !! "listingId" in
  let quantity := input !! "quantity" in
  let shippingAddress := input !! "shippingAddress" in
  let buyerNotes := input !! "buyerNotes" in
  Validation.validateRequired listingId "listingId";;
  Validation.validateRequired quantity "quantity";;
  Validation.validateRequired shippingAddress "shippingAddress";;
  Validation.validateQuantity quantity;;
  found ← gets (Store.getListingById listingId);
  match found with
  | None => throw (not_found "Listing" listingId)
  | Some listing =>
      let totalPrice := JS.mul (listing !! "price") quantity in
      call (Orders.createOrder
              (JS.literal [("userId", user !! "id");
                           ("listingId", listingId);
                           ("quantity", quantity);
                           ("totalPrice", Some totalPrice);
                           ("shippingAddress", shippingAddress);
                           ("buyerNotes", buyerNotes)])
              (nowISO env))
  end.

Definition updateOrder (id : Z) (input : obj) (context : ReqContext) (env : Env)
  : M (option obj) :=
  user ← Auth.requireAuth context;
  found ← gets (Orders.getOrderById (Some (VInt id)));
  match found with
  | None => throw (not_found "Order" (Some (VInt id)))
  | Some existingOrder =>
      Auth.requireOwnership context (existingOrder !! "userId");;
      updates ←
        match input !! "quantity" with
        | Some _ =>
            Validation.validateQuantity (input !! "quantity");;
            listing ← gets (Store.getListingById (existingOrder !! "listingId"));
            match listing with
            | Some l =>
                mret (<["totalPrice" :=
                          JS.mul (l !! "price") (input !! "quantity")]> input)
            | None => mret input
            end
        | None => mret input
        end;
      call (Orders.updateOrder (Some (VInt id)) updates (nowISO env))
  end.

Definition deleteOrder (id : Z) (context : ReqContext) : M string :=
  user ← Auth.requireAuth context;
  found ← gets (Orders.getOrderById (Some (VInt id)));
  match found with
  | None => throw (not_found "Order" (Some (VInt id)))
  | Some existingOrder =>
      Auth.requireOwnership context (existingOrder !! "userId");;
      deleted ← call (Orders.deleteOrder (Some (VInt id)));
      if negb deleted then
        throw (internal_error "Failed to delete order"
                 "An error occurred while deleting the order")
      else mret "Order deleted successfully"
  end.

Definition invalid_operation (message detail : string) : exn :=
  GraphQLError message "INVALID_OPERATION" (DText detail).

Definition cancelOrder (id : Z) (cancelReason : jsval) (context : ReqContext)
    (env : Env) : M (string * option obj) :=
  user ← Auth.requireAuth context;
  found ← gets (Orders.getOrderById (Some (VInt id)));
  match found with
  | None => throw (not_found "Order" (Some (VInt id)))
  | Some existingOrder =>
      Auth.requireOwnership context (existingOrder !! "userId");;
      if JS.strict_eq (existingOrder !! "status") (Some (VStr "CANCELLED")) then
        throw (invalid_operation "Order is already cancelled"
                 "This order has already been cancelled")
      else if JS.strict_eq (existingOrder !! "status") (Some (VStr "DELIVERED")) then
        throw (invalid_operation "Cannot cancel delivered order"
                 "Delivered orders cannot be cancelled")
      else
        cancelledOrder ← call (Orders.cancelOrder (Some (VInt id)) cancelReason
                                 (nowISO env));
        mret ("Order cancelled successfully", cancelledOrder)
  end.

Definition updateOrderStatus (id : Z) (status : jsval) (context : ReqContext)
    (env : Env) : M (option obj) :=
  user ← Auth.requireAuth context;
  found ← gets (Orders.getOrderById (Some (VInt id)));
  match found with
  | None => throw (not_found "Order" (Some (VInt id)))
  | Some existingOrder =>
      Auth.requireOwnership context (existingOrder !! "userId");;
      Validation.validateOrderStatus status;;
      call (Orders.updateOrderStatus (Some (VInt id)) status (nowISO env))
  end.

(** The [user] and [listing] fields of an order. *)
Definition Order_user (parent : obj) (st : DataStore) : option obj :=
  userWithoutPassword <$> Store.getUserById (parent !! "userId") st.

Definition Order_listing (parent : obj) (st : DataStore) : option obj :=
  Store.getListingById (parent !! "listingId") st.

End OrderResolvers.

Module UserResolvers.
Section WithPlatform.
Context `{P : Platform}.

Definition email_conflict : exn :=
  GraphQLError "Email already exists" "CONFLICT"
               (DField "email" "A user with this email already exists").

(** [await bcrypt.hash(password, 10)]; the library rejects an argument
    that is not a string. *)
Definition hashPassword (password : jsval) (env : Env) : M string :=
  match password with
  | Some (VStr s) => mret (bcrypt_hash s 10 (salt env))
  | _ => throw (JsError ("Illegal arguments: " +:+ JS.typeof password +:+ ", number"))
  end.

Definition user (id : Z) : M obj :=
  found ← gets (Store.getUserById (Some (VInt id)));
  match found with
  | None => throw (not_found "User" (Some (VInt id)))
  | Some u => mret (userWithoutPassword u)
  end.

Definition createUser (input : obj) (env : Env) : M obj :=
  let username := input !! "username" in
  let email := input !! "email" in
  let password := input !! "password" in
  Validation.validateRequired username "username";;
  Validation.validateRequired email "email";;
  Validation.validateRequired password "password";;
  Validation.validateUsername username;;
  Validation.validateEmail email;;
  Validation.validatePassword password;;
  existingUser ← gets (Store.getUserByEmail email);
  match existingUser with
  | Some _ => throw email_conflict
  | None =>
      hashedPassword ← hashPassword password env;
      newUser ← call (Store.createUser
                        (JS.literal [("username", username);
                                     ("email", email);
                                     ("password", Some (VStr hashedPassword))])
                        (nowISO env));
      mret (userWithoutPassword newUser)
  end.

Definition updateUser (id : Z) (input : obj) (context : ReqContext) (env : Env)
  : M obj :=
  Auth.requireOwnership context (Some (VInt id));;
  found ← gets (Store.getUserById (Some (VInt id)));
  match found with
  | None => throw (not_found "User" (Some (VInt id)))
  | Some existingUser =>
      (if JS.truthy (input !! "username") then
         Validation.validateUsername (input !! "username")
       else mret tt);;
      (if JS.truthy (input !! "email") then
         Validation.validateEmail (input !! "email");;
         existingEmailUser ← gets (Store.getUserByEmail (input !! "email"));
         match existingEmailUser with
         | Some other =>
             if negb (JS.strict_eq (other !! "id") (Some (VInt id))) then
               throw email_conflict
             else mret tt
         | None => mret tt
         end
       else mret tt);;
      updates ←
        (if JS.truthy (input !! "password") then
           Validation.validatePassword (input !! "password");;
           hashed ← hashPassword (input !! "password") env;
           mret (<["password" := VStr hashed]> input)
         else mret input);
      updatedUser ← call (Store.updateUser (Some (VInt id)) updates (nowISO env));
      match updatedUser with
      | Some u => mret (userWithoutPassword u)
      | None => throw (JsError "Cannot destructure property 'password' of null")
      end
  end.

Definition deleteUser (id : Z) (context : ReqContext) : M string :=
  Auth.requireOwnership context (Some (VInt id));;
  found ← gets (Store.getUserById (Some (VInt id)));
  match found with
  | None => throw (not_found "User" (Some (VInt id)))
  | Some existingUser =>
      deleted ← call (Store.deleteUser (Some (VInt id)));
      if negb deleted then
        throw (internal_error "Failed to delete user"
                 "An error occurred while deleting the user")
      else mret "User deleted successfully"
  end.

End WithPlatform.
End UserResolvers.

Module AuthResolvers.
Section WithPlatform.
Context `{P : Platform}.

Definition invalid_credentials : exn :=
  GraphQLError "Invalid credentials" "AUTHENTICATION_ERROR"
               (DText "Invalid email or password").

(** [await bcrypt.compare(password, user.password)]; the library rejects
    arguments that are not strings. *)
Definition comparePassword (password hash : jsval) : M bool :=
  match password, hash with
  | Some (VStr s), Some (VStr h) => mret (bcrypt_compare s h)
  | _, _ =>
      throw (JsError ("Illegal arguments: " +:+ JS.typeof password +:+ ", "
                      +:+ JS.typeof hash))
  end.

Definition login (input : obj) (env : Env) : M (string * obj) :=
  let email := input !! "email" in
  let password := input !! "password" in
  Validation.validateRequired email "email";;
  Validation.validateRequired password "password";;
  Validation.validateEmail email;;
  found ← gets (Store.getUserByEmail email);
  match found with
  | None => throw invalid_credentials
  | Some user =>
      isValidPassword ← comparePassword password (user !! "password");
      if negb isValidPassword then throw invalid_credentials
      else
        let token := Auth.generateToken user env in
        modify (Sessions.addSession token);;
        mret (token, userWithoutPassword user)
  end.

End WithPlatform.

Definition logout (context : ReqContext) : M string :=
  Auth.requireAuth context;;
  match ctx_token context with
  | Some token =>
      if negb (String.eqb token "") then modify (Sessions.removeSession token)
      else mret tt
  | None => mret tt
  end;;
  mret "Logout successful".

End AuthResolvers.

(** ** The server (src/server.js) *)

Module Server.

Record Request : Type := mkRequest {
  authorization : option string;
}.

(** [s.replace(pat, by)] for a non-empty string pattern: the first
    occurrence only. *)
Fixpoint replace (pat by_ s : string) : string :=
  if String.prefix pat s then
    by_ +:+ String.substring (String.length pat) (String.length s) s
  else
    match s with
    | EmptyString => EmptyString
    | String c s' => String c (replace pat by_ s')
    end.

(** One request: a query or a mutation with its arguments. *)
Inductive operation : Type :=
| QUser (id : Z)
| QListing (id : Z)
| QListings (filter : option obj)
| QOrder (id : Z)
| QOrders (filter : option obj) (pagination : option Orders.Pagination)
| MCreateUser (input : obj)
| MLogin (input : obj)
| MLogout
| MUpdateUser (id : Z) (input : obj)
| MDeleteUser (id : Z)
| MCreateListing (input : obj)
| MUpdateListing (id : Z) (input : obj)
| MDeleteListing (id : Z)
| MCreateOrder (input : obj)
| MUpdateOrder (id : Z) (input : obj)
| MDeleteOrder (id : Z)
| MCancelOrder (id : Z) (cancelReason : jsval)
| MUpdateOrderStatus (id : Z) (status : jsval).

Inductive response : Type :=
| RObject (o : obj)
| RNullable (o : option obj)
| RList (l : list obj)
| ROrdersPage (p : Orders.OrdersPage)
| RMessage (message : string)
| RAuth (token : string) (user : obj)
| RCancel (message : string) (order : option obj).

Section WithPlatform.
Context `{P : Platform}.

Definition createContext (req : Request) (env : Env) : ReqContext :=
  let token := replace "Bearer " "" <$> authorization req in
  let user :=
    match token with
    | Some t =>
        if negb (String.eqb t "") then
          match jwt_verify t Auth.JWT_SECRET (nowMs env) with
          | inr decoded => Some decoded
          | inl _ => None
          end
        else None
    | None => None
    end in
  {| ctx_user := user; ctx_token := token; ctx_JWT_SECRET := Auth.JWT_SECRET |}.

(** The resolver map: which function serves which operation. *)
Definition resolve (op : operation) (context : ReqContext) (env : Env) : M response :=
  match op with
  | QUser id => RObject <$> UserResolvers.user id
  | QListing id => RObject <$> ListingResolvers.listing id
  | QListings filter => RList <$> ListingResolvers.listings filter
  | QOrder id => RObject <$> OrderResolvers.order id context
  | QOrders filter pagination =>
      ROrdersPage <$> OrderResolvers.orders filter pagination context
  | MCreateUser input => RObject <$> UserResolvers.createUser input env
  | MLogin input =>
      (λ r, RAuth r.1 r.2) <$> AuthResolvers.login input env
  | MLogout => RMessage <$> AuthResolvers.logout context
  | MUpdateUser id input => RObject <$> UserResolvers.updateUser id input context env
  | MDeleteUser id => RMessage <$> UserResolvers.deleteUser id context
  | MCreateListing input =>
      RObject <$> ListingResolvers.createListing input context env
  | MUpdateListing id input =>
      RNullable <$> ListingResolvers.updateListing id input context env
  | MDeleteListing id => RMessage <$> ListingResolvers.deleteListing id context
  | MCreateOrder input => RObject <$> OrderResolvers.createOrder input context env
  | MUpdateOrder id input =>
      RNullable <$> OrderResolvers.updateOrder id input context env
  | MDeleteOrder id => RMessage <$> OrderResolvers.deleteOrder id context
  | MCancelOrder id cancelReason =>
      (λ r, RCancel r.1 r.2) <$> OrderResolvers.cancelOrder id cancelReason context env
  | MUpdateOrderStatus id status =>
      RNullable <$> OrderResolvers.updateOrderStatus id status context env
  end.

(** A request is served by building its context and running its
    resolver against the store. *)
Definition handle (req : Request) (op : operation) (env : Env) : M response :=
  resolve op (createContext req env) env.

End WithPlatform.
End Server.

(** ** A fixture

    A small platform for running the resolvers on concrete requests: the
    sample hash verifies the sample password, and the tokens it issues
    carry the e-mail address of their user. *)

Module Fixture.

Definition jane : obj :=
  JS.literal [("id", Some (VInt 2));
              ("email", Some (VStr "jane@example.com"));
              ("username", Some (VStr "jane_smith"))].

Definition john : obj :=
  JS.literal [("id", Some (VInt 1));
              ("email", Some (VStr "john@example.com"));
              ("username", Some (VStr "john_doe"))].

(** The e-mail address of a payload. *)
Definition email_of (payload : obj) : string :=
  match payload !! "email" with Some (VStr s) => s | _ => "" end.

(** The case mapping on the ASCII letters, where it is the one of the
    runtime. *)
Definition lower_ascii (c : ascii) : ascii :=
  let n := nat_of_ascii c in
  if ((65 <=? n) && (n <=? 90))%nat then ascii_of_nat (n + 32) else c.

Fixpoint lower (s : string) : string :=
  match s with
  | EmptyString => EmptyString
  | String c s' => String (lower_ascii c) (lower s')
  end.

Definition platform : Platform := {|
  env_JWT_SECRET := None;
  bcrypt_hash := λ password rounds salt, salt +:+ "$" +:+ password;
  bcrypt_compare := λ password hash,
    String.eqb hash Store.sampleHash && String.eqb password "password";
  jwt_sign := λ payload secret expiresIn now, "jwt." +:+ email_of payload;
  jwt_verify := λ token secret now,
    if String.eqb token "jwt.jane@example.com" then inr jane
    else if String.eqb token "jwt.john@example.com" then inr john
    else inl "invalid token";
  toLowerCase := lower;
|}.

Definition env : Env := mkEnv "2024-01-02T00:00:00.000Z" 1704153600000 "$2a$10$salt".

Definition boot : string := "2024-01-01T00:00:00.000Z".

Definition store : DataStore := Store.initial boot.

(** The initial store after the price of the first listing went from
    999.99 to 500. *)
Definition repriced : DataStore :=
  set_listings [<["price" := VFloat 500]> (Store.iphone boot); Store.guitar boot] store.

Definition login_as_jane (password : string) : obj :=
  JS.literal [("email", Some (VStr "jane@example.com"));
              ("password", Some (VStr password))].

Definition janesRequest : Server.Request :=
  Server.mkRequest (Some "Bearer jwt.jane@example.com").

Definition asJane : ReqContext :=
  mkContext (Some jane) (Some "jwt.jane@example.com") "your-secret-key".

Definition asJohn : ReqContext :=
  mkContext (Some john) (Some "jwt.john@example.com") "your-secret-key".

(** The fields of an order that its buyer supplies. *)
Definition orderUpdateFields : list string :=
  ["quantity"; "shippingAddress"; "buyerNotes"].

(** Jane cancels her order, the sample order of the initial store. *)
Definition cancelledOrder : obj :=
  Orders.cancelled (Store.sampleOrder boot) None (nowISO env).

Definition afterCancel : DataStore :=
  (Server.resolve (P := platform) (Server.MCancelOrder 1 None) asJane env store).2.

(** John withdraws his listing, the one of the sample order. *)
Definition delisted : DataStore :=
  (Server.resolve (P := platform) (Server.MDeleteListing 1) asJohn env store).2.

Definition login_as_john (password : string) : obj :=
  JS.literal [("email", Some (VStr "john@example.com"));
              ("password", Some (VStr password))].

End Fixture.

(** ** Stores that differ in the session set only *)

Definition same_but_sessions (st1 st2 : DataStore) : Prop :=
  users st1 = users st2 ∧ listings st1 = listings st2 ∧ orders st1 = orders st2 ∧
  nextUserId st1 = nextUserId st2 ∧ nextListingId st1 = nextListingId st2 ∧
  nextOrderId st1 = nextOrderId st2.

(** A computation whose result does not depend on the session set, and
    which maps stores that differ in the session set only to such
    stores. *)
Definition blind {A : Type} (m : M A) : Prop :=
  ∀ st1 st2, same_but_sessions st1 st2 →
    (m st1).1 = (m st2).1 ∧ same_but_sessions (m st1).2 (m st2).2.

(** A computation that leaves the table of orders and its counter
    alone. *)
Definition keeps {A : Type} (m : M A) : Prop :=
  ∀ st, orders (m st).2 = orders st ∧ nextOrderId (m st).2 = nextOrderId st.

(** ** The life cycle of an order *)

Module Lifecycle.

(** The chain PENDING, CONFIRMED, SHIPPED, DELIVERED. *)
Definition status_rank (status : jsval) : option nat :=
  match status with
  | Some (VStr "PENDING") => Some 0%nat
  | Some (VStr "CONFIRMED") => Some 1%nat
  | Some (VStr "SHIPPED") => Some 2%nat
  | Some (VStr "DELIVERED") => Some 3%nat
  | _ => None
  end.

Definition cancellable (status : jsval) : Prop :=
  status = Some (VStr "PENDING") ∨ status = Some (VStr "CONFIRMED") ∨
  status = Some (VStr "SHIPPED").

(** The moves the specification allows: stay, advance along the chain,
    or go from PENDING, CONFIRMED or SHIPPED to CANCELLED. *)
Definition forward (old new : jsval) : Prop :=
  new = old ∨
  (∃ a b, status_rank old = Some a ∧ status_rank new = Some b ∧ (a < b)%nat) ∨
  (cancellable old ∧ new = Some (VStr "CANCELLED")).

(** What one operation does to the table of orders. *)
Inductive order_change (op : Server.operation) (st st' : DataStore) : Prop :=
| change_none :
    orders st' = orders st →
    nextOrderId st' = nextOrderId st →
    order_change op st st'
| change_created (o : obj) :
    orders st' = orders st ++ [o] →
    o !! "id" = Some (VInt (nextOrderId st)) →
    o !! "status" = Some (VStr "PENDING") →
    nextOrderId st' = nextOrderId st + 1 →
    order_change op st st'
| change_deleted (id : Z) (i : nat) :
    op = Server.MDeleteOrder id →
    JS.findIndex (Store.has_id (Some (VInt id))) (orders st) = Some i →
    orders st' = delete i (orders st) →
    nextOrderId st' = nextOrderId st →
    order_change op st st'
| change_replaced (id : Z) (i : nat) (o o' : obj) :
    JS.findIndex (Store.has_id (Some (VInt id))) (orders st) = Some i →
    orders st !! i = Some o →
    orders st' = <[i := o']> (orders st) →
    nextOrderId st' = nextOrderId st →
    o' !! "id" = o !! "id" →
    match op with
    | Server.MUpdateOrder id' _ => id' = id ∧ o' !! "status" = o !! "status"
    | Server.MCancelOrder id' _ =>
        id' = id ∧
        o !! "status" ≠ Some (VStr "CANCELLED") ∧
        o !! "status" ≠ Some (VStr "DELIVERED") ∧
        o' !! "status" = Some (VStr "CANCELLED")
    | Server.MUpdateOrderStatus id' status =>
        id' = id ∧
        Validation.is_valid_status status = true ∧ o' !! "status" = status
    | _ => False
    end →
    order_change op st st'.

(** The orders carry distinct integer ids below the counter and a
    status of the enumeration. *)
Definition consistent (st : DataStore) : Prop :=
  (∃ ns : list Z,
     (λ o : obj, o !! "id") <$> orders st = (λ n, Some (VInt n)) <$> ns ∧
     NoDup ns ∧
     ∀ n, n ∈ ns → n < nextOrderId st) ∧
  ∀ o, o ∈ orders st → Validation.is_valid_status (o !! "status") = true.

Section Schema.

(** The GraphQL schema (schema/schema.graphql) is not among the sources,
    and with it the input type [OrderUpdateInput] of [updateOrder].  The
    names of its fields are a parameter; the GraphQL layer rejects an
    input with any other field before the resolver runs. *)
Variable OrderUpdateInput_fields : list string.

Definition well_typed (op : Server.operation) : Prop :=
  match op with
  | Server.MUpdateOrder _ input =>
      ∀ k, is_Some (input !! k) → k ∈ OrderUpdateInput_fields
  | _ => True
  end.

Context `{P : Platform}.

(** The stores the server can be in: the sample data, and what any
    well-typed operation makes of a store, whoever the caller is. *)
Inductive reachable (boot : string) : DataStore → Prop :=
| reachable_initial : reachable boot (Store.initial boot)
| reachable_step st op context env :
    reachable boot st →
    well_typed op →
    reachable boot (Server.resolve op context env st).2.

End Schema.
End Lifecycle.

(** ** The operations as a whole *)

Module Api.

(** The operations whose resolver starts with [requireAuth] or
    [requireOwnership]. *)
Definition requires_auth (op : Server.operation) : bool :=
  match op with
  | Server.QUser _ | Server.QListing _ | Server.QListings _
  | Server.MCreateUser _ | Server.MLogin _ => false
  | _ => true
  end.

Definition is_query (op : Server.operation) : bool :=
  match op with
  | Server.QUser _ | Server.QListing _ | Server.QListings _
  | Server.QOrder _ | Server.QOrders _ _ => true
  | _ => false
  end.

(** The error codes of the API. *)
Definition error_codes : list string :=
  ["NOT_FOUND"; "AUTHENTICATION_ERROR"; "UNAUTHENTICATED"; "FORBIDDEN";
   "CONFLICT"; "VALIDATION_ERROR"; "INVALID_OPERATION"; "INTERNAL_ERROR";
   "INTERNAL_SERVER_ERROR"].

(** The tables of the store an operation may write. *)
Definition writes_users (op : Server.operation) : bool :=
  match op with
  | Server.MCreateUser _ | Server.MUpdateUser _ _ | Server.MDeleteUser _ => true
  | _ => false
  end.

Definition writes_listings (op : Server.operation) : bool :=
  match op with
  | Server.MCreateListing _ | Server.MUpdateListing _ _
  | Server.MDeleteListing _ => true
  | _ => false
  end.

Definition writes_orders (op : Server.operation) : bool :=
  match op with
  | Server.MCreateOrder _ | Server.MUpdateOrder _ _ | Server.MDeleteOrder _
  | Server.MCancelOrder _ _ | Server.MUpdateOrderStatus _ _ => true
  | _ => false
  end.

Definition writes_sessions (op : Server.operation) : bool :=
  match op with
  | Server.MLogin _ | Server.MLogout => true
  | _ => false
  end.

End Api.

(** A computation that leaves one component of the store as it was. *)
Definition preserves {A B : Type} (proj : DataStore → B) (m : M A) : Prop :=
  ∀ st, proj (m st).2 = proj st.

(** A computation that only reads the store, and whose errors carry a
    code of the API. *)
Definition reads {A : Type} (m : M A) : Prop :=
  ∀ st, (m st).2 = st ∧ ∀ e, (m st).1 = Err e → exn_code e ∈ Api.error_codes.

(** A computation whose errors leave the store as it was and carry a
    code of the API. *)
Definition safe {A : Type} (m : M A) : Prop :=
  ∀ st e st', m st = (Err e, st') → st' = st ∧ exn_code e ∈ Api.error_codes.

(** A computation that does not throw. *)
Definition total {A : Type} (m : M A) : Prop :=
  ∀ st, ∃ a, (m st).1 = Ok a.

(** ** Inputs and tables *)

(** The characters that [\s] matches, by code point: the white space
    (TAB, VT, FF, SP, NBSP, ZWNBSP and the space separators of Unicode)
    and the line terminators (LF, CR, LS, PS) of ECMAScript. *)
Definition white_space : list N :=
  [9; 10; 11; 12; 13; 32; 160; 5760;
   8192; 8193; 8194; 8195; 8196; 8197; 8198; 8199; 8200; 8201; 8202;
   8232; 8233; 8239; 8287; 12288; 65279]%N.

(** A character of the class [[^\s@]] of the e-mail pattern. *)
Definition plain_char (c : N) : Prop := (c ∉ white_space) ∧ (c ≠ 64%N).

(** What the six checks of [createUser] ask of its input. *)
Definition valid_registration (input : obj) : bool :=
  negb (Validation.missing (input !! "username")) &&
  negb (Validation.missing (input !! "email")) &&
  negb (Validation.missing (input !! "password")) &&
  negb (negb (JS.truthy (input !! "username"))
        || JS.ltb (JS.length (input !! "username")) (Some (VInt 3))) &&
  Validation.emailRegex_test (input !! "email") &&
  negb (negb (JS.truthy (input !! "password"))
        || JS.ltb (JS.length (input !! "password")) (Some (VInt 6))).

(** What [getListings] asks of a listing, one condition for each field
    of the filter that is in use.  A title or a description that is no
    string has no match to offer. *)
Definition lower_has `{P : Platform} (searchTerm : string) (v : jsval) : bool :=
  match v with
  | Some (VStr s) => JS.includes searchTerm (toLowerCase s)
  | _ => false
  end.

Definition listing_matches `{P : Platform} (filter listing : obj) : bool :=
  (if JS.truthy (filter !! "search") then
     match filter !! "search" with
     | Some (VStr s) =>
         lower_has (toLowerCase s) (listing !! "title") ||
         lower_has (toLowerCase s) (listing !! "description")
     | _ => false
     end
   else true) &&
  (match filter !! "priceMin" with
   | Some _ => JS.leb (filter !! "priceMin") (listing !! "price")
   | None => true
   end) &&
  (match filter !! "priceMax" with
   | Some _ => JS.leb (listing !! "price") (filter !! "priceMax")
   | None => true
   end) &&
  (if JS.truthy (filter !! "category") then
     JS.strict_eq (listing !! "category") (filter !! "category")
   else true) &&
  (if JS.truthy (filter !! "condition") then
     JS.strict_eq (listing !! "condition") (filter !! "condition")
   else true).

(** A table whose rows carry distinct integer ids. *)
Definition distinct_ids (rows : list obj) : Prop :=
  ∃ ns : list Z,
    (λ o : obj, o !! "id") <$> rows = (λ n, Some (VInt n)) <$> ns ∧ NoDup ns.

(** A table whose rows carry distinct integer ids below its counter. *)
Definition table_ok (rows : list obj) (next : Z) : Prop :=
  ∃ ns : list Z,
    (λ o : obj, o !! "id") <$> rows = (λ n, Some (VInt n)) <$> ns ∧
    NoDup ns ∧
    ∀ n, n ∈ ns → n < next.

Definition ids_consistent (st : DataStore) : Prop :=
  table_ok (users st) (nextUserId st) ∧ table_ok (listings st) (nextListingId st).

(** The input types of [updateUser] and [updateListing] have no field
    [id]; the schema is not among the sources, and this is what is
    asked of it. *)
Definition keeps_ids (op : Server.operation) : Prop :=
  match op with
  | Server.MUpdateUser _ input | Server.MUpdateListing _ input => input !! "id" = None
  | _ => True
  end.

(** ** More requests for the fixture *)

(** The context of a request without credentials. *)
Definition anonymous : ReqContext := mkContext None None "your-secret-key".

(** Jane orders three of the first listing. *)
Definition janesOrder : obj :=
  JS.literal [("listingId", Some (VInt 1)); ("quantity", Some (VInt 3));
              ("shippingAddress", Some (VObj ∅))].

(** John lowers the price of his listing, and changes his user name. *)
Definition cheaper : obj := JS.literal [("price", Some (VInt 900))].

Definition renamed : obj := JS.literal [("username", Some (VStr "johnny"))].

(** John sets the title of his listing to [null]; a search for a phone
    follows. *)
Definition untitled : obj := JS.literal [("title", Some VNull)].

Definition withoutTitle : DataStore :=
  (Server.resolve (P := Fixture.platform) (Server.MUpdateListing 1 untitled)
     Fixture.asJohn Fixture.env Fixture.store).2.

Definition searchPhone : obj := JS.literal [("search", Some (VStr "phone"))].

(** John sets his password to [null]. *)
Definition passwordNull : obj := JS.literal [("password", Some VNull)].

Definition withoutPassword : DataStore :=
  (Server.resolve (P := Fixture.platform) (Server.MUpdateUser 1 passwordNull)
     Fixture.asJohn Fixture.env Fixture.store).2.

(** A registration with a password of three letters, each of two bytes
    in UTF-8. *)
Definition shortPassword : obj :=
  JS.literal [("username", Some (VStr "alice"));
              ("email", Some (VStr "alice@example.com"));
              ("password", Some (VStr "ééé"))].

(** An address with a no-break space (U+00A0) in its local part. *)
Definition spacedAddress : string :=
  "a" +:+ String (ascii_of_nat 194) (String (ascii_of_nat 160) "b@c.d").

(** Jane offers a bicycle with two pictures. *)
Definition bicycle : obj :=
  JS.literal [("title", Some (VStr "Bicycle"));
              ("description", Some (VStr "City bike"));
              ("price", Some (VInt 120));
              ("images", Some (VStrs ["front.jpg"; "side.jpg"]))].

(** A registration and the login that follows it, on a platform whose
    password check accepts what its hash produced. *)
Module Registration.

Definition platform : Platform := {|
  env_JWT_SECRET := None;
  bcrypt_hash := λ password rounds salt, password +:+ "$" +:+ salt;
  bcrypt_compare := λ password hash, String.prefix (password +:+ "$") hash;
  jwt_sign := λ payload secret expiresIn now, "jwt." +:+ Fixture.email_of payload;
  jwt_verify := λ token secret now, inl "invalid token";
  toLowerCase := Fixture.lower;
|}.

Definition input : obj :=
  JS.literal [("username", Some (VStr "alice"));
              ("email", Some (VStr "alice@example.com"));
              ("password", Some (VStr "wonderland"))].

Definition credentials : obj :=
  JS.literal [("email", Some (VStr "alice@example.com"));
              ("password", Some (VStr "wonderland"))].

Definition registered : DataStore :=
  (UserResolvers.createUser (P := platform) input Fixture.env Fixture.store).2.

End Registration.

(** * Properties *)

(** ** Lists and the resolver monad *)

Lemma find_hit {A : Type} (p : A → bool) (x : A) (l : list A) :
  p x = true → find p (x :: l) = Some x.
Proof. intros H. simpl. by rewrite H. Qed.

Lemma find_skip {A : Type} (p : A → bool) (x : A) (l : list A) :
  p x = false → find p (x :: l) = find p l.
Proof. intros H. simpl. by rewrite H. Qed.

(** ** The auth guard *)

Section Guard.
Variables (context : ReqContext) (u : obj) (st : DataStore).
Hypothesis Huser : ctx_user context = Some u.

Lemma requireAuth_ok : Auth.requireAuth context st = (Ok u, st).
Proof using Huser. unfold Auth.requireAuth. by rewrite Huser. Qed.

Lemma requireOwnership_ok (owner : jsval) :
  JS.strict_eq (u !! "id") owner = true →
  Auth.requireOwnership context owner st = (Ok u, st).
Proof using Huser.
  intros Ho. unfold Auth.requireOwnership, mbind, M_bind.
  by rewrite requireAuth_ok, Ho.
Qed.

Lemma requireOwnership_forbidden (owner : jsval) :
  JS.strict_eq (u !! "id") owner = false →
  Auth.requireOwnership context owner st = (Err Auth.access_denied, st).
Proof using Huser.
  intros Ho. unfold Auth.requireOwnership, mbind, M_bind.
  by rewrite requireAuth_ok, Ho.
Qed.

End Guard.

Lemma requireAuth_anonymous (context : ReqContext) (st : DataStore) :
  ctx_user context = None →
  Auth.requireAuth context st = (Err Auth.authentication_required, st).
Proof. intros H. unfold Auth.requireAuth. by rewrite H. Qed.

(** ** Existence and ownership checks of the listing and order mutations *)

Section ExistenceThenOwnership.
Variables (context : ReqContext) (u : obj) (id : Z) (env : Env) (st : DataStore).
Hypothesis Huser : ctx_user context = Some u.

(** Unfolds a resolver up to its ownership check. *)
Ltac enter Hfound :=
  cbv beta delta [ListingResolvers.updateListing ListingResolvers.deleteListing
                  OrderResolvers.updateOrder OrderResolvers.deleteOrder
                  OrderResolvers.cancelOrder OrderResolvers.updateOrderStatus
                  mbind M_bind gets];
  rewrite (requireAuth_ok _ _ _ Huser); cbv beta iota; rewrite Hfound.

Section AbsentListing.
Hypothesis Habsent : Store.getListingById (Some (VInt id)) st = None.

Lemma updateListing_not_found input :
  ListingResolvers.updateListing id input context env st
  = (Err (not_found "Listing" (Some (VInt id))), st).
Proof using Huser Habsent. by enter Habsent. Qed.

Lemma deleteListing_not_found :
  ListingResolvers.deleteListing id context st
  = (Err (not_found "Listing" (Some (VInt id))), st).
Proof using Huser Habsent. by enter Habsent. Qed.

End AbsentListing.

Section AbsentOrder.
Hypothesis Habsent : Orders.getOrderById (Some (VInt id)) st = None.

Lemma updateOrder_not_found input :
  OrderResolvers.updateOrder id input context env st
  = (Err (not_found "Order" (Some (VInt id))), st).
Proof using Huser Habsent. by enter Habsent. Qed.

Lemma deleteOrder_not_found :
  OrderResolvers.deleteOrder id context st
  = (Err (not_found "Order" (Some (VInt id))), st).
Proof using Huser Habsent. by enter Habsent. Qed.

Lemma cancelOrder_not_found cancelReason :
  OrderResolvers.cancelOrder id cancelReason context env st
  = (Err (not_found "Order" (Some (VInt id))), st).
Proof using Huser Habsent. by enter Habsent. Qed.

End AbsentOrder.

Section ForeignListing.
Variable l : obj.
Hypothesis Hfound : Store.getListingById (Some (VInt id)) st = Some l.
Hypothesis Hforeign : JS.strict_eq (u !! "id") (l !! "userId") = false.

Lemma updateListing_forbidden input :
  ListingResolvers.updateListing id input context env st
  = (Err Auth.access_denied, st).
Proof using Huser Hfound Hforeign.
  enter Hfound. by rewrite (requireOwnership_forbidden _ _ _ Huser _ Hforeign).
Qed.

Lemma deleteListing_forbidden :
  ListingResolvers.deleteListing id context st = (Err Auth.access_denied, st).
Proof using Huser Hfound Hforeign.
  enter Hfound. by rewrite (requireOwnership_forbidden _ _ _ Huser _ Hforeign).
Qed.

End ForeignListing.

Section ForeignOrder.
Variable o : obj.
Hypothesis Hfound : Orders.getOrderById (Some (VInt id)) st = Some o.
Hypothesis Hforeign : JS.strict_eq (u !! "id") (o !! "userId") = false.

Lemma updateOrder_forbidden input :
  OrderResolvers.updateOrder id input context env st = (Err Auth.access_denied, st).
Proof using Huser Hfound Hforeign.
  enter Hfound. by rewrite (requireOwnership_forbidden _ _ _ Huser _ Hforeign).
Qed.

Lemma deleteOrder_forbidden :
  OrderResolvers.deleteOrder id context st = (Err Auth.access_denied, st).
Proof using Huser Hfound Hforeign.
  enter Hfound. by rewrite (requireOwnership_forbidden _ _ _ Huser _ Hforeign).
Qed.

Lemma cancelOrder_forbidden cancelReason :
  OrderResolvers.cancelOrder id cancelReason context env st
  = (Err Auth.access_denied, st).
Proof using Huser Hfound Hforeign.
  enter Hfound. by rewrite (requireOwnership_forbidden _ _ _ Huser _ Hforeign).
Qed.

End ForeignOrder.

(** C5.  [updateListing], [deleteListing], [updateOrder], [deleteOrder]
    and [cancelOrder] look the resource up before they check its owner:
    for an authenticated caller, an id without a resource gives
    NOT_FOUND, and a resource of another user gives FORBIDDEN; in both
    cases the store is left as it was. *)
Theorem existence_checked_before_ownership :
  (Store.getListingById (Some (VInt id)) st = None →
   (∀ input, ListingResolvers.updateListing id input context env st
             = (Err (not_found "Listing" (Some (VInt id))), st)) ∧
   ListingResolvers.deleteListing id context st
   = (Err (not_found "Listing" (Some (VInt id))), st)) ∧
  (Orders.getOrderById (Some (VInt id)) st = None →
   (∀ input, OrderResolvers.updateOrder id input context env st
             = (Err (not_found "Order" (Some (VInt id))), st)) ∧
   OrderResolvers.deleteOrder id context st
   = (Err (not_found "Order" (Some (VInt id))), st) ∧
   (∀ cancelReason, OrderResolvers.cancelOrder id cancelReason context env st
                    = (Err (not_found "Order" (Some (VInt id))), st))) ∧
  (∀ l, Store.getListingById (Some (VInt id)) st = Some l →
        JS.strict_eq (u !! "id") (l !! "userId") = false →
   (∀ input, ListingResolvers.updateListing id input context env st
             = (Err Auth.access_denied, st)) ∧
   ListingResolvers.deleteListing id context st = (Err Auth.access_denied, st)) ∧
  (∀ o, Orders.getOrderById (Some (VInt id)) st = Some o →
        JS.strict_eq (u !! "id") (o !! "userId") = false →
   (∀ input, OrderResolvers.updateOrder id input context env st
             = (Err Auth.access_denied, st)) ∧
   OrderResolvers.deleteOrder id context st = (Err Auth.access_denied, st) ∧
   (∀ cancelReason, OrderResolvers.cancelOrder id cancelReason context env st
                    = (Err Auth.access_denied, st))).
Proof using Huser.
  repeat split; intros.
  - by apply updateListing_not_found.
  - by apply deleteListing_not_found.
  - by apply updateOrder_not_found.
  - by apply deleteOrder_not_found.
  - by apply cancelOrder_not_found.
  - by eapply updateListing_forbidden.
  - by eapply deleteListing_forbidden.
  - by eapply updateOrder_forbidden.
  - by eapply deleteOrder_forbidden.
  - by eapply cancelOrder_forbidden.
Qed.

End ExistenceThenOwnership.

Lemma fixture_order_1 :
  Orders.getOrderById (Some (VInt 1)) Fixture.store
  = Some (Store.sampleOrder Fixture.boot).
Proof. apply find_hit. vm_compute. reflexivity. Qed.

Lemma existence_checked_before_ownership_witness :
  OrderResolvers.deleteOrder 99 Fixture.asJohn Fixture.store
  = (Err (not_found "Order" (Some (VInt 99))), Fixture.store) ∧
  OrderResolvers.deleteOrder 1 Fixture.asJohn Fixture.store
  = (Err Auth.access_denied, Fixture.store).
Proof.
  assert (Habsent : Orders.getOrderById (Some (VInt 99)) Fixture.store = None)
    by (vm_compute; reflexivity).
  destruct (existence_checked_before_ownership
              Fixture.asJohn Fixture.john 99 Fixture.env Fixture.store eq_refl)
    as (_ & Hn & _).
  destruct (existence_checked_before_ownership
              Fixture.asJohn Fixture.john 1 Fixture.env Fixture.store eq_refl)
    as (_ & _ & _ & Hf).
  destruct (Hn Habsent) as (_ & Hdel & _).
  destruct (Hf _ fixture_order_1) as (_ & Hdel' & _); [vm_compute; reflexivity|].
  exact (conj Hdel Hdel').
Defined.

(** ** Ownership and existence checks of the user mutations *)

(** Splits a run of a resolver into its branches. *)
Ltac branches :=
  simplify_eq/=; try done; repeat (case_match; simplify_eq/=; try done).

Section OwnershipThenExistence.
Context `{P : Platform}.
Variables (context : ReqContext) (id : Z) (env : Env) (st : DataStore).

Lemma updateUser_forbidden u input :
  ctx_user context = Some u →
  JS.strict_eq (u !! "id") (Some (VInt id)) = false →
  UserResolvers.updateUser id input context env st = (Err Auth.access_denied, st).
Proof.
  intros Hu Hid. unfold UserResolvers.updateUser, mbind, M_bind.
  by rewrite (requireOwnership_forbidden _ _ _ Hu _ Hid).
Qed.

Lemma deleteUser_forbidden u :
  ctx_user context = Some u →
  JS.strict_eq (u !! "id") (Some (VInt id)) = false →
  UserResolvers.deleteUser id context st = (Err Auth.access_denied, st).
Proof.
  intros Hu Hid. unfold UserResolvers.deleteUser, mbind, M_bind.
  by rewrite (requireOwnership_forbidden _ _ _ Hu _ Hid).
Qed.

Lemma requireOwnership_inv owner r st' :
  Auth.requireOwnership context owner st = (r, st') →
  st' = st ∧
  match r with
  | Ok u => ctx_user context = Some u ∧ JS.strict_eq (u !! "id") owner = true
  | Err e => e = Auth.authentication_required ∨ e = Auth.access_denied
  end.
Proof.
  unfold Auth.requireOwnership, Auth.requireAuth, mbind, M_bind, throw, mret, M_ret.
  destruct (ctx_user context) as [u|]; simpl.
  - destruct (JS.strict_eq (u !! "id") owner) eqn:E; simpl; intros [= <- <-]; auto.
  - intros [= <- <-]; auto.
Qed.

Lemma updateUser_not_found_inv input e st' :
  UserResolvers.updateUser id input context env st = (Err e, st') →
  exn_code e = "NOT_FOUND" →
  ∃ u, ctx_user context = Some u ∧
       JS.strict_eq (u !! "id") (Some (VInt id)) = true ∧
       Store.getUserById (Some (VInt id)) st = None.
Proof.
  unfold UserResolvers.updateUser.
  unfold mbind at 1. unfold M_bind at 1.
  destruct (Auth.requireOwnership context (Some (VInt id)) st) as [r st1] eqn:Ho.
  apply requireOwnership_inv in Ho as [-> Hr].
  destruct r as [u|e0].
  - destruct Hr as [Hu Hid].
    unfold mbind at 1. unfold M_bind at 1. unfold gets at 1.
    destruct (Store.getUserById (Some (VInt id)) st) as [existing|] eqn:Hg.
    + intros Hrun Hcode. exfalso. revert Hrun Hcode.
      unfold Validation.validateUsername, Validation.validateEmail,
        Validation.validatePassword, UserResolvers.hashPassword,
        UserResolvers.email_conflict, Validation.validation_error,
        mbind, M_bind, mret, M_ret, throw, gets, call, Store.updateUser.
      intros Hrun Hcode. branches.
    + intros [= <- <-] _. eauto.
  - intros [= <- <-] Hcode. destruct Hr as [-> | ->]; discriminate Hcode.
Qed.

Lemma deleteUser_not_found_inv e st' :
  UserResolvers.deleteUser id context st = (Err e, st') →
  exn_code e = "NOT_FOUND" →
  ∃ u, ctx_user context = Some u ∧
       JS.strict_eq (u !! "id") (Some (VInt id)) = true ∧
       Store.getUserById (Some (VInt id)) st = None.
Proof.
  unfold UserResolvers.deleteUser.
  unfold mbind at 1. unfold M_bind at 1.
  destruct (Auth.requireOwnership context (Some (VInt id)) st) as [r st1] eqn:Ho.
  apply requireOwnership_inv in Ho as [-> Hr].
  destruct r as [u|e0].
  - destruct Hr as [Hu Hid].
    unfold mbind at 1. unfold M_bind at 1. unfold gets at 1.
    destruct (Store.getUserById (Some (VInt id)) st) as [existing|] eqn:Hg.
    + unfold mbind, M_bind, mret, M_ret, throw, call, Store.deleteUser, internal_error.
      intros Hrun Hcode. exfalso. branches.
    + intros [= <- <-] _. eauto.
  - intros [= <- <-] Hcode. destruct Hr as [-> | ->]; discriminate Hcode.
Qed.

(** C10.  [updateUser] and [deleteUser] check ownership before
    existence: a caller whose authenticated id differs from the target id
    gets FORBIDDEN whether or not that user exists, and NOT_FOUND is only
    returned to a caller whose own id is the target and has no user
    record. *)
Theorem ownership_checked_before_existence :
  (∀ u, ctx_user context = Some u →
        JS.strict_eq (u !! "id") (Some (VInt id)) = false →
        (∀ input, UserResolvers.updateUser id input context env st
                  = (Err Auth.access_denied, st)) ∧
        UserResolvers.deleteUser id context st = (Err Auth.access_denied, st)) ∧
  (∀ input e st',
     UserResolvers.updateUser id input context env st = (Err e, st') →
     exn_code e = "NOT_FOUND" →
     ∃ u, ctx_user context = Some u ∧
          JS.strict_eq (u !! "id") (Some (VInt id)) = true ∧
          Store.getUserById (Some (VInt id)) st = None) ∧
  (∀ e st',
     UserResolvers.deleteUser id context st = (Err e, st') →
     exn_code e = "NOT_FOUND" →
     ∃ u, ctx_user context = Some u ∧
          JS.strict_eq (u !! "id") (Some (VInt id)) = true ∧
          Store.getUserById (Some (VInt id)) st = None).
Proof.
  split; [|split].
  - intros u Hu Hid. split; [intros input|].
    + by apply updateUser_forbidden with u.
    + by apply deleteUser_forbidden with u.
  - apply updateUser_not_found_inv.
  - apply deleteUser_not_found_inv.
Qed.

End OwnershipThenExistence.

(** ** [find], [findIndex] and in-place replacement *)

Section FindIndex.
Context {A : Type} (p : A → bool).

Lemma findIndex_None (l : list A) : JS.findIndex p l = None ↔ find p l = None.
Proof.
  induction l as [|x l IH]; simpl; [done|].
  destruct (p x); [done|].
  rewrite <- IH. by destruct (JS.findIndex p l).
Qed.

Lemma findIndex_Some (l : list A) (i : nat) :
  JS.findIndex p l = Some i →
  ∃ x, l !! i = Some x ∧ p x = true ∧ find p l = Some x.
Proof.
  revert i. induction l as [|x l IH]; simpl; intros i; [done|].
  destruct (p x) eqn:Hx.
  - intros [= <-]. eauto.
  - destruct (JS.findIndex p l) as [j|]; simpl; [|done].
    intros [= <-]. destruct (IH j eq_refl) as (y & ? & ? & ?). eauto.
Qed.

Lemma find_Some_findIndex (l : list A) (x : A) :
  find p l = Some x → ∃ i, JS.findIndex p l = Some i ∧ l !! i = Some x.
Proof.
  induction l as [|y l IH]; simpl; [done|].
  destruct (p y) eqn:Hy.
  - intros [= ->]. by exists 0%nat.
  - intros H. destruct (IH H) as (i & -> & ?). by exists (S i).
Qed.

(** Replacing the first match by another match keeps it the first. *)
Lemma find_insert_first (l : list A) (i : nat) (x' : A) :
  JS.findIndex p l = Some i → p x' = true → find p (<[i := x']> l) = Some x'.
Proof.
  revert i. induction l as [|x l IH]; simpl; intros i; [done|].
  destruct (p x) eqn:Hx.
  - intros [= <-] H'. simpl. by rewrite H'.
  - destruct (JS.findIndex p l) as [j|]; simpl; [|done].
    intros [= <-] H'. simpl. rewrite Hx. by apply IH.
Qed.

End FindIndex.

(** ** Strict equality with a string or an integer literal *)

Lemma strict_eq_str (v : jsval) (s : string) :
  JS.strict_eq v (Some (VStr s)) = true ↔ v = Some (VStr s).
Proof.
  destruct v as [[]|]; simpl; split; try done.
  - by intros ->%String.eqb_eq.
  - intros [= ->]. apply String.eqb_refl.
Qed.

Lemma strict_eq_str_false (v : jsval) (s : string) :
  JS.strict_eq v (Some (VStr s)) = false ↔ v ≠ Some (VStr s).
Proof.
  rewrite <- strict_eq_str. by destruct (JS.strict_eq v (Some (VStr s))).
Qed.

(** ** Cancelling an order *)

Lemma cancelled_status o reason now :
  Orders.cancelled o reason now !! "status" = Some (VStr "CANCELLED").
Proof.
  unfold Orders.cancelled, JS.assign, JS.or.
  destruct (JS.truthy reason); [destruct reason|]; by simplify_map_eq.
Qed.

Lemma cancelled_cancelledAt o reason now :
  Orders.cancelled o reason now !! "cancelledAt" = Some (VStr now).
Proof.
  unfold Orders.cancelled, JS.assign, JS.or.
  destruct (JS.truthy reason); [destruct reason|]; by simplify_map_eq.
Qed.

Lemma cancelled_cancelReason o reason now :
  Orders.cancelled o reason now !! "cancelReason"
  = if JS.truthy reason then reason else Some (VStr "No reason provided").
Proof.
  unfold Orders.cancelled, JS.assign, JS.or.
  destruct (JS.truthy reason) eqn:E; [destruct reason|]; by simplify_map_eq.
Qed.

Lemma cancelled_other o reason now k :
  k ∉ ["status"; "cancelledAt"; "cancelReason"; "updatedAt"] →
  Orders.cancelled o reason now !! k = o !! k.
Proof.
  intros Hk. unfold Orders.cancelled, JS.assign, JS.or.
  assert (k ≠ "status" ∧ k ≠ "cancelledAt" ∧ k ≠ "cancelReason" ∧ k ≠ "updatedAt")
    as (? & ? & ? & ?) by (repeat split; intros ->; apply Hk; set_solver).
  destruct (JS.truthy reason); [destruct reason|]; by simplify_map_eq.
Qed.

Section CancelOrder.
Variables (context : ReqContext) (u o : obj) (id : Z) (env : Env) (st : DataStore).
Hypothesis Huser : ctx_user context = Some u.
Hypothesis Hfound : Orders.getOrderById (Some (VInt id)) st = Some o.
Hypothesis Howner : JS.strict_eq (u !! "id") (o !! "userId") = true.

Ltac enter :=
  cbv beta delta [OrderResolvers.cancelOrder OrderResolvers.updateOrder
                  OrderResolvers.updateOrderStatus mbind M_bind gets];
  rewrite (requireAuth_ok _ _ _ Huser); cbv beta iota; rewrite Hfound;
  rewrite (requireOwnership_ok _ _ _ Huser _ Howner); cbv beta iota.

Lemma cancelOrder_already_cancelled reason :
  o !! "status" = Some (VStr "CANCELLED") →
  OrderResolvers.cancelOrder id reason context env st
  = (Err (OrderResolvers.invalid_operation "Order is already cancelled"
            "This order has already been cancelled"), st).
Proof using Huser Hfound Howner.
  intros Hs. enter. by rewrite Hs.
Qed.

Lemma cancelOrder_delivered reason :
  o !! "status" = Some (VStr "DELIVERED") →
  OrderResolvers.cancelOrder id reason context env st
  = (Err (OrderResolvers.invalid_operation "Cannot cancel delivered order"
            "Delivered orders cannot be cancelled"), st).
Proof using Huser Hfound Howner.
  intros Hs. enter. by rewrite Hs.
Qed.

Lemma cancelOrder_success reason :
  o !! "status" ≠ Some (VStr "CANCELLED") →
  o !! "status" ≠ Some (VStr "DELIVERED") →
  ∃ i, JS.findIndex (Store.has_id (Some (VInt id))) (orders st) = Some i ∧
       orders st !! i = Some o ∧
       OrderResolvers.cancelOrder id reason context env st
       = (Ok ("Order cancelled successfully",
              Some (Orders.cancelled o reason (nowISO env))),
          set_orders (<[i := Orders.cancelled o reason (nowISO env)]> (orders st)) st).
Proof using Huser Hfound Howner.
  intros Hc Hd.
  destruct (find_Some_findIndex _ _ _ Hfound) as (i & Hi & Hio).
  exists i. split; [done|]. split; [done|].
  enter.
  apply strict_eq_str_false in Hc, Hd. rewrite Hc, Hd.
  unfold call, Orders.cancelOrder, mret, M_ret. rewrite Hi, Hio. done.
Qed.

(** C2, as amended.  For an existing order and its authenticated owner,
    [cancelOrder] raises INVALID_OPERATION and leaves the store as it was
    when the status is CANCELLED or DELIVERED (so a second cancellation is
    rejected); otherwise the stored order gets the status CANCELLED, the
    current time as [cancelledAt], and as [cancelReason] the supplied
    reason when that is a non-empty string, the default text when the
    reason is missing, [null] or the empty string. *)
Theorem cancelOrder_contract reason :
  (o !! "status" = Some (VStr "CANCELLED") ∨ o !! "status" = Some (VStr "DELIVERED") →
   ∃ e, OrderResolvers.cancelOrder id reason context env st = (Err e, st) ∧
        exn_code e = "INVALID_OPERATION") ∧
  (o !! "status" ≠ Some (VStr "CANCELLED") →
   o !! "status" ≠ Some (VStr "DELIVERED") →
   ∃ o' st',
     OrderResolvers.cancelOrder id reason context env st
     = (Ok ("Order cancelled successfully", Some o'), st') ∧
     Orders.getOrderById (Some (VInt id)) st' = Some o' ∧
     o' !! "status" = Some (VStr "CANCELLED") ∧
     o' !! "cancelledAt" = Some (VStr (nowISO env)) ∧
     o' !! "cancelReason"
     = if JS.truthy reason then reason else Some (VStr "No reason provided")).
Proof using Huser Hfound Howner.
  split.
  - intros [Hs|Hs]; eexists; split.
    + by apply cancelOrder_already_cancelled.
    + done.
    + by apply cancelOrder_delivered.
    + done.
  - intros Hc Hd.
    destruct (cancelOrder_success reason Hc Hd) as (i & Hi & Hio & Hrun).
    eexists _, _. split; [exact Hrun|].
    split; [|split; [|split]].
    + unfold Orders.getOrderById; simpl. apply find_insert_first; [done|].
      unfold Store.has_id. rewrite cancelled_other by (by apply (bool_decide_unpack _)).
      destruct (findIndex_Some _ _ _ Hi) as (x & Hx & Hp & _).
      rewrite Hio in Hx. by injection Hx as <-.
    + apply cancelled_status.
    + apply cancelled_cancelledAt.
    + apply cancelled_cancelReason.
Qed.

End CancelOrder.

Lemma fixture_order_1_pending :
  Store.sampleOrder Fixture.boot !! "status" = Some (VStr "PENDING").
Proof. vm_compute. reflexivity. Qed.

Lemma fixture_jane_owns_order_1 :
  JS.strict_eq (Fixture.jane !! "id")
               (Store.sampleOrder Fixture.boot !! "userId") = true.
Proof. vm_compute. reflexivity. Qed.

Lemma cancelOrder_contract_witness :
  ∃ o' st',
    OrderResolvers.cancelOrder 1 (Some (VStr "Changed my mind"))
      Fixture.asJane Fixture.env Fixture.store
    = (Ok ("Order cancelled successfully", Some o'), st') ∧
    Orders.getOrderById (Some (VInt 1)) st' = Some o' ∧
    o' !! "status" = Some (VStr "CANCELLED") ∧
    o' !! "cancelledAt" = Some (VStr (nowISO Fixture.env)) ∧
    o' !! "cancelReason" = Some (VStr "Changed my mind").
Proof.
  apply (cancelOrder_contract Fixture.asJane Fixture.jane _ 1 Fixture.env
           Fixture.store eq_refl fixture_order_1 fixture_jane_owns_order_1
           (Some (VStr "Changed my mind")));
    rewrite fixture_order_1_pending; discriminate.
Defined.

(** Jane cancels her order and gives the empty string as the reason:
    the order is stored with the default text. *)
Lemma cancelOrder_empty_reason_run :
  ∃ o' st',
    OrderResolvers.cancelOrder 1 (Some (VStr "")) Fixture.asJane Fixture.env
      Fixture.store
    = (Ok ("Order cancelled successfully", Some o'), st') ∧
    o' !! "cancelReason" = Some (VStr "No reason provided").
Proof.
  destruct (cancelOrder_success Fixture.asJane Fixture.jane _ 1 Fixture.env
              Fixture.store eq_refl fixture_order_1 fixture_jane_owns_order_1
              (Some (VStr ""))) as (i & _ & _ & Hrun);
    [rewrite fixture_order_1_pending; discriminate..|].
  eexists _, _. split; [exact Hrun|]. by rewrite cancelled_cancelReason.
Qed.

(** C2 as the specification states it fails for the empty string: that
    reason is supplied, and the order is stored with the default text. *)
Lemma cancelOrder_drops_empty_reason :
  ¬ (∀ (context : ReqContext) (u o : obj) (id : Z) (env : Env) (st : DataStore)
       (r : string),
       ctx_user context = Some u →
       Orders.getOrderById (Some (VInt id)) st = Some o →
       JS.strict_eq (u !! "id") (o !! "userId") = true →
       o !! "status" ≠ Some (VStr "CANCELLED") →
       o !! "status" ≠ Some (VStr "DELIVERED") →
       ∃ o' st',
         OrderResolvers.cancelOrder id (Some (VStr r)) context env st
         = (Ok ("Order cancelled successfully", Some o'), st') ∧
         o' !! "cancelReason" = Some (VStr r)).
Proof.
  intros claim.
  destruct (claim Fixture.asJane Fixture.jane _ 1 Fixture.env Fixture.store ""
              eq_refl fixture_order_1 fixture_jane_owns_order_1)
    as (o' & st' & Hrun & Hreason);
    [rewrite fixture_order_1_pending; discriminate..|].
  destruct cancelOrder_empty_reason_run as (o'' & st'' & Hrun' & Hreason').
  rewrite Hrun' in Hrun. injection Hrun as <- _. congruence.
Qed.

(** ** Objects: reading a field after assignments *)

Lemma lookup_assign_eq (k : string) (v : jsval) (o : obj) : JS.assign k v o !! k = v.
Proof. destruct v; simpl; [apply lookup_insert_eq | apply lookup_delete_eq]. Qed.

Lemma lookup_assign_ne (k k' : string) (v : jsval) (o : obj) :
  k ≠ k' → JS.assign k v o !! k' = o !! k'.
Proof. intros. destruct v; simpl; [by apply lookup_insert_ne | by apply lookup_delete_ne]. Qed.

Lemma lookup_spread_ext (base ext : obj) (k : string) (v : value) :
  ext !! k = Some v → JS.spread base ext !! k = Some v.
Proof. intros H. unfold JS.spread. by apply lookup_union_Some_l. Qed.

Lemma lookup_spread_base (base ext : obj) (k : string) :
  ext !! k = None → JS.spread base ext !! k = base !! k.
Proof. intros H. unfold JS.spread. by apply lookup_union_r. Qed.

(** Reads a field of an object built by inserts and assignments of
    fields with literal names. *)
Ltac field :=
  repeat first
    [ rewrite lookup_insert_eq
    | rewrite lookup_assign_eq
    | rewrite lookup_insert_ne by discriminate
    | rewrite lookup_assign_ne by discriminate
    | rewrite lookup_delete_ne by discriminate
    | rewrite lookup_empty ].

Lemma merged_field (row updates : obj) (now k : string) (v : value) :
  k ≠ "updatedAt" → updates !! k = Some v →
  Store.merged row updates now !! k = Some v.
Proof.
  intros Hk Hv. unfold Store.merged.
  rewrite lookup_insert_ne by done. by apply lookup_spread_ext.
Qed.

Lemma merged_kept (row updates : obj) (now k : string) :
  k ≠ "updatedAt" → updates !! k = None →
  Store.merged row updates now !! k = row !! k.
Proof.
  intros Hk Hv. unfold Store.merged.
  rewrite lookup_insert_ne by done. by apply lookup_spread_base.
Qed.

(** ** Updating the quantity of an order *)

Section UpdateOrder.
Variables (context : ReqContext) (u o : obj) (id : Z) (env : Env) (st : DataStore).
Hypothesis Huser : ctx_user context = Some u.
Hypothesis Hfound : Orders.getOrderById (Some (VInt id)) st = Some o.
Hypothesis Howner : JS.strict_eq (u !! "id") (o !! "userId") = true.

Ltac enter :=
  cbv beta delta [OrderResolvers.updateOrder mbind M_bind gets];
  rewrite (requireAuth_ok _ _ _ Huser); cbv beta iota; rewrite Hfound;
  rewrite (requireOwnership_ok _ _ _ Huser _ Howner); cbv beta iota.

Variables (input : obj) (q : value).
Hypothesis Hquantity : input !! "quantity" = Some q.
Hypothesis Hinteger : JS.isInteger (Some q) = true.
Hypothesis Hpositive : JS.leb (Some q) (Some (VInt 0)) = false.

(** C3, as amended.  When the owner updates an order with a valid
    quantity, the update succeeds and the stored order has the new
    quantity.  If the listing of the order is in the store at that
    moment, [totalPrice] is the price the listing has there multiplied
    by the new quantity: for a price [P] and a quantity [Q], the
    binary64 product of [P] and of [Q] converted to binary64.  If the
    listing is no longer in the store, nothing is recomputed: the total
    is the one of the input when it carries one, the old total of the
    order otherwise. *)
Theorem updateOrder_recomputes_totalPrice :
  ∃ i o',
    JS.findIndex (Store.has_id (Some (VInt id))) (orders st) = Some i ∧
    OrderResolvers.updateOrder id input context env st
    = (Ok (Some o'), set_orders (<[i := o']> (orders st)) st) ∧
    o' !! "quantity" = Some q ∧
    match Store.getListingById (o !! "listingId") st with
    | Some l =>
        o' !! "totalPrice" = Some (JS.mul (l !! "price") (Some q)) ∧
        ∀ P Q, l !! "price" = Some (VFloat P) → q = VInt Q →
          o' !! "totalPrice"
          = Some (VFloat (PrimFloat.mul P
                            (SF2Prim (binary_normalize prec emax Q 0 false))))
    | None =>
        o' !! "totalPrice"
        = match input !! "totalPrice" with
          | Some total => Some total
          | None => o !! "totalPrice"
          end
    end.
Proof using Huser Hfound Howner Hquantity Hinteger Hpositive.
  destruct (find_Some_findIndex _ _ _ Hfound) as (i & Hi & Hio).
  assert (Hvalid : Validation.validateQuantity (Some q) st = (Ok tt, st)).
  { unfold Validation.validateQuantity. by rewrite Hinteger, Hpositive. }
  destruct (Store.getListingById (o !! "listingId") st) as [l|] eqn:Hlisting.
  - exists i. eexists. split; [done|].
    enter. rewrite Hquantity, Hvalid. cbv beta iota. rewrite Hlisting.
    unfold call, mret, M_ret, Orders.updateOrder, Store.merge_at.
    rewrite Hi, Hio. simpl. split; [reflexivity|]. split; [|split].
    + apply merged_field; [done|]. by rewrite lookup_insert_ne.
    + apply merged_field; [done|]. by rewrite lookup_insert_eq.
    + intros P Q HP ->. rewrite HP.
      apply merged_field; [done|]. by rewrite lookup_insert_eq.
  - exists i. eexists. split; [done|].
    enter. rewrite Hquantity, Hvalid. cbv beta iota. rewrite Hlisting.
    unfold call, mret, M_ret, Orders.updateOrder, Store.merge_at.
    rewrite Hi, Hio. simpl. split; [reflexivity|]. split.
    + by apply merged_field.
    + destruct (input !! "totalPrice") as [total|] eqn:Htotal.
      * by apply merged_field.
      * by apply merged_kept.
Qed.

End UpdateOrder.

Lemma deleteListing_orders id context st :
  orders (ListingResolvers.deleteListing id context st).2 = orders st.
Proof.
  unfold ListingResolvers.deleteListing, Auth.requireOwnership, Auth.requireAuth,
    Store.deleteListing, mbind, M_bind, gets, call, throw, mret, M_ret.
  repeat (case_match; simplify_eq/=; try done).
Qed.

Lemma delisted_order_1 :
  Orders.getOrderById (Some (VInt 1)) Fixture.delisted
  = Some (Store.sampleOrder Fixture.boot).
Proof.
  unfold Orders.getOrderById, Fixture.delisted, Server.resolve, fmap, M_fmap.
  pose proof (deleteListing_orders 1 Fixture.asJohn Fixture.store) as Horders.
  destruct (ListingResolvers.deleteListing 1 Fixture.asJohn Fixture.store)
    as [[r|e] st']; simpl in *; rewrite Horders; exact fixture_order_1.
Qed.

Lemma delisted_listing_gone :
  Store.getListingById (Store.sampleOrder Fixture.boot !! "listingId")
    Fixture.delisted
  = None.
Proof. vm_compute. reflexivity. Qed.

Lemma updateOrder_recomputes_totalPrice_witness :
  (∃ i o',
     JS.findIndex (Store.has_id (Some (VInt 1))) (orders Fixture.repriced) = Some i ∧
     OrderResolvers.updateOrder 1 (JS.literal [("quantity", Some (VInt 2))])
       Fixture.asJane Fixture.env Fixture.repriced
     = (Ok (Some o'),
        set_orders (<[i := o']> (orders Fixture.repriced)) Fixture.repriced) ∧
     o' !! "quantity" = Some (VInt 2) ∧
     o' !! "totalPrice" = Some (VFloat 1000)) ∧
  (∃ i o',
     JS.findIndex (Store.has_id (Some (VInt 1))) (orders Fixture.delisted) = Some i ∧
     OrderResolvers.updateOrder 1 (JS.literal [("quantity", Some (VInt 5))])
       Fixture.asJane Fixture.env Fixture.delisted
     = (Ok (Some o'),
        set_orders (<[i := o']> (orders Fixture.delisted)) Fixture.delisted) ∧
     o' !! "quantity" = Some (VInt 5) ∧
     o' !! "totalPrice" = Some (VFloat 999.99)).
Proof.
  assert (Hl : Store.getListingById (Store.sampleOrder Fixture.boot !! "listingId")
                 Fixture.repriced
               = Some (<["price" := VFloat 500]> (Store.iphone Fixture.boot)))
    by (apply find_hit; vm_compute; reflexivity).
  assert (HP : <["price" := VFloat 500]> (Store.iphone Fixture.boot) !! "price"
               = Some (VFloat 500))
    by apply lookup_insert_eq.
  assert (Hq2 : JS.literal [("quantity", Some (VInt 2))] !! "quantity" = Some (VInt 2))
    by (vm_compute; reflexivity).
  assert (Hq5 : JS.literal [("quantity", Some (VInt 5))] !! "quantity" = Some (VInt 5))
    by (vm_compute; reflexivity).
  assert (Hno : JS.literal [("quantity", Some (VInt 5))] !! "totalPrice" = None)
    by (vm_compute; reflexivity).
  assert (Hold : Store.sampleOrder Fixture.boot !! "totalPrice" = Some (VFloat 999.99))
    by (vm_compute; reflexivity).
  assert (Hproduct : PrimFloat.mul 500 (SF2Prim (binary_normalize prec emax 2 0 false))
                     = 1000%float)
    by (vm_compute; reflexivity).
  split.
  - destruct (updateOrder_recomputes_totalPrice Fixture.asJane Fixture.jane _ 1
                Fixture.env Fixture.repriced eq_refl fixture_order_1
                fixture_jane_owns_order_1 _ (VInt 2) Hq2 eq_refl eq_refl)
      as (i & o' & Hi & Hrun & Hq & Htotal).
    rewrite Hl in Htotal. destruct Htotal as [_ Htotal].
    exists i, o'. split; [exact Hi|]. split; [exact Hrun|]. split; [exact Hq|].
    rewrite <- Hproduct. exact (Htotal _ _ HP eq_refl).
  - destruct (updateOrder_recomputes_totalPrice Fixture.asJane Fixture.jane _ 1
                Fixture.env Fixture.delisted eq_refl delisted_order_1
                fixture_jane_owns_order_1 _ (VInt 5) Hq5 eq_refl eq_refl)
      as (i & o' & Hi & Hrun & Hq & Htotal).
    rewrite delisted_listing_gone, Hno, Hold in Htotal.
    exists i, o'. split; [exact Hi|]. split; [exact Hrun|]. split; [exact Hq|].
    exact Htotal.
Defined.

(** When the listing of the order is gone, the quantity changes and the
    total price is whatever the merge leaves: the old one, unless the
    input carries one. *)
Lemma updateOrder_listing_gone context u o id env st input q :
  ctx_user context = Some u →
  Orders.getOrderById (Some (VInt id)) st = Some o →
  JS.strict_eq (u !! "id") (o !! "userId") = true →
  input !! "quantity" = Some q →
  JS.isInteger (Some q) = true →
  JS.leb (Some q) (Some (VInt 0)) = false →
  Store.getListingById (o !! "listingId") st = None →
  input !! "totalPrice" = None →
  ∃ o' st',
    OrderResolvers.updateOrder id input context env st = (Ok (Some o'), st') ∧
    o' !! "quantity" = Some q ∧
    o' !! "totalPrice" = o !! "totalPrice".
Proof.
  intros Huser Hfound Howner Hquantity Hinteger Hpositive Hgone Hnone.
  destruct (find_Some_findIndex _ _ _ Hfound) as (i & Hi & Hio).
  eexists _, _.
  cbv beta delta [OrderResolvers.updateOrder mbind M_bind gets].
  rewrite (requireAuth_ok _ _ _ Huser); cbv beta iota; rewrite Hfound.
  rewrite (requireOwnership_ok _ _ _ Huser _ Howner); cbv beta iota.
  rewrite Hquantity.
  unfold Validation.validateQuantity. rewrite Hinteger, Hpositive. simpl.
  rewrite Hgone.
  unfold call, mret, M_ret, Orders.updateOrder, Store.merge_at.
  rewrite Hi, Hio. simpl. split; [reflexivity|]. split.
  - by apply merged_field.
  - by apply merged_kept.
Qed.

(** John has withdrawn listing 1; Jane sets the quantity of her order,
    which was placed for one piece at 999.99, to five.  The update is
    accepted, and the total is still 999.99. *)
Lemma updateOrder_delisted_run :
  Store.getListingById (Store.sampleOrder Fixture.boot !! "listingId")
    Fixture.delisted = None ∧
  ∃ o' st',
    OrderResolvers.updateOrder 1 (JS.literal [("quantity", Some (VInt 5))])
      Fixture.asJane Fixture.env Fixture.delisted
    = (Ok (Some o'), st') ∧
    o' !! "quantity" = Some (VInt 5) ∧
    o' !! "totalPrice" = Some (VFloat 999.99).
Proof.
  split; [exact delisted_listing_gone|].
  assert (Hold : Store.sampleOrder Fixture.boot !! "totalPrice" = Some (VFloat 999.99))
    by (vm_compute; reflexivity).
  rewrite <- Hold.
  apply (updateOrder_listing_gone _ Fixture.jane);
    first [ exact delisted_order_1 | exact fixture_jane_owns_order_1
          | exact delisted_listing_gone | vm_compute; reflexivity ].
Qed.

(** C3 as the specification states it fails in a store where the listing
    of the order has been deleted: there is no listing whose price could
    be taken, the update of the quantity is accepted all the same, and
    the total stays what it was. *)
Lemma updateOrder_without_listing_keeps_total :
  ¬ (∀ (context : ReqContext) (u o input : obj) (id : Z) (env : Env)
       (st : DataStore) (q : value),
       ctx_user context = Some u →
       Orders.getOrderById (Some (VInt id)) st = Some o →
       JS.strict_eq (u !! "id") (o !! "userId") = true →
       input !! "quantity" = Some q →
       JS.isInteger (Some q) = true →
       JS.leb (Some q) (Some (VInt 0)) = false →
       ∃ l o' st',
         Store.getListingById (o !! "listingId") st = Some l ∧
         OrderResolvers.updateOrder id input context env st = (Ok (Some o'), st') ∧
         o' !! "totalPrice" = Some (JS.mul (l !! "price") (Some q))).
Proof.
  intros claim.
  assert (Hq : JS.literal [("quantity", Some (VInt 5))] !! "quantity" = Some (VInt 5))
    by (vm_compute; reflexivity).
  destruct (claim Fixture.asJane Fixture.jane (Store.sampleOrder Fixture.boot)
              (JS.literal [("quantity", Some (VInt 5))]) 1 Fixture.env
              Fixture.delisted (VInt 5) eq_refl delisted_order_1
              fixture_jane_owns_order_1 Hq eq_refl eq_refl)
    as (l & _ & _ & Hl & _).
  destruct updateOrder_delisted_run as [Hgone _].
  rewrite Hgone in Hl. discriminate Hl.
Qed.

(** ** Creating an order *)

Lemma literal_cons (k : string) (v : jsval) (fields : list (string * jsval)) (o : obj) :
  fold_left (λ o kv, JS.assign kv.1 kv.2 o) ((k, v) :: fields) o
  = fold_left (λ o kv, JS.assign kv.1 kv.2 o) fields (JS.assign k v o).
Proof. reflexivity. Qed.

Section CreateOrder.
Variables (context : ReqContext) (u input : obj) (env : Env) (st : DataStore).
Variables (listingId shippingAddress : value) (Q : Z).
Hypothesis Huser : ctx_user context = Some u.
Hypothesis HlistingId : input !! "listingId" = Some listingId.
Hypothesis HlistingId_given : Validation.missing (Some listingId) = false.
Hypothesis Hquantity : input !! "quantity" = Some (VInt Q).
Hypothesis Hpositive : 0 < Q.
Hypothesis Haddress : input !! "shippingAddress" = Some shippingAddress.
Hypothesis Haddress_given : Validation.missing (Some shippingAddress) = false.

Ltac enter :=
  cbv beta delta [OrderResolvers.createOrder mbind M_bind gets
                  Validation.validateRequired Validation.validateQuantity];
  rewrite (requireAuth_ok _ _ _ Huser); cbv beta iota zeta;
  rewrite HlistingId, Hquantity, Haddress, HlistingId_given, Haddress_given;
  cbv beta iota delta [mret M_ret Validation.missing JS.isInteger JS.leb negb orb];
  replace (Q <=? 0) with false by lia; cbv beta iota.


End CreateOrder.

(** Whatever the input, an order is created only for an existing listing,
    with the product of the listing's price and the quantity as its
    total, and a call for a missing listing leaves the store as it was. *)
Lemma createOrder_inv input context env st o st' :
  OrderResolvers.createOrder input context env st = (Ok o, st') →
  ∃ l, Store.getListingById (input !! "listingId") st = Some l ∧
       o !! "totalPrice" = Some (JS.mul (l !! "price") (input !! "quantity")) ∧
       o !! "status" = Some (VStr "PENDING") ∧
       orders st' = orders st ++ [o].
Proof.
  unfold OrderResolvers.createOrder, Validation.validateRequired,
    Validation.validateQuantity, Auth.requireAuth,
    mbind, M_bind, gets, call, throw, mret, M_ret, Orders.createOrder.
  intros Hrun.
  repeat (case_match; simplify_eq/=; try done).
  eexists. split; [done|]. split; [|split; [|done]].
  - field. unfold JS.spread, JS.literal. rewrite !literal_cons. simpl fold_left.
    erewrite lookup_union_Some_l; [done|]. by field.
  - by field.
Qed.

Lemma createOrder_no_listing input context env st :
  Store.getListingById (input !! "listingId") st = None →
  ∃ e, OrderResolvers.createOrder input context env st = (Err e, st).
Proof.
  intros Hnone.
  unfold OrderResolvers.createOrder, Validation.validateRequired,
    Validation.validateQuantity, Auth.requireAuth,
    mbind, M_bind, gets, call, throw, mret, M_ret.
  repeat (case_match; simplify_eq/=; try done); eauto.
Qed.

Lemma fixture_listing_1 :
  Store.getListingById (Some (VInt 1)) Fixture.store = Some (Store.iphone Fixture.boot).
Proof. apply find_hit. vm_compute. reflexivity. Qed.


(** ** The password hash stays in the store *)

Lemma userWithoutPassword_password (user : obj) :
  userWithoutPassword user !! "password" = None.
Proof. apply lookup_delete_eq. Qed.

Section NoPassword.
Context `{P : Platform}.

Lemma user_found id st u :
  Store.getUserById (Some (VInt id)) st = Some u →
  UserResolvers.user id st = (Ok (userWithoutPassword u), st).
Proof. intros H. unfold UserResolvers.user, mbind, M_bind, gets. by rewrite H. Qed.

Lemma user_password id st r st' :
  UserResolvers.user id st = (Ok r, st') → r !! "password" = None.
Proof.
  unfold UserResolvers.user, mbind, M_bind, gets, throw, mret, M_ret.
  intros H. branches. apply userWithoutPassword_password.
Qed.

Lemma createUser_password input env st r st' :
  UserResolvers.createUser input env st = (Ok r, st') → r !! "password" = None.
Proof.
  unfold UserResolvers.createUser, UserResolvers.hashPassword,
    Validation.validateRequired, Validation.validateUsername,
    Validation.validateEmail, Validation.validatePassword,
    mbind, M_bind, gets, call, throw, mret, M_ret.
  intros H. branches; apply userWithoutPassword_password.
Qed.

Lemma updateUser_password id input context env st r st' :
  UserResolvers.updateUser id input context env st = (Ok r, st') →
  r !! "password" = None.
Proof.
  unfold UserResolvers.updateUser, UserResolvers.hashPassword,
    Auth.requireOwnership, Auth.requireAuth,
    Validation.validateUsername, Validation.validateEmail,
    Validation.validatePassword, Store.updateUser,
    mbind, M_bind, gets, call, throw, mret, M_ret.
  intros H. branches; apply userWithoutPassword_password.
Qed.

Lemma login_password input env st token r st' :
  AuthResolvers.login input env st = (Ok (token, r), st') → r !! "password" = None.
Proof.
  unfold AuthResolvers.login, AuthResolvers.comparePassword,
    Validation.validateRequired, Validation.validateEmail,
    mbind, M_bind, gets, modify, throw, mret, M_ret.
  intros H. branches; apply userWithoutPassword_password.
Qed.

Lemma embedded_user_password (found : option obj) (r : obj) :
  userWithoutPassword <$> found = Some r → r !! "password" = None.
Proof.
  destruct found; simpl; [|done]. intros [= <-]. apply userWithoutPassword_password.
Qed.

(** C6.  No operation that returns a user record includes the stored
    password hash: the results of the [user] query, of [createUser],
    [updateUser] and [login], and the [user] field of a listing or of an
    order have no [password] field. *)
Theorem password_never_returned :
  (∀ id st r st', UserResolvers.user id st = (Ok r, st') → r !! "password" = None) ∧
  (∀ input env st r st',
     UserResolvers.createUser input env st = (Ok r, st') → r !! "password" = None) ∧
  (∀ id input context env st r st',
     UserResolvers.updateUser id input context env st = (Ok r, st') →
     r !! "password" = None) ∧
  (∀ input env st token r st',
     AuthResolvers.login input env st = (Ok (token, r), st') →
     r !! "password" = None) ∧
  (∀ parent st r,
     ListingResolvers.Listing_user parent st = Some r → r !! "password" = None) ∧
  (∀ parent st r,
     OrderResolvers.Order_user parent st = Some r → r !! "password" = None).
Proof.
  repeat split.
  - apply user_password.
  - apply createUser_password.
  - apply updateUser_password.
  - apply login_password.
  - intros parent st r. apply embedded_user_password.
  - intros parent st r. apply embedded_user_password.
Qed.

End NoPassword.

Lemma fixture_user_1 :
  Store.getUserById (Some (VInt 1)) Fixture.store = Some Store.john.
Proof. apply find_hit. vm_compute. reflexivity. Qed.

Lemma password_never_returned_witness :
  Store.john !! "password" = Some (VStr Store.sampleHash) ∧
  UserResolvers.user 1 Fixture.store = (Ok (userWithoutPassword Store.john), Fixture.store) ∧
  userWithoutPassword Store.john !! "password" = None.
Proof.
  split; [vm_compute; reflexivity|].
  split; [exact (user_found 1 Fixture.store Store.john fixture_user_1)|].
  exact (proj1 (@password_never_returned Fixture.platform) 1 Fixture.store _ _
           (user_found 1 Fixture.store Store.john fixture_user_1)).
Defined.

(** ** Pagination of the orders query *)

Lemma ceil_div_bounds (N L : Z) :
  0 < L → ∃ p, Orders.ceil_div N L = Orders.Pages p ∧ (p - 1) * L < N ≤ p * L.
Proof.
  intros HL. exists (- (- N / L)). unfold Orders.ceil_div.
  replace (L =? 0) with false by lia. split; [done|].
  pose proof (Z.div_mod (- N) L ltac:(lia)).
  pose proof (Z.mod_pos_bound (- N) L HL). nia.
Qed.

Lemma slice_take_drop {A : Type} (l : list A) (offset count : Z) :
  0 ≤ offset → 0 ≤ count →
  JS.slice l offset (offset + count) = take (Z.to_nat count) (drop (Z.to_nat offset) l).
Proof.
  intros Ho Hc. unfold JS.slice, JS.clamp.
  replace (offset <? 0) with false by lia.
  replace (offset + count <? 0) with false by lia.
  destruct (decide (offset ≤ Z.of_nat (length l))) as [Hle|Hgt].
  - rewrite (Z.min_l offset) by done.
    destruct (decide (offset + count ≤ Z.of_nat (length l))).
    + rewrite Z.min_l by done. f_equal. lia.
    + rewrite Z.min_r by lia.
      rewrite !take_ge; [done| |]; rewrite length_drop; lia.
  - rewrite !Z.min_r by lia. rewrite Z.sub_diag.
    rewrite Nat2Z.id, !drop_ge by lia. by rewrite !take_nil.
Qed.

Section OrdersQuery.
Variables (context : ReqContext) (u : obj) (filter : option obj) (st : DataStore).
Variables (page limit : Z).
Hypothesis Huser : ctx_user context = Some u.
Hypothesis Hpage : 1 ≤ page.
Hypothesis Hlimit : 1 ≤ limit.

(** The caller asks for no user in particular, or for its own orders. *)
Hypothesis Hallowed :
  JS.truthy (default ∅ filter !! "userId") = false ∨
  JS.strict_eq (default ∅ filter !! "userId") (u !! "id") = true.

(** The filter the resolver hands to the store, and the orders it keeps. *)
Let orderFilter : obj :=
  JS.assign "userId" (JS.or (default ∅ filter !! "userId") (u !! "id")) (default ∅ filter).
Let filtered : list obj := Orders.filterOrders orderFilter (orders st).
Let N : Z := Z.of_nat (length filtered).

(** C7.  With [N] orders left by the filter, a limit [L ≥ 1] and a page
    [≥ 1], the [orders] query returns [total = N], [pages = ceil (N / L)],
    the requested page as [currentPage], [hasNextPage = (page < pages)],
    [hasPreviousPage = (page > 1)] and the at most [L] orders from offset
    [(page - 1) * L] on; a page after the last one gives the empty list
    and [hasNextPage = false], not an error. *)
Theorem orders_pagination :
  ∃ r p,
    OrderResolvers.orders filter (Some (Orders.mkPagination page limit)) context st
    = (Ok r, st) ∧
    Orders.total (Orders.page_pagination r) = N ∧
    Orders.pages (Orders.page_pagination r) = Orders.Pages p ∧
    (p - 1) * limit < N ≤ p * limit ∧
    Orders.currentPage (Orders.page_pagination r) = page ∧
    Orders.hasNextPage (Orders.page_pagination r) = (page <? p) ∧
    Orders.hasPreviousPage (Orders.page_pagination r) = (1 <? page) ∧
    Orders.page_orders r
    = take (Z.to_nat limit) (drop (Z.to_nat ((page - 1) * limit)) filtered) ∧
    Z.of_nat (length (Orders.page_orders r)) ≤ limit ∧
    (p < page →
     Orders.page_orders r = [] ∧ Orders.hasNextPage (Orders.page_pagination r) = false).
Proof using Huser Hpage Hlimit Hallowed.
  destruct (ceil_div_bounds N limit ltac:(lia)) as (p & Hp & Hbounds).
  eexists _, p.
  unfold OrderResolvers.orders, mbind, M_bind, gets.
  rewrite (requireAuth_ok _ _ _ Huser). cbv beta iota zeta.
  assert (JS.truthy (default ∅ filter !! "userId")
          && negb (JS.strict_eq (default ∅ filter !! "userId") (u !! "id")) = false)
    as -> by (destruct Hallowed as [-> | ->]; [done | apply andb_false_r]).
  split; [reflexivity|]. simpl.
  fold orderFilter. fold filtered. fold N. rewrite Hp. simpl.
  rewrite slice_take_drop by nia.
  repeat split; try lia.
  - rewrite length_take. lia.
  - rewrite drop_ge; [apply take_nil|]. subst N. nia.
Qed.

End OrdersQuery.

Lemma orders_pagination_witness :
  ∃ r p,
    OrderResolvers.orders None (Some (Orders.mkPagination 2 1)) Fixture.asJane Fixture.store
    = (Ok r, Fixture.store) ∧
    Orders.total (Orders.page_pagination r) = 1 ∧
    Orders.pages (Orders.page_pagination r) = Orders.Pages p ∧
    p = 1 ∧
    Orders.page_orders r = [] ∧
    Orders.hasNextPage (Orders.page_pagination r) = false.
Proof.
  assert (Hallowed : JS.truthy (default ∅ (@None obj) !! "userId") = false
                     ∨ JS.strict_eq (default ∅ (@None obj) !! "userId")
                                    (Fixture.jane !! "id") = true)
    by (left; vm_compute; reflexivity).
  assert (HN : Z.of_nat (length (Orders.filterOrders
                 (JS.assign "userId" (JS.or (default ∅ (@None obj) !! "userId")
                                            (Fixture.jane !! "id"))
                            (default ∅ (@None obj)))
                 (orders Fixture.store))) = 1)
    by (vm_compute; reflexivity).
  destruct (orders_pagination Fixture.asJane Fixture.jane None Fixture.store 2 1
              eq_refl ltac:(lia) ltac:(lia) Hallowed)
    as (r & p & Hrun & Htotal & Hpages & Hbounds & _ & _ & _ & _ & _ & Hbeyond).
  rewrite HN in Htotal, Hbounds.
  assert (p = 1) as -> by lia.
  exists r, 1. destruct Hbeyond as [? ?]; [lia|]. done.
Defined.

(** ** Logging in *)

Lemma email_shape_nonempty (s : string) : Validation.email_shape s = true → s ≠ "".
Proof. intros H ->. discriminate H. Qed.

Lemma missing_str (s : string) : s ≠ "" → Validation.missing (Some (VStr s)) = false.
Proof. by destruct s. Qed.

Lemma validateRequired_ok (v : jsval) (fieldName : string) (st : DataStore) :
  Validation.missing v = false →
  Validation.validateRequired v fieldName st = (Ok tt, st).
Proof. intros H. unfold Validation.validateRequired. by rewrite H. Qed.

Lemma validateEmail_ok (s : string) (st : DataStore) :
  Validation.email_shape s = true →
  Validation.validateEmail (Some (VStr s)) st = (Ok tt, st).
Proof. intros H. unfold Validation.validateEmail. simpl. by rewrite H. Qed.

Section Login.
Context `{P : Platform}.
Variables (input : obj) (env : Env) (st : DataStore) (email password : string).

(** The input passes the validation of the resolver. *)
Hypothesis Hemail : input !! "email" = Some (VStr email).
Hypothesis Hpassword : input !! "password" = Some (VStr password).
Hypothesis Hemail_shape : Validation.email_shape email = true.
Hypothesis Hpassword_given : password ≠ "".

Ltac enter :=
  cbv beta zeta delta [AuthResolvers.login mbind M_bind gets];
  rewrite Hemail, Hpassword;
  rewrite (validateRequired_ok _ "email")
    by (apply missing_str, email_shape_nonempty, Hemail_shape);
  rewrite (validateRequired_ok _ "password") by (apply missing_str, Hpassword_given);
  rewrite (validateEmail_ok _ _ Hemail_shape); cbv beta iota.

Lemma login_unknown_email :
  Store.getUserByEmail (Some (VStr email)) st = None →
  AuthResolvers.login input env st = (Err AuthResolvers.invalid_credentials, st).
Proof using Hemail Hpassword Hemail_shape Hpassword_given.
  intros Hnone. enter. by rewrite Hnone.
Qed.

Lemma login_wrong_password user hash :
  Store.getUserByEmail (Some (VStr email)) st = Some user →
  user !! "password" = Some (VStr hash) →
  bcrypt_compare password hash = false →
  AuthResolvers.login input env st = (Err AuthResolvers.invalid_credentials, st).
Proof using Hemail Hpassword Hemail_shape Hpassword_given.
  intros Hfound Hhash Hcompare. enter. rewrite Hfound.
  unfold AuthResolvers.comparePassword. rewrite Hhash. simpl.
  by rewrite Hcompare.
Qed.

Lemma login_success user hash :
  Store.getUserByEmail (Some (VStr email)) st = Some user →
  user !! "password" = Some (VStr hash) →
  bcrypt_compare password hash = true →
  AuthResolvers.login input env st
  = (Ok (Auth.generateToken user env, userWithoutPassword user),
     Sessions.addSession (Auth.generateToken user env) st).
Proof using Hemail Hpassword Hemail_shape Hpassword_given.
  intros Hfound Hhash Hcompare. enter. rewrite Hfound.
  unfold AuthResolvers.comparePassword. rewrite Hhash. simpl.
  by rewrite Hcompare.
Qed.

(** The payload that [generateToken] signs. *)
Lemma generateToken_claims user :
  ∃ claims,
    Auth.generateToken user env = jwt_sign claims Auth.JWT_SECRET "24h" (nowMs env) ∧
    claims !! "id" = user !! "id" ∧
    claims !! "email" = user !! "email" ∧
    claims !! "username" = user !! "username" ∧
    (∀ k, k ∉ ["id"; "email"; "username"] → claims !! k = None).
Proof.
  eexists. split; [reflexivity|]. unfold JS.literal. simpl fold_left.
  repeat split.
  - by field.
  - by field.
  - by field.
  - intros k Hk.
    apply not_elem_of_cons in Hk as [? Hk].
    apply not_elem_of_cons in Hk as [? Hk].
    apply not_elem_of_cons in Hk as [? _].
    rewrite !lookup_assign_ne by done. apply lookup_empty.
Qed.

End Login.

Lemma validateEmail_fails (email : jsval) (st : DataStore) :
  Validation.emailRegex_test email = false →
  ∃ e, Validation.validateEmail email st = (Err e, st) ∧
       exn_code e = "VALIDATION_ERROR".
Proof.
  intros H. unfold Validation.validateEmail. rewrite H. by eexists.
Qed.

Lemma validateEmail_passes (email : jsval) (st : DataStore) :
  Validation.emailRegex_test email = true →
  Validation.validateEmail email st = (Ok tt, st).
Proof. intros H. unfold Validation.validateEmail. by rewrite H. Qed.

(** C8, as amended.  [login] validates its input first: a missing
    e-mail address or password ([undefined], [null] or the empty
    string), or an address that does not match the pattern, raises
    VALIDATION_ERROR.  For an input that passes: with an unknown
    address, and with a known address and a password that bcrypt does
    not accept for the stored hash, it raises one and the same
    AUTHENTICATION_ERROR; with a password that bcrypt accepts it returns
    the stored user without the password and a token signed over the
    claims [id], [email] and [username] of that user, and records the
    token as a session; when the given or the stored password is not a
    string (a user whose password was set to [null] by [updateUser]),
    [bcrypt.compare] rejects its arguments and the error has the code
    INTERNAL_SERVER_ERROR.  Every error leaves the store as it was. *)
Theorem login_contract `{P : Platform} (input : obj) (env : Env) (st : DataStore) :
  (Validation.missing (input !! "email") = true ∨
   Validation.missing (input !! "password") = true ∨
   Validation.emailRegex_test (input !! "email") = false →
   ∃ e, AuthResolvers.login input env st = (Err e, st) ∧
        exn_code e = "VALIDATION_ERROR") ∧
  (Validation.missing (input !! "email") = false →
   Validation.missing (input !! "password") = false →
   Validation.emailRegex_test (input !! "email") = true →
   match Store.getUserByEmail (input !! "email") st with
   | None =>
       AuthResolvers.login input env st = (Err AuthResolvers.invalid_credentials, st)
   | Some user =>
       match input !! "password", user !! "password" with
       | Some (VStr password), Some (VStr hash) =>
           if bcrypt_compare password hash then
             ∃ claims token,
               token = jwt_sign claims Auth.JWT_SECRET "24h" (nowMs env) ∧
               claims !! "id" = user !! "id" ∧
               claims !! "email" = user !! "email" ∧
               claims !! "username" = user !! "username" ∧
               (∀ k, k ∉ ["id"; "email"; "username"] → claims !! k = None) ∧
               AuthResolvers.login input env st
               = (Ok (token, userWithoutPassword user),
                  Sessions.addSession token st)
           else
             AuthResolvers.login input env st
             = (Err AuthResolvers.invalid_credentials, st)
       | password, hash =>
           AuthResolvers.login input env st
           = (Err (JsError ("Illegal arguments: " +:+ JS.typeof password +:+ ", "
                            +:+ JS.typeof hash)), st)
       end
   end) ∧
  exn_code AuthResolvers.invalid_credentials = "AUTHENTICATION_ERROR" ∧
  exn_message AuthResolvers.invalid_credentials = "Invalid credentials" ∧
  (∀ message, exn_code (JsError message) = "INTERNAL_SERVER_ERROR").
Proof.
  split; [|split; [|done]].
  - intros Hinvalid.
    cbv beta zeta delta [AuthResolvers.login mbind M_bind].
    destruct (Validation.missing (input !! "email")) eqn:Hemail.
    { unfold Validation.validateRequired. rewrite Hemail. by eexists. }
    rewrite (validateRequired_ok _ "email") by done.
    destruct (Validation.missing (input !! "password")) eqn:Hpassword.
    { unfold Validation.validateRequired. rewrite Hpassword. by eexists. }
    rewrite (validateRequired_ok _ "password") by done.
    destruct Hinvalid as [?|[?|Hshape]]; [done..|].
    destruct (validateEmail_fails _ st Hshape) as (e & -> & Hcode). by exists e.
  - intros Hemail Hpassword Hshape.
    assert (Hrun : AuthResolvers.login input env st
                   = match Store.getUserByEmail (input !! "email") st with
                     | None => (Err AuthResolvers.invalid_credentials, st)
                     | Some user =>
                         match AuthResolvers.comparePassword (input !! "password")
                                 (user !! "password") st with
                         | (Ok true, _) =>
                             (Ok (Auth.generateToken user env, userWithoutPassword user),
                              Sessions.addSession (Auth.generateToken user env) st)
                         | (Ok false, _) => (Err AuthResolvers.invalid_credentials, st)
                         | (Err e, _) => (Err e, st)
                         end
                     end).
    { cbv beta zeta delta [AuthResolvers.login mbind M_bind gets].
      rewrite (validateRequired_ok _ "email") by done.
      rewrite (validateRequired_ok _ "password") by done.
      rewrite (validateEmail_passes _ _ Hshape). cbv beta iota.
      destruct (Store.getUserByEmail (input !! "email") st) as [user|]; [|done].
      unfold AuthResolvers.comparePassword.
      destruct (input !! "password") as [[| | |password| |]|];
        destruct (user !! "password") as [[| | |hash| |]|]; try done.
      simpl. by destruct (bcrypt_compare password hash). }
    rewrite Hrun.
    destruct (Store.getUserByEmail (input !! "email") st) as [user|]; [|done].
    unfold AuthResolvers.comparePassword.
    destruct (input !! "password") as [[| | |password| |]|];
      destruct (user !! "password") as [[| | |hash| |]|]; try done.
    simpl. destruct (bcrypt_compare password hash); [|done].
    destruct (generateToken_claims env user) as (claims & Htoken & Hid & He & Hu & Hk).
    by exists claims, (Auth.generateToken user env).
Qed.

Lemma fixture_jane_by_email :
  Store.getUserByEmail (Some (VStr "jane@example.com")) Fixture.store = Some Store.jane.
Proof.
  unfold Store.getUserByEmail. simpl users.
  rewrite find_skip by (vm_compute; reflexivity).
  apply find_hit. vm_compute. reflexivity.
Qed.

Lemma login_contract_witness :
  AuthResolvers.login (P := Fixture.platform) (Fixture.login_as_jane "password")
    Fixture.env Fixture.store
  = (Ok ("jwt.jane@example.com", userWithoutPassword Store.jane),
     Sessions.addSession "jwt.jane@example.com" Fixture.store) ∧
  AuthResolvers.login (P := Fixture.platform) (Fixture.login_as_jane "secret")
    Fixture.env Fixture.store
  = (Err AuthResolvers.invalid_credentials, Fixture.store) ∧
  AuthResolvers.login (P := Fixture.platform)
    (JS.literal [("email", Some (VStr "nobody@example.com"));
                 ("password", Some (VStr "secret"))])
    Fixture.env Fixture.store
  = (Err AuthResolvers.invalid_credentials, Fixture.store) ∧
  (∃ e, AuthResolvers.login (P := Fixture.platform)
          (JS.literal [("email", Some (VStr "jane.example.com"));
                       ("password", Some (VStr "password"))])
          Fixture.env Fixture.store
        = (Err e, Fixture.store) ∧
        exn_code e = "VALIDATION_ERROR") ∧
  AuthResolvers.login (P := Fixture.platform) (Fixture.login_as_john "password")
    Fixture.env withoutPassword
  = (Err (JsError "Illegal arguments: string, object"), withoutPassword).
Proof.
  assert (Hhash : Store.jane !! "password" = Some (VStr Store.sampleHash))
    by (vm_compute; reflexivity).
  assert (Htoken : Auth.generateToken (P := Fixture.platform) Store.jane Fixture.env
                   = "jwt.jane@example.com")
    by (vm_compute; reflexivity).
  assert (Hnobody : Store.getUserByEmail (Some (VStr "nobody@example.com"))
                      Fixture.store = None)
    by (vm_compute; reflexivity).
  assert (Hnull : Store.getUserByEmail (Some (VStr "john@example.com")) withoutPassword
                  ≫= (λ user : obj, user !! "password")
                  = Some VNull)
    by (vm_compute; reflexivity).
  pose proof (λ input st, @login_contract Fixture.platform input Fixture.env st)
    as Hlogin.
  split; [|split; [|split; [|split]]].
  - rewrite <- Htoken.
    apply (login_success (P := Fixture.platform)) with "jane@example.com" "password"
                                                       Store.sampleHash;
      first [done | discriminate | exact fixture_jane_by_email
            | vm_compute; reflexivity].
  - destruct (Hlogin (Fixture.login_as_jane "secret") Fixture.store)
      as (_ & Hvalid & _).
    assert (He : Fixture.login_as_jane "secret" !! "email"
                 = Some (VStr "jane@example.com")) by (vm_compute; reflexivity).
    assert (Hp : Fixture.login_as_jane "secret" !! "password" = Some (VStr "secret"))
      by (vm_compute; reflexivity).
    rewrite He, Hp, fixture_jane_by_email, Hhash in Hvalid.
    apply Hvalid; vm_compute; reflexivity.
  - destruct (Hlogin (JS.literal [("email", Some (VStr "nobody@example.com"));
                                  ("password", Some (VStr "secret"))]) Fixture.store)
      as (_ & Hvalid & _).
    assert (He : JS.literal [("email", Some (VStr "nobody@example.com"));
                             ("password", Some (VStr "secret"))] !! "email"
                 = Some (VStr "nobody@example.com")) by (vm_compute; reflexivity).
    rewrite He, Hnobody in Hvalid.
    apply Hvalid; vm_compute; reflexivity.
  - destruct (Hlogin (JS.literal [("email", Some (VStr "jane.example.com"));
                                  ("password", Some (VStr "password"))]) Fixture.store)
      as (Hinvalid & _).
    apply Hinvalid. right. right. vm_compute. reflexivity.
  - destruct (Hlogin (Fixture.login_as_john "password") withoutPassword)
      as (_ & Hvalid & _).
    assert (He : Fixture.login_as_john "password" !! "email"
                 = Some (VStr "john@example.com")) by (vm_compute; reflexivity).
    assert (Hp : Fixture.login_as_john "password" !! "password"
                 = Some (VStr "password")) by (vm_compute; reflexivity).
    rewrite He, Hp in Hvalid.
    destruct (Store.getUserByEmail (Some (VStr "john@example.com")) withoutPassword)
      as [user|]; [|discriminate Hnull].
    simpl in Hnull. rewrite Hnull in Hvalid.
    apply Hvalid; reflexivity.
Defined.

(** Jane's address with the empty password: the validation rejects the
    input before the user is looked up. *)
Lemma login_empty_password_run :
  AuthResolvers.login (P := Fixture.platform) (Fixture.login_as_jane "")
    Fixture.env Fixture.store
  = (Err (Validation.validation_error "password is required" "password"),
     Fixture.store).
Proof.
  assert (He : Fixture.login_as_jane "" !! "email" = Some (VStr "jane@example.com"))
    by (vm_compute; reflexivity).
  assert (Hp : Fixture.login_as_jane "" !! "password" = Some (VStr ""))
    by (vm_compute; reflexivity).
  cbv beta zeta delta [AuthResolvers.login mbind M_bind].
  rewrite He, Hp. by rewrite validateRequired_ok.
Qed.

(** C8 as the specification states it fails where the validation comes
    first: the empty string is a wrong password for a known address, and
    the error is a VALIDATION_ERROR. *)
Lemma login_empty_password_is_validation_error :
  ¬ (∀ `(P : Platform) (input : obj) (env : Env) (st : DataStore)
       (email password hash : string) (user : obj),
       input !! "email" = Some (VStr email) →
       input !! "password" = Some (VStr password) →
       Store.getUserByEmail (Some (VStr email)) st = Some user →
       user !! "password" = Some (VStr hash) →
       bcrypt_compare password hash = false →
       ∃ e, AuthResolvers.login input env st = (Err e, st) ∧
            exn_code e = "AUTHENTICATION_ERROR").
Proof.
  intros claim.
  assert (He : Fixture.login_as_jane "" !! "email" = Some (VStr "jane@example.com"))
    by (vm_compute; reflexivity).
  assert (Hp : Fixture.login_as_jane "" !! "password" = Some (VStr ""))
    by (vm_compute; reflexivity).
  assert (Hh : Store.jane !! "password" = Some (VStr Store.sampleHash))
    by (vm_compute; reflexivity).
  destruct (claim Fixture.platform (Fixture.login_as_jane "") Fixture.env Fixture.store
              "jane@example.com" "" Store.sampleHash Store.jane
              He Hp fixture_jane_by_email Hh eq_refl)
    as (e & Hrun & Hcode).
  rewrite login_empty_password_run in Hrun. injection Hrun as <-.
  discriminate Hcode.
Qed.

(** ** The session set is never consulted *)

Lemma same_but_sessions_refl st : same_but_sessions st st.
Proof. by repeat split. Qed.

Lemma same_but_sessions_set (S : gset string) st :
  same_but_sessions st (set_sessions S st).
Proof. by repeat split. Qed.

Lemma same_but_sessions_trans st1 st2 st3 :
  same_but_sessions st1 st2 → same_but_sessions st2 st3 → same_but_sessions st1 st3.
Proof. unfold same_but_sessions. intros ? ?. intuition congruence. Qed.

Lemma same_but_sessions_sym st1 st2 :
  same_but_sessions st1 st2 → same_but_sessions st2 st1.
Proof. unfold same_but_sessions. intros ?. intuition congruence. Qed.

Section Blind.
Context {A B : Type}.

Lemma blind_ret (a : A) : blind (mret a).
Proof. by intros st1 st2 H. Qed.

Lemma blind_throw (e : exn) : blind (throw (A := A) e).
Proof. by intros st1 st2 H. Qed.

Lemma blind_bind (m : M A) (f : A → M B) :
  blind m → (∀ a, blind (f a)) → blind (m ≫= f).
Proof.
  intros Hm Hf st1 st2 H. unfold mbind, M_bind.
  destruct (Hm st1 st2 H) as [Hr Hs].
  destruct (m st1) as [r1 st1'], (m st2) as [r2 st2']; simpl in *; subst.
  destruct r2; [by apply Hf | done].
Qed.

Lemma blind_fmap (g : A → B) (m : M A) : blind m → blind (g <$> m).
Proof.
  intros Hm st1 st2 H. unfold fmap, M_fmap.
  destruct (Hm st1 st2 H) as [Hr Hs].
  destruct (m st1) as [r1 st1'], (m st2) as [r2 st2']; simpl in *; subst.
  by destruct r2.
Qed.

Lemma blind_gets (f : DataStore → A) :
  (∀ st1 st2, same_but_sessions st1 st2 → f st1 = f st2) → blind (gets f).
Proof. intros Hf st1 st2 H. unfold gets; simpl. by rewrite (Hf st1 st2 H). Qed.

Lemma blind_call (f : DataStore → A * DataStore) :
  (∀ st1 st2, same_but_sessions st1 st2 →
     (f st1).1 = (f st2).1 ∧ same_but_sessions (f st1).2 (f st2).2) →
  blind (call f).
Proof.
  intros Hf st1 st2 H. unfold call. destruct (Hf st1 st2 H) as [Hr Hs].
  destruct (f st1), (f st2); simpl in *. by subst.
Qed.

End Blind.

Lemma blind_modify (f : DataStore → DataStore) :
  (∀ st1 st2, same_but_sessions st1 st2 → same_but_sessions (f st1) (f st2)) →
  blind (modify f).
Proof. intros Hf st1 st2 H. unfold modify; simpl. auto. Qed.

(** Store methods read and write the three tables and the counters. *)
Ltac store_blind :=
  let H := fresh in
  intros [? ? ? ? ? ? ?] [? ? ? ? ? ? ?] H;
  unfold same_but_sessions in H; simpl in H;
  destruct H as (? & ? & ? & ? & ? & ?); subst;
  cbv beta delta [Store.getUserById Store.getUserByEmail Store.getListingById
                  Store.getListings Orders.getOrderById Orders.getOrders
                  Store.createUser Store.updateUser Store.deleteUser
                  Store.createListing Store.updateListing Store.deleteListing
                  Orders.createOrder Orders.updateOrder Orders.deleteOrder
                  Orders.cancelOrder Orders.updateOrderStatus Store.merge_at
                  Sessions.addSession Sessions.removeSession
                  set_users set_listings set_orders set_sessions
                  same_but_sessions];
  simpl;
  repeat match goal with
         | |- context [match ?x with _ => _ end] => destruct x; simpl
         end;
  by repeat split.

(** Walks through a resolver: binds, branches, and the store accesses. *)
Ltac blind_step :=
  first
    [ apply blind_ret
    | apply blind_throw
    | apply blind_bind; [|intros ?]
    | apply blind_fmap
    | apply blind_gets; store_blind
    | apply blind_call; store_blind
    | apply blind_modify; store_blind
    | match goal with
      | |- blind (match ?x with _ => _ end) => destruct x
      | |- blind (let '(_, _) := ?x in _) => destruct x
      end ].

Ltac blind_resolver :=
  cbv beta zeta delta
    [ UserResolvers.user UserResolvers.createUser UserResolvers.updateUser
      UserResolvers.deleteUser UserResolvers.hashPassword
      AuthResolvers.login AuthResolvers.logout AuthResolvers.comparePassword
      ListingResolvers.listing ListingResolvers.listings
      ListingResolvers.createListing ListingResolvers.updateListing
      ListingResolvers.deleteListing ListingResolvers.imageUrls
      OrderResolvers.order OrderResolvers.orders OrderResolvers.createOrder
      OrderResolvers.updateOrder OrderResolvers.deleteOrder
      OrderResolvers.cancelOrder OrderResolvers.updateOrderStatus
      Auth.requireAuth Auth.requireOwnership
      Validation.validateRequired Validation.validateEmail
      Validation.validatePassword Validation.validateUsername
      Validation.validatePrice Validation.validateQuantity
      Validation.validateOrderStatus ];
  repeat blind_step.

Section SessionsIgnored.
Context `{P : Platform}.

Lemma resolve_blind (op : Server.operation) (context : ReqContext) (env : Env) :
  blind (Server.resolve op context env).
Proof.
  destruct op; unfold Server.resolve; blind_resolver.
Qed.

Lemma logout_same_but_sessions (context : ReqContext) (st : DataStore) :
  same_but_sessions st (AuthResolvers.logout context st).2.
Proof.
  unfold AuthResolvers.logout, Auth.requireAuth, mbind, M_bind, modify, throw,
    mret, M_ret.
  destruct (ctx_user context); simpl; [|apply same_but_sessions_refl].
  destruct (ctx_token context) as [t|]; simpl; [|apply same_but_sessions_refl].
  destruct (negb (String.eqb t "")); simpl.
  - apply same_but_sessions_set.
  - apply same_but_sessions_refl.
Qed.

(** C9.  Authentication does not depend on the session set: the context
    of a request is computed from the request and the clock alone, and
    for two stores that differ in the session set only every operation
    gives the same response and leaves stores that again differ in the
    session set only.  [logout] changes nothing but the session set, so
    the request that follows it, with the same token, is answered as if
    the logout had not happened. *)
Theorem sessions_never_consulted :
  (∀ req op env st1 st2,
     same_but_sessions st1 st2 →
     (Server.handle req op env st1).1 = (Server.handle req op env st2).1 ∧
     same_but_sessions (Server.handle req op env st1).2
                       (Server.handle req op env st2).2) ∧
  (∀ req env st, same_but_sessions st (Server.handle req Server.MLogout env st).2) ∧
  (∀ req env st req' op env',
     (Server.handle req' op env' (Server.handle req Server.MLogout env st).2).1
     = (Server.handle req' op env' st).1).
Proof.
  assert (Hlogout : ∀ req env st,
            same_but_sessions st (Server.handle req Server.MLogout env st).2).
  { intros req env st. unfold Server.handle, Server.resolve, fmap, M_fmap.
    pose proof (logout_same_but_sessions (Server.createContext req env) st) as H.
    destruct (AuthResolvers.logout (Server.createContext req env) st) as [[m|e] st'];
      exact H. }
  split; [|split].
  - intros req op env st1 st2 H. unfold Server.handle. by apply resolve_blind.
  - exact Hlogout.
  - intros req env st req' op env'. unfold Server.handle at 1 3.
    apply resolve_blind, same_but_sessions_sym, Hlogout.
Qed.

End SessionsIgnored.

(** ** The life cycle of an order *)

Section FindMore.
Context {A : Type} (p : A → bool).

Lemma find_app_Some (l l' : list A) (x : A) :
  find p l = Some x → find p (l ++ l') = Some x.
Proof.
  induction l as [|y l IH]; simpl; [done|]. destruct (p y); [done|]. apply IH.
Qed.

Lemma find_insert_other (l : list A) (i : nat) (x x' : A) :
  l !! i = Some x → p x = false → p x' = false → find p (<[i := x']> l) = find p l.
Proof.
  revert i. induction l as [|y l IH]; intros [|i]; simpl; try done.
  - intros [= ->] Hx Hx'. by rewrite Hx, Hx'.
  - intros Hi Hx Hx'. destruct (p y); [done|]. by apply IH.
Qed.

Lemma find_delete_other (l : list A) (i : nat) (x : A) :
  l !! i = Some x → p x = false → find p (delete i l) = find p l.
Proof.
  revert i. induction l as [|y l IH]; intros [|i]; simpl; try done.
  - intros [= ->] Hx. by rewrite Hx.
  - intros Hi Hx. destruct (p y); [done|]. by apply IH.
Qed.

Lemma find_None_all (l : list A) :
  (∀ j y, l !! j = Some y → p y = false) → find p l = None.
Proof.
  induction l as [|y l IH]; simpl; [done|]. intros H.
  rewrite (H 0%nat y eq_refl). apply IH. intros j z Hj. by apply (H (S j)).
Qed.

Lemma find_delete_unique (l : list A) (i : nat) :
  (∀ j y, l !! j = Some y → p y = true → j = i) → find p (delete i l) = None.
Proof.
  intros Huniq. apply find_None_all. intros j y Hj.
  destruct (p y) eqn:Hy; [exfalso|done].
  destruct (decide (j < i)%nat).
  - rewrite list_lookup_delete_lt in Hj by done.
    specialize (Huniq _ _ Hj Hy). lia.
  - rewrite list_lookup_delete_ge in Hj by lia.
    specialize (Huniq _ _ Hj Hy). lia.
Qed.

End FindMore.

Lemma has_id_int (o : obj) (n id : Z) :
  o !! "id" = Some (VInt n) → Store.has_id (Some (VInt id)) o = (n =? id).
Proof. intros H. unfold Store.has_id. by rewrite H. Qed.

Lemma with_status_status o status now :
  Orders.with_status o status now !! "status" = status.
Proof. unfold Orders.with_status. by field. Qed.

Lemma with_status_id o status now :
  Orders.with_status o status now !! "id" = o !! "id".
Proof. unfold Orders.with_status. by field. Qed.

Lemma cancelled_id o reason now : Orders.cancelled o reason now !! "id" = o !! "id".
Proof. apply cancelled_other. by apply (bool_decide_unpack _). Qed.

Section OrderChange.
Context `{P : Platform}.
Import Lifecycle.

Lemma keeps_ret {A} (a : A) : keeps (mret a).
Proof. by intros st. Qed.

Lemma keeps_throw {A} (e : exn) : keeps (throw (A := A) e).
Proof. by intros st. Qed.

Lemma keeps_bind {A B} (m : M A) (f : A → M B) :
  keeps m → (∀ a, keeps (f a)) → keeps (m ≫= f).
Proof.
  intros Hm Hf st. unfold mbind, M_bind. specialize (Hm st).
  destruct (m st) as [[a|e] st1]; simpl in *; [|done].
  destruct (Hf a st1) as [-> ->]. done.
Qed.

Lemma keeps_fmap {A B} (g : A → B) (m : M A) : keeps m → keeps (g <$> m).
Proof.
  intros Hm st. unfold fmap, M_fmap. specialize (Hm st).
  by destruct (m st) as [[a|e] st1].
Qed.

Lemma keeps_gets {A} (f : DataStore → A) : keeps (gets f).
Proof. by intros st. Qed.

Lemma keeps_call {A} (f : DataStore → A * DataStore) :
  (∀ st, orders (f st).2 = orders st ∧ nextOrderId (f st).2 = nextOrderId st) →
  keeps (call f).
Proof. intros Hf st. unfold call. specialize (Hf st). by destruct (f st). Qed.

Lemma keeps_modify (f : DataStore → DataStore) :
  (∀ st, orders (f st) = orders st ∧ nextOrderId (f st) = nextOrderId st) →
  keeps (modify f).
Proof. intros Hf st. apply Hf. Qed.

Lemma keeps_change {A} (m : M A) op st : keeps m → order_change op st (m st).2.
Proof. intros Hm. destruct (Hm st). by apply change_none. Qed.

End OrderChange.

Ltac store_keeps :=
  intros [? ? ? ? ? ? ?];
  cbv beta delta [Store.createUser Store.updateUser Store.deleteUser
                  Store.createListing Store.updateListing Store.deleteListing
                  Store.merge_at Sessions.addSession Sessions.removeSession
                  set_users set_listings set_sessions];
  simpl;
  repeat match goal with
         | |- context [match ?x with _ => _ end] => destruct x; simpl
         end;
  done.

Ltac keeps_step :=
  first
    [ apply keeps_ret
    | apply keeps_throw
    | apply keeps_gets
    | apply keeps_bind; [|intros ?]
    | apply keeps_fmap
    | apply keeps_call; store_keeps
    | apply keeps_modify; store_keeps
    | match goal with
      | |- keeps (match ?x with _ => _ end) => destruct x
      end ].

Ltac keeps_resolver :=
  cbv beta zeta delta
    [ UserResolvers.user UserResolvers.createUser UserResolvers.updateUser
      UserResolvers.deleteUser UserResolvers.hashPassword
      AuthResolvers.login AuthResolvers.logout AuthResolvers.comparePassword
      ListingResolvers.listing ListingResolvers.listings
      ListingResolvers.createListing ListingResolvers.updateListing
      ListingResolvers.deleteListing ListingResolvers.imageUrls
      OrderResolvers.order OrderResolvers.orders
      Auth.requireAuth Auth.requireOwnership
      Validation.validateRequired Validation.validateEmail
      Validation.validatePassword Validation.validateUsername
      Validation.validatePrice Validation.validateQuantity
      Validation.validateOrderStatus ];
  repeat keeps_step.

Section StoreChange.
Import Lifecycle.
Variables (st : DataStore) (id : Z) (o : obj).
Hypothesis Hfound : Orders.getOrderById (Some (VInt id)) st = Some o.

Lemma store_updateOrder_change input updates now r st' :
  Orders.updateOrder (Some (VInt id)) updates now st = (r, st') →
  updates !! "id" = None → updates !! "status" = None →
  order_change (Server.MUpdateOrder id input) st st'.
Proof using Hfound.
  destruct (find_Some_findIndex _ _ _ Hfound) as (i & Hi & Hio).
  unfold Orders.updateOrder, Store.merge_at. rewrite Hi, Hio. simpl.
  intros [= <- <-] Hid Hstatus.
  eapply change_replaced; simpl; try done.
  - by apply merged_kept.
  - split; [done|]. by apply merged_kept.
Qed.

Lemma store_deleteOrder_change r st' :
  Orders.deleteOrder (Some (VInt id)) st = (r, st') →
  order_change (Server.MDeleteOrder id) st st'.
Proof using Hfound.
  destruct (find_Some_findIndex _ _ _ Hfound) as (i & Hi & Hio).
  unfold Orders.deleteOrder. rewrite Hi. intros [= <- <-].
  by eapply change_deleted.
Qed.

Lemma store_cancelOrder_change reason now r st' :
  Orders.cancelOrder (Some (VInt id)) reason now st = (r, st') →
  JS.strict_eq (o !! "status") (Some (VStr "CANCELLED")) = false →
  JS.strict_eq (o !! "status") (Some (VStr "DELIVERED")) = false →
  order_change (Server.MCancelOrder id reason) st st'.
Proof using Hfound.
  destruct (find_Some_findIndex _ _ _ Hfound) as (i & Hi & Hio).
  unfold Orders.cancelOrder. rewrite Hi, Hio. simpl.
  intros [= <- <-] Hc%strict_eq_str_false Hd%strict_eq_str_false.
  eapply change_replaced; simpl; try done.
  - apply cancelled_id.
  - repeat split; try done. apply cancelled_status.
Qed.

Lemma store_updateOrderStatus_change status now r st' :
  Orders.updateOrderStatus (Some (VInt id)) status now st = (r, st') →
  Validation.is_valid_status status = true →
  order_change (Server.MUpdateOrderStatus id status) st st'.
Proof using Hfound.
  destruct (find_Some_findIndex _ _ _ Hfound) as (i & Hi & Hio).
  unfold Orders.updateOrderStatus. rewrite Hi, Hio. simpl.
  intros [= <- <-] Hvalid.
  eapply change_replaced; simpl; try done.
  - apply with_status_id.
  - repeat split; try done. apply with_status_status.
Qed.

End StoreChange.

Section ResolveChange.
Context `{P : Platform}.
Import Lifecycle.
Variables (context : ReqContext) (env : Env) (st : DataStore).

(** The input type of [updateOrder] has no field [id] or [status]. *)
Variable fields : list string.
Hypothesis Hno_id : "id" ∉ fields.
Hypothesis Hno_status : "status" ∉ fields.

Lemma guard_keeps owner : keeps (Auth.requireOwnership context owner).
Proof. keeps_resolver. Qed.

Lemma createOrder_change input :
  order_change (Server.MCreateOrder input) st
    (OrderResolvers.createOrder input context env st).2.
Proof.
  unfold OrderResolvers.createOrder, Validation.validateRequired,
    Validation.validateQuantity, Auth.requireAuth,
    mbind, M_bind, gets, call, throw, mret, M_ret.
  repeat (case_match; simplify_eq/=; try by apply change_none).
  eapply change_created; simpl; [reflexivity| | |reflexivity].
  - field. unfold JS.spread. rewrite lookup_union_r; [by field|].
    unfold JS.literal. simpl fold_left. by field.
  - by field.
Qed.

Lemma well_typed_update_field id input k :
  well_typed fields (Server.MUpdateOrder id input) →
  k ∉ fields → input !! k = None.
Proof.
  intros Hwt Hk. destruct (input !! k) eqn:E; [|done].
  destruct Hk. apply Hwt. by rewrite E.
Qed.

Lemma updateOrder_change id input :
  well_typed fields (Server.MUpdateOrder id input) →
  order_change (Server.MUpdateOrder id input) st
    (OrderResolvers.updateOrder id input context env st).2.
Proof using Hno_id Hno_status.
  intros Hwt.
  pose proof (well_typed_update_field id input "id" Hwt Hno_id) as Hid.
  pose proof (well_typed_update_field id input "status" Hwt Hno_status) as Hstatus.
  unfold OrderResolvers.updateOrder, Validation.validateQuantity,
    Auth.requireOwnership, Auth.requireAuth,
    mbind, M_bind, gets, call, throw, mret, M_ret.
  repeat (case_match; simplify_eq/=; try by apply change_none);
    eapply store_updateOrder_change; try done; by field.
Qed.

Lemma deleteOrder_change id :
  order_change (Server.MDeleteOrder id) st
    (OrderResolvers.deleteOrder id context st).2.
Proof.
  unfold OrderResolvers.deleteOrder, Auth.requireOwnership, Auth.requireAuth,
    mbind, M_bind, gets, call, throw, mret, M_ret.
  repeat (case_match; simplify_eq/=; try by apply change_none);
    by eapply store_deleteOrder_change.
Qed.

Lemma cancelOrder_change id reason :
  order_change (Server.MCancelOrder id reason) st
    (OrderResolvers.cancelOrder id reason context env st).2.
Proof.
  unfold OrderResolvers.cancelOrder, Auth.requireOwnership, Auth.requireAuth,
    mbind, M_bind, gets, call, throw, mret, M_ret.
  repeat (case_match; simplify_eq/=; try by apply change_none);
    by eapply store_cancelOrder_change.
Qed.

Lemma updateOrderStatus_change id status :
  order_change (Server.MUpdateOrderStatus id status) st
    (OrderResolvers.updateOrderStatus id status context env st).2.
Proof.
  unfold OrderResolvers.updateOrderStatus, Validation.validateOrderStatus,
    Auth.requireOwnership, Auth.requireAuth,
    mbind, M_bind, gets, call, throw, mret, M_ret.
  repeat (case_match; simplify_eq/=; try by apply change_none);
    eapply store_updateOrderStatus_change; try done.
  by apply negb_false_iff.
Qed.

(** Every operation changes the orders in one of the four ways. *)
Lemma resolve_order_change op :
  well_typed fields op → order_change op st (Server.resolve op context env st).2.
Proof using Hno_id Hno_status.
  intros Hwt.
  assert (Hfmap : ∀ {A} (g : A → Server.response) (m : M A),
            ((g <$> m) st).2 = (m st).2).
  { intros A g m. unfold fmap, M_fmap. by destruct (m st) as [[?|?] ?]. }
  destruct op; unfold Server.resolve; rewrite Hfmap;
    try solve [apply keeps_change; keeps_resolver].
  - apply createOrder_change.
  - by apply updateOrder_change.
  - apply deleteOrder_change.
  - apply cancelOrder_change.
  - apply updateOrderStatus_change.
Qed.

End ResolveChange.

Lemma replaced_lookup st id i o o' :
  JS.findIndex (Store.has_id (Some (VInt id))) (orders st) = Some i →
  orders st !! i = Some o →
  o' !! "id" = o !! "id" →
  Orders.getOrderById (Some (VInt id)) (set_orders (<[i := o']> (orders st)) st)
  = Some o'.
Proof.
  intros Hi Hio Hid. unfold Orders.getOrderById. simpl.
  apply find_insert_first; [done|].
  destruct (findIndex_Some _ _ _ Hi) as (x & Hx & Hp & _).
  rewrite Hio in Hx. injection Hx as <-.
  unfold Store.has_id in *. by rewrite Hid.
Qed.

Lemma updateOrderStatus_success context u o id env st status :
  ctx_user context = Some u →
  Orders.getOrderById (Some (VInt id)) st = Some o →
  JS.strict_eq (u !! "id") (o !! "userId") = true →
  Validation.is_valid_status status = true →
  ∃ i, JS.findIndex (Store.has_id (Some (VInt id))) (orders st) = Some i ∧
       orders st !! i = Some o ∧
       OrderResolvers.updateOrderStatus id status context env st
       = (Ok (Some (Orders.with_status o status (nowISO env))),
          set_orders (<[i := Orders.with_status o status (nowISO env)]> (orders st)) st).
Proof.
  intros Huser Hfound Howner Hvalid.
  destruct (find_Some_findIndex _ _ _ Hfound) as (i & Hi & Hio).
  exists i. split; [done|]. split; [done|].
  cbv beta delta [OrderResolvers.updateOrderStatus mbind M_bind gets].
  rewrite (requireAuth_ok _ _ _ Huser); cbv beta iota; rewrite Hfound.
  rewrite (requireOwnership_ok _ _ _ Huser _ Howner); cbv beta iota.
  unfold Validation.validateOrderStatus. rewrite Hvalid. simpl.
  unfold call, Orders.updateOrderStatus. by rewrite Hi, Hio.
Qed.

Section Consistency.
Import Lifecycle.

Lemma consistent_lookup st i o :
  consistent st → orders st !! i = Some o →
  ∃ n, o !! "id" = Some (VInt n) ∧ n < nextOrderId st.
Proof.
  intros [(ns & Hids & Hnodup & Hbound) _] Hi.
  assert (((λ o : obj, o !! "id") <$> orders st) !! i = Some (o !! "id")) as Hl
    by (by rewrite list_lookup_fmap, Hi).
  rewrite Hids, list_lookup_fmap in Hl.
  destruct (ns !! i) as [n|] eqn:Hn; simplify_eq/=.
  exists n. split; [done|]. apply Hbound. by eapply list_elem_of_lookup_2.
Qed.

Lemma consistent_unique st id i j x y :
  consistent st →
  orders st !! i = Some x → orders st !! j = Some y →
  Store.has_id (Some (VInt id)) x = true →
  Store.has_id (Some (VInt id)) y = true →
  i = j.
Proof.
  intros [(ns & Hids & Hnodup & Hbound) _] Hi Hj Hx Hy.
  assert (∀ k z, orders st !! k = Some z →
                 Store.has_id (Some (VInt id)) z = true → ns !! k = Some id) as Hat.
  { intros k z Hk Hz.
    assert (((λ o : obj, o !! "id") <$> orders st) !! k = Some (z !! "id")) as Hl
      by (by rewrite list_lookup_fmap, Hk).
    rewrite Hids, list_lookup_fmap in Hl.
    destruct (ns !! k) as [n|] eqn:Hn; simplify_eq/=.
    rewrite (has_id_int z n id) in Hz by done. f_equal. lia. }
  eapply NoDup_lookup; eauto.
Qed.

Lemma strict_eq_str_l (s : string) (v : jsval) :
  JS.strict_eq (Some (VStr s)) v = true ↔ v = Some (VStr s).
Proof.
  destruct v as [[]|]; simpl; split; try done.
  - by intros ->%String.eqb_eq.
  - intros [= ->]. apply String.eqb_refl.
Qed.

Lemma is_valid_status_cases (status : jsval) :
  Validation.is_valid_status status = true →
  status = Some (VStr "PENDING") ∨ status = Some (VStr "CONFIRMED") ∨
  status = Some (VStr "SHIPPED") ∨ status = Some (VStr "DELIVERED") ∨
  status = Some (VStr "CANCELLED").
Proof.
  unfold Validation.is_valid_status, Validation.validStatuses, existsb.
  rewrite !orb_true_iff, !strict_eq_str_l. intuition (subst; auto; done).
Qed.

Lemma elem_of_insert_inv {A : Type} (l : list A) (i : nat) (x y : A) :
  y ∈ <[i := x]> l → y = x ∨ y ∈ l.
Proof.
  intros (j & Hj)%list_elem_of_lookup_1.
  destruct (decide (i = j)) as [->|Hne].
  - destruct (decide (j < length l)%nat).
    + rewrite list_lookup_insert_eq in Hj by done. left. congruence.
    + rewrite list_insert_ge in Hj by lia. right. by eapply list_elem_of_lookup_2.
  - rewrite list_lookup_insert_ne in Hj by done. right.
    by eapply list_elem_of_lookup_2.
Qed.

Lemma order_change_consistent op st st' :
  consistent st → order_change op st st' → consistent st'.
Proof.
  intros Hc Hchange. pose proof Hc as [(ns & Hids & Hnodup & Hbound) Hstatus].
  destruct Hchange as [Ho Hn | o Ho Hid Hs Hn | id i -> Hi Ho Hn
                      | id i o o' Hi Hio Ho Hn Hid Hop].
  - split; [exists ns|]; rewrite ?Ho, ?Hn; done.
  - split.
    + exists (ns ++ [nextOrderId st]). rewrite Ho, Hn, !fmap_app. simpl.
      rewrite Hids, Hid. split; [done|]. split.
      * apply NoDup_app. split; [done|]. split; [|apply NoDup_singleton].
        intros n Hin ->%list_elem_of_singleton. specialize (Hbound _ Hin). lia.
      * intros n [Hin| ->%list_elem_of_singleton]%elem_of_app; [|lia].
        specialize (Hbound _ Hin). lia.
    + rewrite Ho. intros x [Hin| ->%list_elem_of_singleton]%elem_of_app; [auto|].
      by rewrite Hs.
  - split.
    + exists (delete i ns). rewrite Ho, Hn, list_fmap_delete, Hids, list_fmap_delete.
      split; [done|]. split.
      * eapply sublist_NoDup; [done|apply sublist_delete].
      * intros n Hin%list_elem_of_delete_inv. auto.
    + rewrite Ho. intros x Hin%list_elem_of_delete_inv. auto.
  - split.
    + exists ns. rewrite Ho, Hn, list_fmap_insert, Hid.
      rewrite list_insert_id; [done|]. by rewrite list_lookup_fmap, Hio.
    + rewrite Ho. intros x [->|Hin]%elem_of_insert_inv; [|auto].
      assert (Validation.is_valid_status (o !! "status") = true) as Hvalid
        by (by eapply Hstatus, list_elem_of_lookup_2).
      destruct op; try done.
      * destruct Hop as [_ ->]. done.
      * destruct Hop as (_ & _ & _ & ->). done.
      * destruct Hop as (_ & Hv & ->). done.
Qed.

Lemma sampleOrder_id boot : Store.sampleOrder boot !! "id" = Some (VInt 1).
Proof. unfold Store.sampleOrder, JS.literal. simpl fold_left. by field. Qed.

Lemma sampleOrder_status boot :
  Store.sampleOrder boot !! "status" = Some (VStr "PENDING").
Proof. unfold Store.sampleOrder, JS.literal. simpl fold_left. by field. Qed.

Lemma initial_consistent boot : consistent (Store.initial boot).
Proof.
  split.
  - exists [1]. split; [|split].
    + change ([Store.sampleOrder boot !! "id"] = [Some (VInt 1)]).
      by rewrite sampleOrder_id.
    + apply NoDup_singleton.
    + intros n ->%list_elem_of_singleton. simpl. lia.
  - intros o ->%list_elem_of_singleton. by rewrite sampleOrder_status.
Qed.

Context `{P : Platform}.

(** The input type of [updateOrder] has no field [id] or [status]. *)
Variable fields : list string.
Hypothesis Hno_id : "id" ∉ fields.
Hypothesis Hno_status : "status" ∉ fields.

Lemma reachable_consistent boot st : reachable fields boot st → consistent st.
Proof using Hno_id Hno_status.
  induction 1 as [|st op context env Hr IH Hwt].
  - apply initial_consistent.
  - eapply order_change_consistent; [exact IH|]. by eapply resolve_order_change.
Qed.

(** How the status of the order [id] can differ after one operation. *)
Lemma order_change_status op st st' id o o' :
  consistent st → order_change op st st' →
  Orders.getOrderById (Some (VInt id)) st = Some o →
  Orders.getOrderById (Some (VInt id)) st' = Some o' →
  o' !! "status" = o !! "status" ∨
  (∃ reason, op = Server.MCancelOrder id reason ∧
             cancellable (o !! "status") ∧
             o' !! "status" = Some (VStr "CANCELLED")) ∨
  (∃ status, op = Server.MUpdateOrderStatus id status ∧
             Validation.is_valid_status status = true ∧
             o' !! "status" = status).
Proof.
  intros Hc Hchange Hget Hget'. unfold Orders.getOrderById in *.
  destruct Hchange as [Ho Hn | x Ho Hid Hs Hn | id0 i -> Hi Ho Hn
                      | id0 i x x' Hi Hix Ho Hn Hid Hop].
  - rewrite Ho, Hget in Hget'. left. congruence.
  - rewrite Ho, (find_app_Some _ _ _ _ Hget) in Hget'. left. congruence.
  - destruct (findIndex_Some _ _ _ Hi) as (x & Hix & Hpx & Hfx).
    destruct (decide (id0 = id)) as [->|Hne].
    + rewrite Ho, find_delete_unique in Hget'; [done|].
      intros j y Hj Hy. by eapply consistent_unique.
    + destruct (consistent_lookup _ _ _ Hc Hix) as (n & Hn' & _).
      rewrite (has_id_int x n id0) in Hpx by done.
      rewrite Ho, (find_delete_other _ _ _ x) in Hget'; [left; congruence|done|].
      rewrite (has_id_int x n id) by done. lia.
  - destruct (findIndex_Some _ _ _ Hi) as (x0 & Hix0 & Hpx & Hfx).
    rewrite Hix in Hix0. injection Hix0 as <-.
    destruct (consistent_lookup _ _ _ Hc Hix) as (n & Hn' & _).
    rewrite (has_id_int x n id0) in Hpx by done.
    destruct (decide (id0 = id)) as [->|Hne].
    + rewrite Hfx in Hget. injection Hget as ->.
      rewrite Ho, (find_insert_first _ _ _ _ Hi) in Hget'.
      2: { rewrite (has_id_int x' n id); [done|congruence]. }
      injection Hget' as ->.
      assert (Validation.is_valid_status (o !! "status") = true) as Hvalid.
      { destruct Hc as [_ Hstatus]. by eapply Hstatus, list_elem_of_lookup_2. }
      destruct op; try done.
      * left. by destruct Hop as [_ ->].
      * destruct Hop as (-> & Hnc & Hnd & Hs). right. left.
        eexists. split; [done|]. split; [|done].
        unfold cancellable.
        destruct (is_valid_status_cases _ Hvalid) as [?|[?|[?|[?|?]]]]; auto; done.
      * destruct Hop as (-> & Hv & Hs). right. right. eauto.
    + rewrite Ho, (find_insert_other _ _ _ x) in Hget'; [left; congruence|done| |].
      * rewrite (has_id_int x n id) by done. lia.
      * rewrite (has_id_int x' n id) by congruence. lia.
Qed.

(** C1, as amended.  Provided the input type of [updateOrder] has no
    field [id] or [status], in a reachable store:
    - one operation changes the status of an order in two ways only:
      [cancelOrder] on that order, from PENDING, CONFIRMED or SHIPPED
      to CANCELLED, and [updateOrderStatus] on that order, to the value
      it is given; so every operation other than [updateOrderStatus]
      keeps the status or moves it forward;
    - [cancelOrder], called by the owner on a PENDING, CONFIRMED or
      SHIPPED order, succeeds and leaves the order CANCELLED;
    - [updateOrderStatus], called by the owner with any value of the
      enumeration, succeeds and leaves the order with exactly that
      status, whatever the status was: it is not restricted to forward
      moves. *)
Theorem order_status_moves boot st op context env id o :
  reachable fields boot st →
  well_typed fields op →
  Orders.getOrderById (Some (VInt id)) st = Some o →
  (∀ o',
     Orders.getOrderById (Some (VInt id)) (Server.resolve op context env st).2
     = Some o' →
     (o' !! "status" = o !! "status" ∨
      (∃ reason, op = Server.MCancelOrder id reason ∧
                 cancellable (o !! "status") ∧
                 o' !! "status" = Some (VStr "CANCELLED")) ∨
      (∃ status, op = Server.MUpdateOrderStatus id status ∧
                 Validation.is_valid_status status = true ∧
                 o' !! "status" = status)) ∧
     ((∀ id' status, op ≠ Server.MUpdateOrderStatus id' status) →
      forward (o !! "status") (o' !! "status"))) ∧
  (∀ u, ctx_user context = Some u →
        JS.strict_eq (u !! "id") (o !! "userId") = true →
     (∀ reason, cancellable (o !! "status") →
        ∃ o' st',
          Server.resolve (Server.MCancelOrder id reason) context env st
          = (Ok (Server.RCancel "Order cancelled successfully" (Some o')), st') ∧
          Orders.getOrderById (Some (VInt id)) st' = Some o' ∧
          o' !! "status" = Some (VStr "CANCELLED")) ∧
     (∀ status, Validation.is_valid_status status = true →
        ∃ o' st',
          Server.resolve (Server.MUpdateOrderStatus id status) context env st
          = (Ok (Server.RNullable (Some o')), st') ∧
          Orders.getOrderById (Some (VInt id)) st' = Some o' ∧
          o' !! "status" = status)).
Proof using Hno_id Hno_status.
  intros Hr Hwt Hget. split.
  - intros o' Hget'.
    pose proof (order_change_status _ _ _ _ _ _ (reachable_consistent _ _ Hr)
                  (resolve_order_change context env st fields Hno_id Hno_status op Hwt)
                  Hget Hget')
      as [Hsame|[(reason & -> & Hcan & Hs)|(status & -> & Hv & Hs)]].
    + split; [by left|]. intros _. by left.
    + split; [right; left; eauto|]. intros _. right. right. done.
    + split; [right; right; eauto|]. intros Hne. by destruct (Hne id status).
  - intros u Huser Howner. split.
    + intros reason Hcan.
      destruct (cancelOrder_success context u o id env st Huser Hget Howner reason)
        as (i & Hi & Hio & Hrun).
      { destruct Hcan as [Hs|[Hs|Hs]]; rewrite Hs; discriminate. }
      { destruct Hcan as [Hs|[Hs|Hs]]; rewrite Hs; discriminate. }
      eexists _, _. unfold Server.resolve, fmap, M_fmap. rewrite Hrun. simpl.
      split; [done|]. split.
      * apply (replaced_lookup st id i o); [done..|apply cancelled_id].
      * apply cancelled_status.
    + intros status Hvalid.
      destruct (updateOrderStatus_success context u o id env st status
                  Huser Hget Howner Hvalid) as (i & Hi & Hio & Hrun).
      eexists _, _. unfold Server.resolve, fmap, M_fmap. rewrite Hrun. simpl.
      split; [done|]. split.
      * apply (replaced_lookup st id i o); [done..|apply with_status_id].
      * apply with_status_status.
Qed.

End Consistency.

(** ** Reopening a cancelled order *)

Section Reopen.
Import Lifecycle.

Lemma afterCancel_order : Orders.getOrderById (Some (VInt 1)) Fixture.afterCancel = Some Fixture.cancelledOrder.
Proof.
  destruct (cancelOrder_success Fixture.asJane Fixture.jane _ 1 Fixture.env
              Fixture.store eq_refl fixture_order_1 fixture_jane_owns_order_1 None)
    as (i & Hi & Hio & Hrun);
    [rewrite fixture_order_1_pending; discriminate..|].
  unfold Fixture.afterCancel, Server.resolve, fmap, M_fmap. rewrite Hrun. simpl.
  apply replaced_lookup with (Store.sampleOrder Fixture.boot); [done..|].
  apply cancelled_id.
Qed.

Lemma cancelledOrder_owner :
  JS.strict_eq (Fixture.jane !! "id") (Fixture.cancelledOrder !! "userId") = true.
Proof.
  unfold Fixture.cancelledOrder.
  rewrite cancelled_other by (by apply (bool_decide_unpack _)).
  apply fixture_jane_owns_order_1.
Qed.

Lemma afterCancel_reachable :
  reachable (P := Fixture.platform) Fixture.orderUpdateFields Fixture.boot
    Fixture.afterCancel.
Proof. apply reachable_step; [apply reachable_initial|exact I]. Qed.

Lemma order_status_moves_witness :
  ∃ o' st',
    Server.resolve (P := Fixture.platform)
      (Server.MUpdateOrderStatus 1 (Some (VStr "PENDING")))
      Fixture.asJane Fixture.env Fixture.afterCancel
    = (Ok (Server.RNullable (Some o')), st') ∧
    Orders.getOrderById (Some (VInt 1)) st' = Some o' ∧
    o' !! "status" = Some (VStr "PENDING").
Proof.
  exact (proj2 (proj2 (order_status_moves (P := Fixture.platform)
                   Fixture.orderUpdateFields
                   ltac:(by apply (bool_decide_unpack _))
                   ltac:(by apply (bool_decide_unpack _))
                   Fixture.boot Fixture.afterCancel Server.MLogout
                   Fixture.asJane Fixture.env 1 Fixture.cancelledOrder
                   afterCancel_reachable I afterCancel_order)
                 Fixture.jane eq_refl cancelledOrder_owner)
               (Some (VStr "PENDING")) eq_refl).
Defined.

(** Jane cancels her order and then asks for the status PENDING: the
    request is accepted, and the order is PENDING again. *)
Lemma reopen_run :
  Orders.getOrderById (Some (VInt 1)) Fixture.afterCancel = Some Fixture.cancelledOrder ∧
  Fixture.cancelledOrder !! "status" = Some (VStr "CANCELLED") ∧
  ∃ o',
    Orders.getOrderById (Some (VInt 1))
      (Server.resolve (P := Fixture.platform)
         (Server.MUpdateOrderStatus 1 (Some (VStr "PENDING")))
         Fixture.asJane Fixture.env Fixture.afterCancel).2
    = Some o' ∧
    o' !! "status" = Some (VStr "PENDING").
Proof.
  split; [exact afterCancel_order|]. split; [apply cancelled_status|].
  assert (Howner : JS.strict_eq (Fixture.jane !! "id")
                     (Fixture.cancelledOrder !! "userId") = true).
  { unfold Fixture.cancelledOrder.
    rewrite cancelled_other by (by apply (bool_decide_unpack _)).
    apply fixture_jane_owns_order_1. }
  destruct (updateOrderStatus_success Fixture.asJane Fixture.jane
              Fixture.cancelledOrder 1 Fixture.env Fixture.afterCancel
              (Some (VStr "PENDING")) eq_refl afterCancel_order Howner eq_refl)
    as (j & Hj & Hjo & Hrun).
  eexists. unfold Server.resolve, fmap, M_fmap. rewrite Hrun. split.
  - exact (replaced_lookup _ _ _ _ _ Hj Hjo (with_status_id _ _ _)).
  - apply with_status_status.
Qed.

(** C1 as the specification states it fails: after Jane has cancelled
    her order, her [updateOrderStatus] with PENDING is accepted, and the
    order is PENDING again. *)
Lemma updateOrderStatus_reopens_cancelled_order :
  ¬ (∀ `(P : Platform) (fields : list string) (boot : string) (st : DataStore)
       (op : Server.operation) (context : ReqContext) (env : Env) (id : Z)
       (o o' : obj),
       "id" ∉ fields → "status" ∉ fields →
       reachable fields boot st →
       well_typed fields op →
       Orders.getOrderById (Some (VInt id)) st = Some o →
       Orders.getOrderById (Some (VInt id)) (Server.resolve op context env st).2
       = Some o' →
       forward (o !! "status") (o' !! "status")).
Proof.
  intros claim.
  assert (Hreach : reachable (P := Fixture.platform) Fixture.orderUpdateFields
                     Fixture.boot Fixture.afterCancel)
    by (apply reachable_step; [apply reachable_initial|exact I]).
  destruct reopen_run as (Hget & Hcancelled & o' & Hget' & Hpending).
  pose proof (claim Fixture.platform Fixture.orderUpdateFields Fixture.boot
                Fixture.afterCancel
                (Server.MUpdateOrderStatus 1 (Some (VStr "PENDING")))
                Fixture.asJane Fixture.env 1 Fixture.cancelledOrder o'
                ltac:(by apply (bool_decide_unpack _))
                ltac:(by apply (bool_decide_unpack _))
                Hreach I Hget Hget') as Hforward.
  rewrite Hcancelled, Hpending in Hforward.
  destruct Hforward as [Heq|[(a & b & Ha & _)|[Hcan _]]].
  - discriminate Heq.
  - discriminate Ha.
  - destruct Hcan as [Hc|[Hc|Hc]]; discriminate Hc.
Qed.

End Reopen.

(** ** Further runs on the fixture *)

Lemma sessions_never_consulted_witness :
  (Server.handle (P := Fixture.platform) Fixture.janesRequest (Server.QOrder 1)
     Fixture.env (Sessions.removeSession "jwt.jane@example.com" Fixture.store)).1
  = (Server.handle (P := Fixture.platform) Fixture.janesRequest (Server.QOrder 1)
       Fixture.env Fixture.store).1 ∧
  match (Server.handle (P := Fixture.platform) Fixture.janesRequest (Server.QOrder 1)
           Fixture.env Fixture.store).1 with
  | Ok _ => True
  | Err _ => False
  end.
Proof.
  split.
  - apply (proj1 (sessions_never_consulted (P := Fixture.platform))).
    apply same_but_sessions_sym, same_but_sessions_set.
  - vm_compute. exact I.
Defined.

Lemma ownership_checked_before_existence_witness :
  UserResolvers.deleteUser 99 Fixture.asJohn Fixture.store
  = (Err Auth.access_denied, Fixture.store) ∧
  UserResolvers.deleteUser 2 Fixture.asJohn Fixture.store
  = (Err Auth.access_denied, Fixture.store).
Proof.
  split.
  - refine (proj2 (proj1 (ownership_checked_before_existence (P := Fixture.platform)
                            Fixture.asJohn 99 Fixture.env Fixture.store)
                     Fixture.john eq_refl _)).
    vm_compute. reflexivity.
  - refine (proj2 (proj1 (ownership_checked_before_existence (P := Fixture.platform)
                            Fixture.asJohn 2 Fixture.env Fixture.store)
                     Fixture.john eq_refl _)).
    vm_compute. reflexivity.
Defined.

(** * Further properties of the server *)

(** ** A failed operation has no effect *)

Section Safe.
Context {A B : Type}.

Lemma reads_ret (a : A) : reads (mret a).
Proof. by intros st. Qed.

Lemma reads_throw (e : exn) : exn_code e ∈ Api.error_codes → reads (throw (A := A) e).
Proof. intros He st. split; [done|]. by intros e' [= <-]. Qed.

Lemma reads_gets (f : DataStore → A) : reads (gets f).
Proof. by intros st. Qed.

Lemma reads_bind (m : M A) (k : A → M B) :
  reads m → (∀ a, reads (k a)) → reads (m ≫= k).
Proof.
  intros Hm Hk st. unfold mbind, M_bind. destruct (Hm st) as [Hst He].
  destruct (m st) as [[a|e] st1]; simpl in *; subst.
  - apply Hk.
  - split; [done|]. intros e' [= <-]. by apply He.
Qed.

Lemma reads_fmap (g : A → B) (m : M A) : reads m → reads (g <$> m).
Proof.
  intros Hm st. unfold fmap, M_fmap. destruct (Hm st) as [Hst He].
  destruct (m st) as [[a|e] st1]; simpl in *; subst; [done|].
  split; [done|]. intros e' [= <-]. by apply He.
Qed.

Lemma safe_reads (m : M A) : reads m → safe m.
Proof.
  intros Hm st e st' Hrun. destruct (Hm st) as [Hst He].
  rewrite Hrun in Hst, He. simpl in *. split; [done|]. by apply He.
Qed.

Lemma safe_total (m : M A) : total m → safe m.
Proof. intros Hm st e st' Hrun. destruct (Hm st) as [a Ha]. by rewrite Hrun in Ha. Qed.

Lemma safe_bind (m : M A) (k : A → M B) :
  reads m → (∀ a, safe (k a)) → safe (m ≫= k).
Proof.
  intros Hm Hk st e st'. unfold mbind, M_bind. destruct (Hm st) as [Hst He].
  destruct (m st) as [[a|e0] st1]; simpl in *; subst.
  - apply Hk.
  - intros [= <- <-]. split; [done|]. by apply He.
Qed.

Lemma safe_fmap (g : A → B) (m : M A) : safe m → safe (g <$> m).
Proof.
  intros Hm st e st'. unfold fmap, M_fmap. specialize (Hm st).
  destruct (m st) as [[a|e0] st1]; simpl in *; [done|].
  intros [= <- <-]. by apply Hm.
Qed.

Lemma total_ret (a : A) : total (mret a).
Proof. intros st. by exists a. Qed.

Lemma total_call (f : DataStore → A * DataStore) : total (call f).
Proof. intros st. unfold call. destruct (f st) as [a st1]. by exists a. Qed.

Lemma total_bind (m : M A) (k : A → M B) :
  total m → (∀ a, total (k a)) → total (m ≫= k).
Proof.
  intros Hm Hk st. unfold mbind, M_bind. destruct (Hm st) as [a Ha].
  destruct (m st) as [[a'|e] st1]; simpl in *; [|done]. apply Hk.
Qed.

(** A write that reports a miss without having changed anything, and is
    followed by a check of that report. *)
Lemma safe_write_checked (f : DataStore → A * DataStore) (k : A → M B)
    (missed : A → Prop) :
  (∀ st, missed (f st).1 → (f st).2 = st) →
  (∀ a, missed a → reads (k a)) →
  (∀ a, ¬ missed a → total (k a)) →
  (∀ a, missed a ∨ ¬ missed a) →
  safe (call f ≫= k).
Proof.
  intros Hmiss Hreads Htotal Hdec st e st'. unfold mbind, M_bind, call.
  specialize (Hmiss st). destruct (f st) as [a st1]; simpl in *.
  destruct (Hdec a) as [Ha|Ha].
  - rewrite (Hmiss Ha). intros Hrun. destruct (Hreads a Ha st) as [Hst He].
    rewrite Hrun in Hst, He. simpl in *. split; [done|]. by apply He.
  - intros Hrun. destruct (Htotal a Ha st1) as [b Hb]. by rewrite Hrun in Hb.
Qed.

End Safe.

Lemma total_modify (f : DataStore → DataStore) : total (modify f).
Proof. intros st. by exists tt. Qed.

(** The code of an error that is spelled out. *)
Ltac known_code := by apply (bool_decide_unpack _).

Ltac reads_step :=
  first
    [ apply reads_ret
    | apply reads_throw; known_code
    | apply reads_gets
    | apply reads_bind; [|intros ?]
    | apply reads_fmap
    | match goal with
      | |- reads (match ?x with _ => _ end) => destruct x
      end ].

Ltac unfold_guards :=
  cbv beta zeta delta
    [ Auth.requireAuth Auth.requireOwnership
      Validation.validateRequired Validation.validateEmail
      Validation.validatePassword Validation.validateUsername
      Validation.validatePrice Validation.validateQuantity
      Validation.validateOrderStatus
      UserResolvers.hashPassword AuthResolvers.comparePassword
      ListingResolvers.imageUrls ].

Ltac reads_all := unfold_guards; repeat reads_step.

Ltac total_step :=
  first
    [ apply total_ret
    | apply total_call
    | apply total_modify
    | apply total_bind; [|intros ?]
    | match goal with
      | |- total (match ?x with _ => _ end) => destruct x
      end ].

Ltac safe_step :=
  first
    [ apply safe_fmap
    | apply safe_bind; [solve [reads_all]|intros ?]
    | match goal with
      | |- safe (match ?x with _ => _ end) => destruct x
      end
    | apply safe_total; solve [repeat total_step]
    | apply safe_reads; solve [reads_all] ].

Section FilterUntil.
Context {A : Type} (p : A → result bool).

Lemma filter_until_Err (l : list A) (e : exn) :
  Store.filter_until p l = Err e → ∃ x, x ∈ l ∧ p x = Err e.
Proof.
  induction l as [|x l IH]; simpl; [done|].
  destruct (p x) as [b|e'] eqn:Hx.
  - destruct (Store.filter_until p l) as [r|e'']; [done|].
    intros [= ->]. destruct (IH eq_refl) as (y & Hy & He).
    exists y. split; [by apply list_elem_of_further|done].
  - intros [= ->]. exists x. split; [apply list_elem_of_here|done].
Qed.

Lemma filter_until_throws (l : list A) (x : A) (e : exn) :
  x ∈ l → p x = Err e → ∃ e', Store.filter_until p l = Err e'.
Proof.
  induction l as [|y l IH]; [by intros ?%elem_of_nil|].
  intros [->|Hin]%elem_of_cons Hx; simpl.
  - rewrite Hx. by eexists.
  - destruct (p y) as [b|e']; [|by eexists].
    destruct (IH Hin Hx) as [e' ->]. by eexists.
Qed.

Lemma filter_until_Ok (l r : list A) :
  Store.filter_until p l = Ok r →
  r = List.filter (λ x, match p x with Ok b => b | Err _ => false end) l.
Proof.
  revert r. induction l as [|x l IH]; simpl; intros r.
  - by intros [= <-].
  - destruct (p x) as [b|e]; [|done].
    destruct (Store.filter_until p l) as [r'|e]; [|done].
    intros [= <-]. rewrite (IH r' eq_refl). by destruct b.
Qed.

Lemma filter_until_total (l : list A) :
  (∀ x, x ∈ l → ∃ b, p x = Ok b) → ∃ r, Store.filter_until p l = Ok r.
Proof.
  induction l as [|x l IH]; simpl; intros Hl; [by eexists|].
  destruct (Hl x) as [b ->]; [apply list_elem_of_here|].
  destruct IH as [r ->]; [|by eexists].
  intros y Hy. apply Hl. by apply list_elem_of_further.
Qed.

End FilterUntil.

Section GetListingsThrows.
Context `{P : Platform}.

Lemma no_toLowerCase_code (what : string) (v : jsval) :
  exn_code (Store.no_toLowerCase what v) = "INTERNAL_SERVER_ERROR".
Proof. by destruct v as [[]|]. Qed.

Lemma search_match_Err (searchTerm : string) (listing : obj) (e : exn) :
  Store.search_match searchTerm listing = Err e →
  exn_code e = "INTERNAL_SERVER_ERROR".
Proof.
  unfold Store.search_match, Store.lower_includes.
  destruct (listing !! "title") as [[| | |t| |]|]; simpl;
    try (by intros [= <-]).
  destruct (JS.includes searchTerm (toLowerCase t)); [done|].
  destruct (listing !! "description") as [[| | |d| |]|]; simpl;
    by intros [= <-].
Qed.

Lemma getListings_Err (filter : obj) (st : DataStore) (e : exn) :
  Store.getListings filter st = Err e →
  exn_code e = "INTERNAL_SERVER_ERROR" ∧ JS.truthy (filter !! "search") = true.
Proof.
  unfold Store.getListings, Store.search.
  destruct (JS.truthy (filter !! "search")); [|done].
  destruct (filter !! "search") as [[| | |s| |]|]; simpl;
    try (by intros [= <-]).
  destruct (Store.filter_until _ _) as [r|e'] eqn:Hrun; [done|].
  intros [= ->]. split; [|done].
  apply filter_until_Err in Hrun as (x & _ & Hx). by eapply search_match_Err.
Qed.

Lemma listings_reads (filter : option obj) : reads (ListingResolvers.listings filter).
Proof.
  intros st. unfold ListingResolvers.listings, mbind, M_bind, gets.
  destruct (Store.getListings (default ∅ filter) st) as [r|e] eqn:Hrun; [done|].
  split; [done|]. intros e' [= <-].
  apply getListings_Err in Hrun as [-> _]. by apply (bool_decide_unpack _).
Qed.

End GetListingsThrows.

Section Atomic.
Context `{P : Platform}.

Lemma deleteUser_safe id context : safe (UserResolvers.deleteUser id context).
Proof.
  unfold UserResolvers.deleteUser. repeat safe_step.
  apply safe_write_checked with (missed := λ d, d = false).
  - intros st. unfold Store.deleteUser. by case_match.
  - intros ? ->. reads_all.
  - intros [] Ha; [repeat total_step|done].
  - intros []; auto.
Qed.

Lemma deleteListing_safe id context : safe (ListingResolvers.deleteListing id context).
Proof.
  unfold ListingResolvers.deleteListing. repeat safe_step.
  apply safe_write_checked with (missed := λ d, d = false).
  - intros st. unfold Store.deleteListing. by case_match.
  - intros ? ->. reads_all.
  - intros [] Ha; [repeat total_step|done].
  - intros []; auto.
Qed.

Lemma deleteOrder_safe id context : safe (OrderResolvers.deleteOrder id context).
Proof.
  unfold OrderResolvers.deleteOrder. repeat safe_step.
  apply safe_write_checked with (missed := λ d, d = false).
  - intros st. unfold Orders.deleteOrder. by case_match.
  - intros ? ->. reads_all.
  - intros [] Ha; [repeat total_step|done].
  - intros []; auto.
Qed.

Lemma updateUser_safe id input context env :
  safe (UserResolvers.updateUser id input context env).
Proof.
  unfold UserResolvers.updateUser. repeat safe_step.
  apply safe_write_checked with (missed := λ r, r = None).
  - intros st. unfold Store.updateUser. by case_match.
  - intros ? ->. reads_all.
  - intros [u|] Ha; [repeat total_step|done].
  - intros [u|]; auto.
Qed.

Lemma resolve_safe op context env : safe (Server.resolve op context env).
Proof.
  destruct op; unfold Server.resolve; apply safe_fmap;
    first [ apply deleteUser_safe | apply deleteListing_safe
          | apply deleteOrder_safe | apply updateUser_safe
          | apply safe_reads, listings_reads | idtac ].
  all: cbv beta zeta delta
         [ UserResolvers.user UserResolvers.createUser AuthResolvers.login
           AuthResolvers.logout ListingResolvers.listing
           ListingResolvers.createListing ListingResolvers.updateListing
           OrderResolvers.order OrderResolvers.orders OrderResolvers.createOrder
           OrderResolvers.updateOrder OrderResolvers.cancelOrder
           OrderResolvers.updateOrderStatus ];
    repeat safe_step.
Qed.

(** X1.  An operation that ends in an error leaves the store exactly as
    it was, whatever the operation, the caller and the input. *)
Theorem failure_leaves_store (op : Server.operation) (context : ReqContext)
    (env : Env) (st st' : DataStore) (e : exn) :
  Server.resolve op context env st = (Err e, st') → st' = st.
Proof. intros Hrun. by destruct (resolve_safe op context env st e st' Hrun). Qed.

(** X2.  Every error of every operation reaches the client with one of
    nine codes: the eight that the resolvers set, and
    INTERNAL_SERVER_ERROR, the code of an error that carries none (the
    [TypeError] of a search over a listing without title, the rejection
    by bcrypt of a password that is no string). *)
Theorem error_code_known (op : Server.operation) (context : ReqContext)
    (env : Env) (st st' : DataStore) (e : exn) :
  Server.resolve op context env st = (Err e, st') →
  exn_code e ∈ Api.error_codes.
Proof. intros Hrun. by destruct (resolve_safe op context env st e st' Hrun). Qed.

End Atomic.

(** ** What an operation leaves alone *)

Section Preserves.
Context {A B C : Type} (proj : DataStore → C).

Lemma preserves_ret (a : A) : preserves proj (mret a).
Proof. by intros st. Qed.

Lemma preserves_throw (e : exn) : preserves proj (throw (A := A) e).
Proof. by intros st. Qed.

Lemma preserves_gets (f : DataStore → A) : preserves proj (gets f).
Proof. by intros st. Qed.

Lemma preserves_bind (m : M A) (k : A → M B) :
  preserves proj m → (∀ a, preserves proj (k a)) → preserves proj (m ≫= k).
Proof.
  intros Hm Hk st. unfold mbind, M_bind. specialize (Hm st).
  destruct (m st) as [[a|e] st1]; simpl in *; [|done].
  by rewrite Hk.
Qed.

Lemma preserves_fmap (g : A → B) (m : M A) :
  preserves proj m → preserves proj (g <$> m).
Proof.
  intros Hm st. unfold fmap, M_fmap. specialize (Hm st).
  by destruct (m st) as [[a|e] st1].
Qed.

Lemma preserves_call (f : DataStore → A * DataStore) :
  (∀ st, proj (f st).2 = proj st) → preserves proj (call f).
Proof. intros Hf st. unfold call. specialize (Hf st). by destruct (f st). Qed.

End Preserves.

Lemma preserves_modify {C : Type} (proj : DataStore → C) (f : DataStore → DataStore) :
  (∀ st, proj (f st) = proj st) → preserves proj (modify f).
Proof. intros Hf st. apply Hf. Qed.

(** A method of the store that does not write the component. *)
Ltac store_frame :=
  intros ?;
  cbv beta zeta delta
    [ Store.createUser Store.updateUser Store.deleteUser
      Store.createListing Store.updateListing Store.deleteListing
      Orders.createOrder Orders.updateOrder Orders.deleteOrder
      Orders.cancelOrder Orders.updateOrderStatus Store.merge_at
      Sessions.addSession Sessions.removeSession ];
  repeat case_match; reflexivity.

Ltac preserves_step :=
  first
    [ apply preserves_ret
    | apply preserves_throw
    | apply preserves_gets
    | apply preserves_bind; [|intros ?]
    | apply preserves_fmap
    | apply preserves_call; store_frame
    | apply preserves_modify; store_frame
    | match goal with
      | |- preserves _ (match ?x with _ => _ end) => destruct x
      end ].

Ltac unfold_resolvers :=
  cbv beta zeta delta
    [ Server.resolve
      UserResolvers.user UserResolvers.createUser UserResolvers.updateUser
      UserResolvers.deleteUser AuthResolvers.login AuthResolvers.logout
      ListingResolvers.listing ListingResolvers.listings
      ListingResolvers.createListing ListingResolvers.updateListing
      ListingResolvers.deleteListing
      OrderResolvers.order OrderResolvers.orders OrderResolvers.createOrder
      OrderResolvers.updateOrder OrderResolvers.deleteOrder
      OrderResolvers.cancelOrder OrderResolvers.updateOrderStatus ];
  unfold_guards.

Ltac preserves_resolver := unfold_resolvers; repeat preserves_step.

Section Frame.
Context `{P : Platform}.
Context (op : Server.operation) (context : ReqContext) (env : Env).

Lemma resolve_keeps_users :
  Api.writes_users op = false →
  preserves (λ st, (users st, nextUserId st)) (Server.resolve op context env).
Proof. destruct op; intros Hop; try done; preserves_resolver. Qed.

Lemma resolve_keeps_listings :
  Api.writes_listings op = false →
  preserves (λ st, (listings st, nextListingId st)) (Server.resolve op context env).
Proof. destruct op; intros Hop; try done; preserves_resolver. Qed.

Lemma resolve_keeps_orders :
  Api.writes_orders op = false →
  preserves (λ st, (orders st, nextOrderId st)) (Server.resolve op context env).
Proof. destruct op; intros Hop; try done; preserves_resolver. Qed.

Lemma resolve_keeps_sessions :
  Api.writes_sessions op = false →
  preserves sessions (Server.resolve op context env).
Proof. destruct op; intros Hop; try done; preserves_resolver. Qed.

(** X3.  Each operation writes the tables of its own kind only: what a
    user operation does leaves listings, orders and sessions alone, and
    so on; in particular deleting a user or a listing deletes nothing
    else. *)
Theorem resolve_frame (st : DataStore) :
  let st' := (Server.resolve op context env st).2 in
  (Api.writes_users op = false →
   users st' = users st ∧ nextUserId st' = nextUserId st) ∧
  (Api.writes_listings op = false →
   listings st' = listings st ∧ nextListingId st' = nextListingId st) ∧
  (Api.writes_orders op = false →
   orders st' = orders st ∧ nextOrderId st' = nextOrderId st) ∧
  (Api.writes_sessions op = false → sessions st' = sessions st).
Proof.
  simpl. split; [|split; [|split]]; intros Hop.
  - by injection (resolve_keeps_users Hop st).
  - by injection (resolve_keeps_listings Hop st).
  - by injection (resolve_keeps_orders Hop st).
  - by apply resolve_keeps_sessions.
Qed.

(** X4.  A query changes nothing in the store. *)
Theorem query_reads_only (st : DataStore) :
  Api.is_query op = true → (Server.resolve op context env st).2 = st.
Proof.
  intros Hop.
  assert (reads (Server.resolve op context env)) as Hreads
    by (destruct op; try done; unfold Server.resolve; apply reads_fmap;
        first [apply listings_reads|unfold_resolvers; reads_all]).
  apply Hreads.
Qed.

Lemma resolve_anonymous (st : DataStore) :
  ctx_user context = None →
  Api.requires_auth op = true →
  Server.resolve op context env st = (Err Auth.authentication_required, st).
Proof.
  intros Huser Hop. destruct op; try done; unfold_resolvers;
    unfold fmap, M_fmap, mbind, M_bind, throw; by rewrite Huser.
Qed.

(** X5.  Without an authenticated user, every operation other than the
    three public queries, the registration and the login is refused
    with "Authentication required", before anything else is looked
    at. *)
Theorem anonymous_rejected (st : DataStore) :
  ctx_user context = None →
  Api.requires_auth op = true →
  Server.resolve op context env st = (Err Auth.authentication_required, st).
Proof. apply resolve_anonymous. Qed.

End Frame.

Lemma resolve_frame_witness :
  users (Server.resolve (P := Fixture.platform) (Server.MDeleteListing 1)
           Fixture.asJohn Fixture.env Fixture.store).2
  = users Fixture.store.
Proof.
  destruct (resolve_frame (P := Fixture.platform) (Server.MDeleteListing 1)
              Fixture.asJohn Fixture.env Fixture.store) as [Husers _].
  by destruct (Husers eq_refl).
Defined.

Lemma query_reads_only_witness :
  (Server.resolve (P := Fixture.platform) (Server.QOrder 1)
     Fixture.asJane Fixture.env Fixture.store).2 = Fixture.store.
Proof. by apply query_reads_only. Defined.

Lemma anonymous_rejected_witness :
  Server.resolve (P := Fixture.platform) (Server.MDeleteUser 1)
    anonymous Fixture.env Fixture.store
  = (Err Auth.authentication_required, Fixture.store).
Proof. by apply anonymous_rejected. Defined.

Lemma failure_leaves_store_witness :
  Server.resolve (P := Fixture.platform) (Server.MCancelOrder 1 None) anonymous
    Fixture.env Fixture.store
  = (Err Auth.authentication_required, Fixture.store) ∧
  Fixture.store = Fixture.store.
Proof.
  assert (Server.resolve (P := Fixture.platform) (Server.MCancelOrder 1 None) anonymous
            Fixture.env Fixture.store
          = (Err Auth.authentication_required, Fixture.store)) as Hrun
    by (by apply resolve_anonymous).
  split; [exact Hrun|]. exact (failure_leaves_store _ _ _ _ _ _ Hrun).
Defined.

Lemma error_code_known_witness :
  exn_code Auth.authentication_required ∈ Api.error_codes ∧
  ∃ st',
    Server.resolve (P := Fixture.platform) (Server.QListings (Some searchPhone))
      anonymous Fixture.env withoutTitle
    = (Err (JsError "Cannot read properties of null (reading 'toLowerCase')"), st') ∧
    exn_code (JsError "Cannot read properties of null (reading 'toLowerCase')")
    = "INTERNAL_SERVER_ERROR" ∧
    exn_code (JsError "Cannot read properties of null (reading 'toLowerCase')")
    ∈ Api.error_codes.
Proof.
  split.
  - assert (Server.resolve (P := Fixture.platform) (Server.MCancelOrder 1 None)
              anonymous Fixture.env Fixture.store
            = (Err Auth.authentication_required, Fixture.store)) as Hrun
      by (by apply resolve_anonymous).
    exact (error_code_known _ _ _ _ _ _ Hrun).
  - assert ((Server.resolve (P := Fixture.platform)
               (Server.QListings (Some searchPhone)) anonymous Fixture.env
               withoutTitle).1
            = Err (JsError "Cannot read properties of null (reading 'toLowerCase')"))
      as Hresult by (vm_compute; reflexivity).
    destruct (Server.resolve (P := Fixture.platform)
                (Server.QListings (Some searchPhone)) anonymous Fixture.env
                withoutTitle) as [r st'] eqn:Hrun.
    simpl in Hresult. subst r. exists st'. split; [reflexivity|].
    split; [reflexivity|]. exact (error_code_known _ _ _ _ _ _ Hrun).
Defined.

(** ** The context of a request *)

Lemma substring_all (s : string) (k : nat) :
  (String.length s ≤ k)%nat → String.substring 0 k s = s.
Proof.
  revert k. induction s as [|c s IH]; intros [|k] Hk; simpl in *; try done; try lia.
  f_equal. apply IH. lia.
Qed.

Lemma replace_Bearer (t : string) : Server.replace "Bearer " "" ("Bearer " +:+ t) = t.
Proof.
  change ("Bearer " +:+ t)
    with (String "B" (String "e" (String "a" (String "r" (String "e"
            (String "r" (String " " t))))))).
  cbn [Server.replace String.prefix Ascii.ascii_dec String.length String.substring].
  simpl. assert (String.prefix "" t = true) as -> by (by destruct t).
  simpl. apply substring_all. lia.
Qed.

Section CreateContext.
Context `{P : Platform}.
Context (req : Server.Request) (env : Env) (t : string).
Hypothesis Hheader : Server.authorization req = Some ("Bearer " +:+ t).

Lemma createContext_token : ctx_token (Server.createContext req env) = Some t.
Proof.
  unfold Server.createContext. rewrite Hheader.
  cbn [fmap option_fmap option_map ctx_token]. by rewrite replace_Bearer.
Qed.

Lemma createContext_user :
  ctx_user (Server.createContext req env)
  = if String.eqb t "" then None
    else match jwt_verify t Auth.JWT_SECRET (nowMs env) with
         | inr decoded => Some decoded
         | inl _ => None
         end.
Proof.
  unfold Server.createContext. rewrite Hheader.
  cbn [fmap option_fmap option_map ctx_user]. rewrite replace_Bearer.
  by destruct (String.eqb t "").
Qed.

(** X6.  The context of a request with the header
    [Authorization: Bearer <token>] carries that token, and carries a
    user exactly when the token is not empty and [verifyToken] accepts
    it; the user is then the decoded payload. *)
Theorem createContext_bearer :
  ctx_token (Server.createContext req env) = Some t ∧
  ∀ decoded st,
    ctx_user (Server.createContext req env) = Some decoded
    ↔ t ≠ "" ∧ Auth.verifyToken t env st = (Ok decoded, st).
Proof.
  split; [apply createContext_token|]. intros decoded st.
  rewrite createContext_user. unfold Auth.verifyToken.
  destruct (String.eqb_spec t "") as [->|Ht].
  - split; [done|]. by intros [? _].
  - destruct (jwt_verify t Auth.JWT_SECRET (nowMs env)) as [message|d].
    + split; [done|]. by intros [_ ?].
    + split.
      * by intros [= ->].
      * by intros [_ [= ->]].
Qed.

End CreateContext.

Section Unauthenticated.
Context `{P : Platform}.
Context (req : Server.Request) (op : Server.operation) (env : Env) (st : DataStore).

(** X7.  A request for a protected operation that comes without an
    [Authorization] header, or with a token that [jwt.verify] rejects,
    is answered with "Authentication required" and changes nothing; the
    reason for which the token was rejected is not reported. *)
Theorem handle_unauthenticated :
  Api.requires_auth op = true →
  match Server.authorization req with
  | None => True
  | Some header =>
      ∃ t message, header = "Bearer " +:+ t ∧
                   jwt_verify t Auth.JWT_SECRET (nowMs env) = inl message
  end →
  Server.handle req op env st = (Err Auth.authentication_required, st).
Proof.
  intros Hop Hheader. unfold Server.handle. apply resolve_anonymous; [|done].
  destruct (Server.authorization req) as [header|] eqn:Hreq.
  - destruct Hheader as (t & message & -> & Hverify).
    rewrite (createContext_user req env t Hreq), Hverify. by case_match.
  - unfold Server.createContext. by rewrite Hreq.
Qed.

End Unauthenticated.

Lemma createContext_bearer_witness :
  ctx_token (Server.createContext (P := Fixture.platform) Fixture.janesRequest Fixture.env)
  = Some "jwt.jane@example.com".
Proof.
  by destruct (createContext_bearer (P := Fixture.platform) Fixture.janesRequest
                 Fixture.env "jwt.jane@example.com" eq_refl).
Defined.

Lemma handle_unauthenticated_witness :
  Server.handle (P := Fixture.platform) (Server.mkRequest (Some "Bearer stale"))
    (Server.MDeleteOrder 1) Fixture.env Fixture.store
  = (Err Auth.authentication_required, Fixture.store).
Proof.
  apply handle_unauthenticated; [reflexivity|].
  exists "stale", "invalid token". by split.
Defined.

(** ** The shape of an e-mail address *)

Section EmailShape.

Lemma is_at_true (c : N) : Validation.is_at c = true ↔ c = 64%N.
Proof. apply N.eqb_eq. Qed.

Lemma split_at_sign_Some (cs l d : list N) :
  Validation.split_at_sign cs = Some (l, d) →
  cs = l ++ 64%N :: d ∧ forallb (λ c, negb (Validation.is_at c)) l = true.
Proof.
  revert l. induction cs as [|c cs IH]; intros l; simpl; [done|].
  destruct (Validation.is_at c) eqn:Hc.
  - intros [= <- <-]. apply is_at_true in Hc as ->. by split.
  - destruct (Validation.split_at_sign cs) as [[l' d']|]; simpl; [|done].
    intros [= <- <-]. destruct (IH l' eq_refl) as [-> Hl]. simpl.
    by rewrite Hc, Hl.
Qed.

Lemma split_at_sign_app (l d : list N) :
  forallb (λ c, negb (Validation.is_at c)) l = true →
  Validation.split_at_sign (l ++ 64%N :: d) = Some (l, d).
Proof.
  induction l as [|c l IH]; simpl; [done|].
  intros [Hc Hl]%andb_prop. apply negb_true_iff in Hc. rewrite Hc.
  by rewrite (IH Hl).
Qed.

(** A dot strictly inside the list. *)
Lemma inner_dot (d : list N) :
  existsb Validation.is_dot (removelast (tail d)) = true ↔
  ∃ d1 d2, d = d1 ++ 46%N :: d2 ∧ d1 ≠ [] ∧ d2 ≠ [].
Proof.
  split.
  - destruct d as [|x d']; simpl; [done|].
    destruct (decide (d' = [])) as [->|Hne]; [done|].
    destruct (exists_last Hne) as (m & y & ->).
    rewrite removelast_last.
    intros (c & Hin & Hc)%existsb_exists. apply N.eqb_eq in Hc as ->.
    apply in_split in Hin as (a & b & ->).
    exists (x :: a), (b ++ [y]). split; [|split].
    + simpl. by rewrite <- app_assoc.
    + done.
    + by destruct b.
  - intros (d1 & d2 & -> & Hd1 & Hd2).
    destruct d1 as [|x a]; [done|]. simpl.
    rewrite removelast_app by done. rewrite existsb_app. simpl.
    destruct d2; [done|]. simpl. apply orb_true_r.
Qed.

Lemma is_space_spec (c : N) : Validation.is_space c = true ↔ c ∈ white_space.
Proof.
  unfold Validation.is_space, white_space.
  rewrite !orb_true_iff, !andb_true_iff, !N.leb_le, !N.eqb_eq.
  rewrite !elem_of_cons, elem_of_nil. lia.
Qed.

Lemma plain_split (l : list N) :
  Forall plain_char l ↔
  forallb (λ c, negb (Validation.is_space c)) l = true ∧
  forallb (λ c, negb (Validation.is_at c)) l = true.
Proof.
  induction l as [|c l IH]; simpl; [by split; [|constructor]|].
  rewrite Forall_cons, IH, !andb_true_iff, !negb_true_iff. unfold plain_char.
  rewrite <- !not_true_iff_false, is_space_spec, is_at_true. tauto.
Qed.

(** X8.  What the pattern [/^[^\s@]+@[^\s@]+\.[^\s@]+$/] of
    [validateEmail] accepts: the strings whose code points read
    [l@d1.d2] with three non-empty parts free of [@] and of the
    characters of [\s], the white space of Unicode included (U+00A0,
    U+2028 and the like). *)
Theorem email_shape_spec (s : string) :
  Validation.email_shape s = true ↔
  ∃ l d1 d2 : list N,
    JS.code_points s = l ++ 64%N :: d1 ++ 46%N :: d2 ∧
    l ≠ [] ∧ d1 ≠ [] ∧ d2 ≠ [] ∧
    Forall plain_char (l ++ d1 ++ d2).
Proof.
  unfold Validation.email_shape. cbv zeta. split.
  - intros [Hspace Hrest]%andb_prop.
    destruct (Validation.split_at_sign _) as [[l d]|] eqn:Hsplit; [|done].
    apply andb_prop in Hrest as [[Hl Hd]%andb_prop Hdot].
    apply split_at_sign_Some in Hsplit as [Hcs Hlat].
    apply inner_dot in Hdot as (d1 & d2 & -> & Hd1 & Hd2).
    exists l, d1, d2. repeat split; try done.
    + intros ->. done.
    + rewrite Hcs in Hspace.
      rewrite forallb_app in Hspace. simpl in Hspace.
      rewrite forallb_app in Hspace, Hd. simpl in Hspace, Hd.
      rewrite !andb_true_iff in Hspace, Hd.
      destruct Hspace as [Hls [H1s H2s]%andb_prop], Hd as [H1a H2a].
      rewrite !Forall_app, !plain_split. tauto.
  - intros (l & d1 & d2 & Hcs & Hl & Hd1 & Hd2 & Hplain).
    rewrite !Forall_app, !plain_split in Hplain.
    destruct Hplain as ([Hls Hla] & [H1s H1a] & [H2s H2a]).
    rewrite Hcs, split_at_sign_app by done.
    rewrite !andb_true_iff. repeat split.
    + rewrite forallb_app. simpl. rewrite forallb_app. simpl.
      by rewrite Hls, H1s, H2s.
    + by destruct l.
    + rewrite forallb_app. simpl. by rewrite H1a, H2a.
    + apply inner_dot. by exists d1, d2.
Qed.

End EmailShape.

(** ** The pages of the orders *)

Lemma slice_subseteq {A : Type} (l : list A) (start stop : Z) : JS.slice l start stop ⊆ l.
Proof. unfold JS.slice. etrans; [apply subseteq_take|apply subseteq_drop]. Qed.

Lemma elem_of_filterOrders (filter : obj) (rows : list obj) (o : obj) :
  o ∈ Orders.filterOrders filter rows →
  o ∈ rows ∧
  (JS.truthy (filter !! "userId") = true →
   JS.strict_eq (o !! "userId") (filter !! "userId") = true) ∧
  (JS.truthy (filter !! "status") = true →
   JS.strict_eq (o !! "status") (filter !! "status") = true).
Proof.
  unfold Orders.filterOrders. rewrite !list_elem_of_In.
  destruct (JS.truthy (filter !! "userId")), (JS.truthy (filter !! "status"));
    rewrite ?filter_In; intuition discriminate.
Qed.

Section Pages.
Context (filter : obj) (st : DataStore) (L : Z).
Hypothesis HL : 0 < L.

Let filtered : list obj := Orders.filterOrders filter (orders st).

Lemma getOrders_page (page : Z) :
  1 ≤ page →
  Orders.page_orders (Orders.getOrders filter (Orders.mkPagination page L) st)
  = take (Z.to_nat L) (drop (Z.to_nat ((page - 1) * L)) filtered).
Proof using HL.
  intros Hpage. unfold Orders.getOrders. simpl. fold filtered.
  apply slice_take_drop; nia.
Qed.

(** X9.  The pages of a listing of orders follow one another without a
    gap or an overlap: with a limit [L ≥ 1], the pages 1 to [k] put end
    to end are the first [k * L] orders that pass the filter, and all of
    them once [k * L] reaches their number. *)
Theorem pages_cover (k : nat) :
  mjoin ((λ p : nat,
            Orders.page_orders
              (Orders.getOrders filter (Orders.mkPagination (Z.of_nat p) L) st))
         <$> seq 1 k)
  = take (k * Z.to_nat L) filtered ∧
  (Z.of_nat (length filtered) ≤ Z.of_nat k * L →
   mjoin ((λ p : nat,
             Orders.page_orders
               (Orders.getOrders filter (Orders.mkPagination (Z.of_nat p) L) st))
          <$> seq 1 k)
   = filtered).
Proof using HL.
  assert (mjoin ((λ p : nat,
            Orders.page_orders
              (Orders.getOrders filter (Orders.mkPagination (Z.of_nat p) L) st))
         <$> seq 1 k)
          = take (k * Z.to_nat L) filtered) as Hcat.
  { assert (∀ (f : nat → list obj) (p : nat), mjoin (f <$> [p]) = f p) as Hone
      by (intros; simpl; apply app_nil_r).
    induction k as [|k IH]; [done|].
    rewrite seq_S, fmap_app, join_app, IH, Hone.
    rewrite getOrders_page by lia.
    replace (Z.to_nat ((Z.of_nat (1 + k) - 1) * L)) with (k * Z.to_nat L)%nat by nia.
    rewrite take_take_drop. f_equal. lia. }
  split; [done|]. intros Hall. rewrite Hcat. apply take_ge. nia.
Qed.

(** X10.  With a limit [L ≥ 1], [hasNextPage] is true exactly when the
    following page has an order on it. *)
Theorem hasNextPage_iff (page : Z) :
  1 ≤ page →
  Orders.hasNextPage
    (Orders.page_pagination (Orders.getOrders filter (Orders.mkPagination page L) st))
  = true
  ↔ Orders.page_orders (Orders.getOrders filter (Orders.mkPagination (page + 1) L) st)
    ≠ [].
Proof using HL.
  intros Hpage. rewrite getOrders_page by lia.
  unfold Orders.getOrders. simpl. fold filtered.
  destruct (ceil_div_bounds (Z.of_nat (length filtered)) L HL) as (p & -> & Hp).
  simpl. rewrite Z.ltb_lt.
  replace (page + 1 - 1) with page by lia.
  assert (page < p ↔ page * L < Z.of_nat (length filtered)) as -> by nia.
  split.
  - intros Hlt Hnil. apply (f_equal length) in Hnil.
    rewrite length_take, length_drop in Hnil. simpl in Hnil. nia.
  - intros Hne. destruct (decide (page * L < Z.of_nat (length filtered))); [done|].
    destruct Hne. rewrite drop_ge by nia. apply take_nil.
Qed.

End Pages.

Section OwnOrders.
Context (context : ReqContext) (u : obj) (n : Z).
Context (filter : option obj) (pagination : option Orders.Pagination).
Context (st st' : DataStore) (r : Orders.OrdersPage).
Hypothesis Huser : ctx_user context = Some u.
Hypothesis Hid : u !! "id" = Some (VInt n).
Hypothesis Hn : n ≠ 0.

(** The [userId] of the filter, when there is one, is an integer, as the
    ids of the store are. *)
Hypothesis Hfilter :
  match default ∅ filter !! "userId" with
  | None | Some (VInt _) => True
  | _ => False
  end.

Lemma orders_own :
  OrderResolvers.orders filter pagination context st = (Ok r, st') →
  ∀ o, o ∈ Orders.page_orders r → JS.strict_eq (o !! "userId") (Some (VInt n)) = true.
Proof using Huser Hid Hn Hfilter.
  unfold OrderResolvers.orders, mbind, M_bind, gets.
  rewrite (requireAuth_ok _ _ _ Huser). cbv beta iota zeta. rewrite Hid.
  intros Hrun o Ho.
  destruct (JS.truthy (default ∅ filter !! "userId")
            && negb (JS.strict_eq (default ∅ filter !! "userId") (Some (VInt n))))
    eqn:Hcheck; [done|].
  injection Hrun as <- <-.
  apply slice_subseteq, elem_of_filterOrders in Ho as (_ & Hown & _).
  rewrite lookup_assign_eq in Hown.
  assert (JS.or (default ∅ filter !! "userId") (Some (VInt n)) = Some (VInt n)) as Hor.
  { unfold JS.or. destruct (default ∅ filter !! "userId") as [[]|]; simpl in *;
      try done.
    case_match; [|done]. rewrite andb_true_l in Hcheck.
    apply negb_false_iff in Hcheck. f_equal. f_equal. lia. }
  rewrite Hor in Hown. apply Hown. simpl. apply negb_true_iff. lia.
Qed.

Lemma order_own (id : Z) (o : obj) :
  OrderResolvers.order id context st = (Ok o, st') →
  JS.strict_eq (o !! "userId") (Some (VInt n)) = true.
Proof using Huser Hid.
  unfold OrderResolvers.order, mbind, M_bind, gets.
  rewrite (requireAuth_ok _ _ _ Huser). cbv beta iota. rewrite Hid.
  destruct (Orders.getOrderById (Some (VInt id)) st) as [found|]; [|done].
  destruct (JS.strict_eq (found !! "userId") (Some (VInt n))) eqn:Hown; [|done].
  by intros [= <- <-].
Qed.

(** X11.  The two queries for orders never show an order of somebody
    else: whatever the filter and the page, every order that [orders]
    returns, and the order that [order] returns, carries the id of the
    caller as its [userId]. *)
Theorem orders_only_own :
  (OrderResolvers.orders filter pagination context st = (Ok r, st') →
   ∀ o, o ∈ Orders.page_orders r →
        JS.strict_eq (o !! "userId") (Some (VInt n)) = true) ∧
  (∀ id o, OrderResolvers.order id context st = (Ok o, st') →
           JS.strict_eq (o !! "userId") (Some (VInt n)) = true).
Proof using Huser Hid Hn Hfilter.
  split; [apply orders_own|apply order_own].
Qed.

End OwnOrders.

Lemma pages_cover_witness :
  mjoin ((λ p : nat,
            Orders.page_orders
              (Orders.getOrders ∅ (Orders.mkPagination (Z.of_nat p) 1) Fixture.store))
         <$> seq 1 1)
  = Orders.filterOrders ∅ (orders Fixture.store).
Proof.
  apply (pages_cover ∅ Fixture.store 1 ltac:(lia) 1). vm_compute. by intros [=].
Defined.

Lemma hasNextPage_iff_witness :
  Orders.hasNextPage
    (Orders.page_pagination
       (Orders.getOrders ∅ (Orders.mkPagination 1 1) Fixture.store)) = true
  ↔ Orders.page_orders (Orders.getOrders ∅ (Orders.mkPagination (1 + 1) 1) Fixture.store)
    ≠ [].
Proof. apply hasNextPage_iff; lia. Defined.

Lemma orders_only_own_witness :
  Forall (λ o : obj, JS.strict_eq (o !! "userId") (Some (VInt 2)) = true)
    (Orders.page_orders
       (Orders.getOrders (JS.assign "userId" (Some (VInt 2)) ∅)
          Orders.defaultPagination Fixture.store)).
Proof.
  assert (Fixture.jane !! "id" = Some (VInt 2)) as Hjane by (by vm_compute).
  destruct (orders_only_own Fixture.asJane Fixture.jane 2 None None
              Fixture.store Fixture.store
              (Orders.getOrders (JS.assign "userId" (Some (VInt 2)) ∅)
                 Orders.defaultPagination Fixture.store)
              eq_refl Hjane) as [Hown _]; [done..|].
  apply Forall_forall, Hown. unfold OrderResolvers.orders, mbind, M_bind, gets.
  rewrite (requireAuth_ok _ Fixture.jane) by done. cbv beta iota zeta.
  by rewrite Hjane.
Defined.

(** ** Registration, login and logout *)

Lemma find_app_None {A : Type} (p : A → bool) (l l' : list A) :
  find p l = None → find p (l ++ l') = find p l'.
Proof.
  induction l as [|x l IH]; simpl; [done|]. by destruct (p x).
Qed.

Lemma lookup_literal_3 (k1 k2 k3 : string) (v1 v2 v3 : jsval) :
  k1 ≠ k2 → k1 ≠ k3 → k2 ≠ k3 →
  JS.literal [(k1, v1); (k2, v2); (k3, v3)] !! k1 = v1 ∧
  JS.literal [(k1, v1); (k2, v2); (k3, v3)] !! k2 = v2 ∧
  JS.literal [(k1, v1); (k2, v2); (k3, v3)] !! k3 = v3 ∧
  ∀ k, k1 ≠ k → k2 ≠ k → k3 ≠ k →
       JS.literal [(k1, v1); (k2, v2); (k3, v3)] !! k = None.
Proof.
  intros H12 H13 H23. unfold JS.literal. simpl.
  rewrite !lookup_assign_eq.
  rewrite !(lookup_assign_ne k3) by done. rewrite !lookup_assign_eq.
  rewrite !(lookup_assign_ne k2) by done. rewrite !lookup_assign_eq.
  repeat split. intros k H1 H2 H3. by rewrite !lookup_assign_ne.
Qed.

Lemma lookup_spread (base ext : obj) (k : string) :
  JS.spread base ext !! k
  = match ext !! k with Some v => Some v | None => base !! k end.
Proof.
  unfold JS.spread. rewrite lookup_union.
  by destruct (ext !! k), (base !! k).
Qed.

Section Registration.
Context `{P : Platform}.

(** The user that [createUser] stores for a password [pw]. *)
Let stored (input : obj) (env : Env) (st : DataStore) (pw : string) : obj * DataStore :=
  Store.createUser
    (JS.literal [("username", input !! "username");
                 ("email", input !! "email");
                 ("password", Some (VStr (bcrypt_hash pw 10 (salt env))))])
    (nowISO env) st.

Ltac unfold_createUser :=
  unfold UserResolvers.createUser, UserResolvers.hashPassword,
    Validation.validateRequired, Validation.validateUsername,
    Validation.validateEmail, Validation.validatePassword, valid_registration,
    mbind, M_bind, gets, call, throw, mret, M_ret.

Lemma createUser_invalid input env st :
  valid_registration input = false →
  ∃ e, UserResolvers.createUser input env st = (Err e, st) ∧
       exn_code e = "VALIDATION_ERROR".
Proof.
  unfold_createUser. intros Hvalid.
  destruct (Validation.missing (input !! "username")); [by eexists|].
  destruct (Validation.missing (input !! "email")); [by eexists|].
  destruct (Validation.missing (input !! "password")); [by eexists|].
  destruct (negb (JS.truthy (input !! "username")) || _); [by eexists|].
  destruct (Validation.emailRegex_test (input !! "email")); [|by eexists].
  destruct (negb (JS.truthy (input !! "password")) || _); [by eexists|].
  done.
Qed.

Lemma createUser_valid input env st :
  valid_registration input = true →
  UserResolvers.createUser input env st
  = match Store.getUserByEmail (input !! "email") st with
    | Some _ => (Err UserResolvers.email_conflict, st)
    | None =>
        match input !! "password" with
        | Some (VStr pw) =>
            (Ok (userWithoutPassword (stored input env st pw).1),
             (stored input env st pw).2)
        | v =>
            (Err (JsError ("Illegal arguments: " +:+ JS.typeof v +:+ ", number")), st)
        end
    end.
Proof.
  unfold stored. unfold_createUser. intros Hvalid.
  destruct (Validation.missing (input !! "username")); [done|].
  destruct (Validation.missing (input !! "email")); [done|].
  destruct (Validation.missing (input !! "password")); [done|].
  destruct (negb (JS.truthy (input !! "username")) || _); [done|].
  destruct (Validation.emailRegex_test (input !! "email")); [|done].
  destruct (negb (JS.truthy (input !! "password")) || _); [done|].
  simpl. destruct (Store.getUserByEmail _ st); [done|].
  by destruct (input !! "password") as [[]|].
Qed.

Lemma createUser_Ok_valid input env st r st' :
  UserResolvers.createUser input env st = (Ok r, st') →
  valid_registration input = true.
Proof.
  intros Hrun. destruct (valid_registration input) eqn:Hvalid; [done|].
  destruct (createUser_invalid input env st Hvalid) as (e & He & _).
  by rewrite He in Hrun.
Qed.

Lemma stored_fields input env st (pw : string) :
  (stored input env st pw).1 !! "id" = Some (VInt (nextUserId st)) ∧
  (stored input env st pw).1 !! "username" = input !! "username" ∧
  (stored input env st pw).1 !! "email" = input !! "email" ∧
  (stored input env st pw).1 !! "password"
  = Some (VStr (bcrypt_hash pw 10 (salt env))).
Proof.
  unfold stored, Store.createUser. cbn [fst].
  destruct (lookup_literal_3 "username" "email" "password"
              (input !! "username") (input !! "email")
              (Some (VStr (bcrypt_hash pw 10 (salt env)))))
    as (Hu & He & Hp & Hother); try done.
  rewrite !lookup_insert_ne by done. rewrite !lookup_spread, Hu, He, Hp.
  rewrite Hother by done. rewrite lookup_singleton_eq.
  rewrite !lookup_singleton_ne by done.
  repeat split; by case_match.
Qed.

(** A successful registration, taken apart. *)
Lemma createUser_inv input env st r st' :
  UserResolvers.createUser input env st = (Ok r, st') →
  valid_registration input = true ∧
  Store.getUserByEmail (input !! "email") st = None ∧
  ∃ pw u,
    input !! "password" = Some (VStr pw) ∧
    r = userWithoutPassword u ∧
    st' = mkStore (users st ++ [u]) (listings st) (orders st) (sessions st)
                  (nextUserId st + 1) (nextListingId st) (nextOrderId st) ∧
    u !! "id" = Some (VInt (nextUserId st)) ∧
    u !! "username" = input !! "username" ∧
    u !! "email" = input !! "email" ∧
    u !! "password" = Some (VStr (bcrypt_hash pw 10 (salt env))).
Proof.
  intros Hrun. pose proof (createUser_Ok_valid _ _ _ _ _ Hrun) as Hvalid.
  rewrite (createUser_valid _ _ _ Hvalid) in Hrun.
  destruct (Store.getUserByEmail (input !! "email") st) eqn:Hfree; [done|].
  destruct (input !! "password") as [[| | |pw| |]|] eqn:Hpw; try done.
  injection Hrun as <- <-.
  split; [done|]. split; [done|].
  exists pw, (stored input env st pw).1. repeat split; try apply stored_fields.
Qed.

Lemma createUser_fresh input env st (pw : string) :
  valid_registration input = true →
  Store.getUserByEmail (input !! "email") st = None →
  input !! "password" = Some (VStr pw) →
  ∃ u,
    UserResolvers.createUser input env st
    = (Ok (userWithoutPassword u),
       mkStore (users st ++ [u]) (listings st) (orders st) (sessions st)
               (nextUserId st + 1) (nextListingId st) (nextOrderId st)) ∧
    u !! "id" = Some (VInt (nextUserId st)) ∧
    u !! "username" = input !! "username" ∧
    u !! "email" = input !! "email" ∧
    u !! "password" = Some (VStr (bcrypt_hash pw 10 (salt env))).
Proof.
  intros Hvalid Hfree Hpw. exists (stored input env st pw).1.
  rewrite (createUser_valid _ _ _ Hvalid), Hfree, Hpw.
  split; [done|]. apply stored_fields.
Qed.

Lemma utf16_length_empty : JS.utf16_length "" = 0%nat.
Proof. reflexivity. Qed.

Lemma length_check (s : string) (n : Z) :
  0 < n →
  negb (negb (JS.truthy (Some (VStr s)))
        || JS.ltb (JS.length (Some (VStr s))) (Some (VInt n))) = true
  ↔ n ≤ Z.of_nat (JS.utf16_length s).
Proof.
  intros Hn. unfold JS.ltb, JS.length. cbn [JS.truthy].
  rewrite negb_true_iff, orb_false_iff, negb_false_iff, negb_true_iff.
  rewrite Z.ltb_ge, String.eqb_neq. split; [tauto|]. intros Hle. split; [|done].
  intros ->. rewrite utf16_length_empty in Hle. simpl in Hle. lia.
Qed.

Lemma missing_string (s : string) :
  negb (Validation.missing (Some (VStr s))) = true ↔ s ≠ "".
Proof. destruct s; simpl; split; try done. Qed.

(** The six checks on an input of three strings: a user name of three
    UTF-16 code units or more, an address of the shape of the pattern,
    a password of six code units or more. *)
Lemma valid_registration_strings input (username email password : string) :
  input !! "username" = Some (VStr username) →
  input !! "email" = Some (VStr email) →
  input !! "password" = Some (VStr password) →
  valid_registration input = true ↔
  (3 ≤ JS.utf16_length username)%nat ∧
  Validation.email_shape email = true ∧
  (6 ≤ JS.utf16_length password)%nat.
Proof.
  intros Hu He Hp. unfold valid_registration. rewrite Hu, He, Hp.
  rewrite !andb_true_iff, !missing_string, !length_check by lia.
  cbn [Validation.emailRegex_test]. split.
  - intros [[[[[_ _] _] Hname] Hshape] Hpw]. split; [lia|]. split; [done|lia].
  - intros (Hname & Hshape & Hpw). repeat split; try done; try lia.
    + intros ->. rewrite utf16_length_empty in Hname. lia.
    + by apply email_shape_nonempty.
    + intros ->. rewrite utf16_length_empty in Hpw. lia.
Qed.

(** X12.  What a registration comes to.  An input of three strings
    passes the six checks exactly when the user name has three UTF-16
    code units or more, the address has the shape of the pattern, and
    the password has six code units or more.  An input that fails a
    check is refused with VALIDATION_ERROR; a valid one whose e-mail
    address is taken is refused with CONFLICT; otherwise the user is
    appended to the table with the next id, and what is stored as its
    password is the bcrypt hash, while the caller gets the user without
    it. *)
Theorem registration_outcome input env st :
  (∀ username email password : string,
     input !! "username" = Some (VStr username) →
     input !! "email" = Some (VStr email) →
     input !! "password" = Some (VStr password) →
     valid_registration input = true ↔
     (3 ≤ JS.utf16_length username)%nat ∧
     Validation.email_shape email = true ∧
     (6 ≤ JS.utf16_length password)%nat) ∧
  (valid_registration input = false →
   ∃ e, UserResolvers.createUser input env st = (Err e, st) ∧
        exn_code e = "VALIDATION_ERROR") ∧
  (valid_registration input = true →
   ∀ other, Store.getUserByEmail (input !! "email") st = Some other →
   UserResolvers.createUser input env st = (Err UserResolvers.email_conflict, st)) ∧
  (valid_registration input = true →
   Store.getUserByEmail (input !! "email") st = None →
   ∀ pw, input !! "password" = Some (VStr pw) →
   ∃ u,
     UserResolvers.createUser input env st
     = (Ok (userWithoutPassword u),
        mkStore (users st ++ [u]) (listings st) (orders st) (sessions st)
                (nextUserId st + 1) (nextListingId st) (nextOrderId st)) ∧
     u !! "id" = Some (VInt (nextUserId st)) ∧
     u !! "username" = input !! "username" ∧
     u !! "email" = input !! "email" ∧
     u !! "password" = Some (VStr (bcrypt_hash pw 10 (salt env)))).
Proof.
  split; [apply valid_registration_strings|].
  split; [apply createUser_invalid|]. split.
  - intros Hvalid other Hother. by rewrite (createUser_valid _ _ _ Hvalid), Hother.
  - intros Hvalid Hfree pw Hpw. by apply createUser_fresh.
Qed.

Lemma registered_by_email (st : DataStore) (u : obj) (email : string) l o s n1 n2 n3 :
  Store.getUserByEmail (Some (VStr email)) st = None →
  u !! "email" = Some (VStr email) →
  Store.getUserByEmail (Some (VStr email)) (mkStore (users st ++ [u]) l o s n1 n2 n3)
  = Some u.
Proof.
  unfold Store.getUserByEmail. simpl. intros Hfree Hu.
  rewrite (find_app_None _ _ _ Hfree). apply find_hit.
  rewrite Hu. simpl. apply String.eqb_refl.
Qed.

(** X13.  An e-mail address registers once: after a registration has
    succeeded, the same input is refused with CONFLICT, and the store
    stays as the first registration left it. *)
Theorem registration_twice input env env' st (email : string) r st' :
  input !! "email" = Some (VStr email) →
  UserResolvers.createUser input env st = (Ok r, st') →
  UserResolvers.createUser input env' st' = (Err UserResolvers.email_conflict, st').
Proof.
  intros Hemail Hrun.
  apply createUser_inv in Hrun
    as (Hvalid & Hfree & pw & u & Hpw & -> & -> & _ & _ & Hu & _).
  rewrite (createUser_valid _ _ _ Hvalid). rewrite Hemail in *.
  by rewrite (registered_by_email st u email).
Qed.

Lemma valid_registration_email input (email : string) :
  valid_registration input = true →
  input !! "email" = Some (VStr email) →
  Validation.email_shape email = true.
Proof.
  unfold valid_registration. rewrite !andb_true_iff. intros Hvalid Hemail.
  rewrite Hemail in Hvalid. tauto.
Qed.

Lemma valid_registration_password input (pw : string) :
  valid_registration input = true →
  input !! "password" = Some (VStr pw) →
  pw ≠ "".
Proof.
  unfold valid_registration. rewrite !andb_true_iff. intros Hvalid Hpw.
  rewrite Hpw in Hvalid. intros ->. by destruct Hvalid as [[[[[_ _] Hmissing] _] _] _].
Qed.

(** X14.  Who has registered can log in: on a platform whose
    [bcrypt.compare] accepts a password against its own hash, the login
    with the e-mail address and the password of a successful
    registration succeeds, returns the registered user, and opens a
    session for the token it issues. *)
Theorem register_then_login input env env' st r st' (email pw : string)
    (credentials : obj) :
  input !! "email" = Some (VStr email) →
  input !! "password" = Some (VStr pw) →
  credentials !! "email" = Some (VStr email) →
  credentials !! "password" = Some (VStr pw) →
  bcrypt_compare pw (bcrypt_hash pw 10 (salt env)) = true →
  UserResolvers.createUser input env st = (Ok r, st') →
  ∃ token st'',
    AuthResolvers.login credentials env' st' = (Ok (token, r), st'') ∧
    Sessions.isValidSession token st'' = true ∧
    same_but_sessions st' st''.
Proof.
  intros Hemail Hpw Hcemail Hcpw Hcompare Hrun.
  apply createUser_inv in Hrun
    as (Hvalid & Hfree & pw' & u & Hpw' & -> & -> & _ & _ & Hu & Hhash).
  rewrite Hpw in Hpw'. injection Hpw' as <-. rewrite Hemail in *.
  eexists _, _. split; [|split].
  - eapply (login_success credentials env' _ email pw); try done.
    + by eapply valid_registration_email.
    + by eapply valid_registration_password.
    + by apply registered_by_email.
  - unfold Sessions.isValidSession, Sessions.addSession. simpl.
    apply bool_decide_eq_true. by apply elem_of_union_l, elem_of_singleton.
  - apply same_but_sessions_set.
Qed.

End Registration.

Lemma login_session `{P : Platform} input env st token r st' :
  AuthResolvers.login input env st = (Ok (token, r), st') →
  sessions st' = {[token]} ∪ sessions st.
Proof.
  unfold AuthResolvers.login, AuthResolvers.comparePassword,
    Validation.validateRequired, Validation.validateEmail,
    mbind, M_bind, gets, modify, throw, mret, M_ret.
  intros H. by branches.
Qed.

Section Session.
Context `{P : Platform}.
Context (input : obj) (env : Env) (st st' : DataStore) (token : string) (r : obj).
Context (context : ReqContext) (u : obj).
Hypothesis Hlogin : AuthResolvers.login input env st = (Ok (token, r), st').
Hypothesis Huser : ctx_user context = Some u.
Hypothesis Htoken : ctx_token context = Some token.
Hypothesis Hnonempty : token ≠ "".

(** X15.  A login opens a session for the token it returns, and the
    logout of that token closes it again: after both, the session set
    is the one before the login without the token, and nothing else in
    the store has changed. *)
Theorem login_logout_session :
  Sessions.isValidSession token st' = true ∧
  ∃ st'',
    AuthResolvers.logout context st' = (Ok "Logout successful", st'') ∧
    Sessions.isValidSession token st'' = false ∧
    sessions st'' = sessions st ∖ {[token]} ∧
    same_but_sessions st' st''.
Proof using Hlogin Huser Htoken Hnonempty.
  pose proof (login_session _ _ _ _ _ _ Hlogin) as Hsessions.
  split.
  - unfold Sessions.isValidSession. apply bool_decide_eq_true.
    rewrite Hsessions. by apply elem_of_union_l, elem_of_singleton.
  - unfold AuthResolvers.logout, mbind, M_bind, modify.
    rewrite (requireAuth_ok _ _ _ Huser), Htoken.
    apply String.eqb_neq in Hnonempty. rewrite Hnonempty. simpl.
    eexists. split; [done|]. split; [|split].
    + unfold Sessions.isValidSession, Sessions.removeSession. simpl.
      apply bool_decide_eq_false. rewrite elem_of_difference.
      intros [_ Hout]. by apply Hout, elem_of_singleton.
    + unfold Sessions.removeSession. simpl. rewrite Hsessions.
      apply set_eq. intros x. rewrite !elem_of_difference, elem_of_union. tauto.
    + apply same_but_sessions_set.
Qed.

End Session.

Lemma registration_run :
  ∃ r,
    UserResolvers.createUser (P := Registration.platform) Registration.input
      Fixture.env Fixture.store
    = (Ok r, Registration.registered).
Proof.
  destruct (createUser_fresh (P := Registration.platform) Registration.input
              Fixture.env Fixture.store "wonderland") as (u & Hrun & _);
    [by vm_compute..|].
  exists (userWithoutPassword u). unfold Registration.registered.
  by rewrite Hrun.
Qed.

Lemma registration_outcome_witness :
  (∃ e,
     UserResolvers.createUser (P := Fixture.platform)
       (JS.literal [("username", Some (VStr "al"));
                    ("email", Some (VStr "al@example.com"));
                    ("password", Some (VStr "wonderland"))])
       Fixture.env Fixture.store
     = (Err e, Fixture.store) ∧
     exn_code e = "VALIDATION_ERROR") ∧
  (∃ e,
     UserResolvers.createUser (P := Fixture.platform) shortPassword
       Fixture.env Fixture.store
     = (Err e, Fixture.store) ∧
     exn_code e = "VALIDATION_ERROR").
Proof.
  split.
  - destruct (registration_outcome (P := Fixture.platform)
                (JS.literal [("username", Some (VStr "al"));
                             ("email", Some (VStr "al@example.com"));
                             ("password", Some (VStr "wonderland"))])
                Fixture.env Fixture.store) as (_ & Hinvalid & _).
    apply Hinvalid. by vm_compute.
  - destruct (registration_outcome (P := Fixture.platform) shortPassword
                Fixture.env Fixture.store) as (Hstrings & Hinvalid & _).
    apply Hinvalid. apply not_true_is_false.
    rewrite (Hstrings "alice" "alice@example.com" "ééé")
      by (vm_compute; reflexivity).
    assert (JS.utf16_length "ééé" = 3%nat) as -> by (vm_compute; reflexivity).
    lia.
Defined.

Lemma registration_twice_witness :
  UserResolvers.createUser (P := Registration.platform) Registration.input
    Fixture.env Registration.registered
  = (Err UserResolvers.email_conflict, Registration.registered).
Proof.
  destruct registration_run as [r Hrun].
  apply (registration_twice (P := Registration.platform) Registration.input
           Fixture.env Fixture.env Fixture.store "alice@example.com" r);
    [by vm_compute|exact Hrun].
Defined.

Lemma register_then_login_witness :
  ∃ r token st'',
    AuthResolvers.login (P := Registration.platform) Registration.credentials
      Fixture.env Registration.registered
    = (Ok (token, r), st'') ∧
    Sessions.isValidSession token st'' = true.
Proof.
  destruct registration_run as [r Hrun].
  destruct (register_then_login (P := Registration.platform) Registration.input
              Fixture.env Fixture.env Fixture.store r Registration.registered
              "alice@example.com" "wonderland" Registration.credentials)
    as (token & st'' & Hlogin & Hsession & _); [by vm_compute..|exact Hrun|].
  by exists r, token, st''.
Defined.

Lemma fixture_login_jane :
  AuthResolvers.login (P := Fixture.platform) (Fixture.login_as_jane "password")
    Fixture.env Fixture.store
  = (Ok ("jwt.jane@example.com", userWithoutPassword Store.jane),
     Sessions.addSession "jwt.jane@example.com" Fixture.store).
Proof.
  assert (Auth.generateToken (P := Fixture.platform) Store.jane Fixture.env
          = "jwt.jane@example.com") as Htoken by (by vm_compute).
  rewrite <- Htoken.
  apply (login_success (P := Fixture.platform) _ _ _ "jane@example.com" "password")
    with (hash := Store.sampleHash);
    [by vm_compute..|apply fixture_jane_by_email|by vm_compute|by vm_compute].
Qed.

Lemma login_logout_session_witness :
  Sessions.isValidSession "jwt.jane@example.com"
    (Sessions.addSession "jwt.jane@example.com" Fixture.store) = true ∧
  ∃ st'',
    AuthResolvers.logout Fixture.asJane
      (Sessions.addSession "jwt.jane@example.com" Fixture.store)
    = (Ok "Logout successful", st'') ∧
    Sessions.isValidSession "jwt.jane@example.com" st'' = false ∧
    sessions st'' = sessions Fixture.store ∖ {["jwt.jane@example.com"]} ∧
    same_but_sessions (Sessions.addSession "jwt.jane@example.com" Fixture.store) st''.
Proof.
  apply (login_logout_session (P := Fixture.platform)
           (Fixture.login_as_jane "password") Fixture.env Fixture.store _
           "jwt.jane@example.com" (userWithoutPassword Store.jane)
           Fixture.asJane Fixture.jane fixture_login_jane); done.
Defined.

(** ** Orders that are created, deleted and cancelled *)

Section DeleteOrder.
Context (id : Z) (context : ReqContext) (st st' : DataStore) (message : string).
Hypothesis Hconsistent : Lifecycle.consistent st.
Hypothesis Hrun : OrderResolvers.deleteOrder id context st = (Ok message, st').

Lemma deleteOrder_inv :
  ∃ i o u,
    ctx_user context = Some u ∧
    JS.findIndex (Store.has_id (Some (VInt id))) (orders st) = Some i ∧
    orders st !! i = Some o ∧
    Store.has_id (Some (VInt id)) o = true ∧
    st' = set_orders (delete i (orders st)) st.
Proof using Hrun.
  clear Hconsistent. revert Hrun.
  unfold OrderResolvers.deleteOrder, Auth.requireOwnership, Auth.requireAuth,
    Orders.deleteOrder, mbind, M_bind, gets, call, throw, mret, M_ret.
  intros Hrun. repeat (case_match; simplify_eq/=; try done).
  match goal with
  | H : JS.findIndex _ _ = Some ?i |- _ =>
      destruct (findIndex_Some _ _ _ H) as (o & Ho & Hid & _); exists i, o
  end.
  eexists. by repeat split.
Qed.

(** X16.  In a store with distinct order ids, which every reachable
    store is, a deleted order is gone: no order answers to its id any
    more, the [order] query for it says NOT_FOUND, and every other
    order is found as before. *)
Theorem deleteOrder_then_gone :
  Orders.getOrderById (Some (VInt id)) st' = None ∧
  OrderResolvers.order id context st' = (Err (not_found "Order" (Some (VInt id))), st') ∧
  ∀ id', id' ≠ id →
    Orders.getOrderById (Some (VInt id')) st' = Orders.getOrderById (Some (VInt id')) st.
Proof using Hconsistent Hrun.
  destruct deleteOrder_inv as (i & o & u & Huser & Hi & Ho & Hid & ->).
  assert (Orders.getOrderById (Some (VInt id)) (set_orders (delete i (orders st)) st)
          = None) as Hgone.
  { unfold Orders.getOrderById. simpl. apply find_delete_unique.
    intros j y Hj Hy. by eapply (consistent_unique st id j i y o). }
  split; [done|]. split.
  - unfold OrderResolvers.order, mbind, M_bind, gets.
    rewrite (requireAuth_ok _ _ _ Huser). cbv beta iota. by rewrite Hgone.
  - intros id' Hid'. unfold Orders.getOrderById. simpl.
    apply (find_delete_other _ _ _ o Ho).
    destruct (consistent_lookup st i o Hconsistent Ho) as (n & Hn & _).
    rewrite (has_id_int o n id Hn) in Hid. rewrite (has_id_int o n id' Hn). lia.
Qed.

End DeleteOrder.

Section CreateOrderReadBack.
Context (input : obj) (context : ReqContext) (env : Env) (st st' : DataStore).
Context (u o : obj) (n : Z).
Hypothesis Hconsistent : Lifecycle.consistent st.
Hypothesis Huser : ctx_user context = Some u.
Hypothesis Hid : u !! "id" = Some (VInt n).
Hypothesis Hrun : OrderResolvers.createOrder input context env st = (Ok o, st').

Lemma createOrder_identity :
  o !! "id" = Some (VInt (nextOrderId st)) ∧
  o !! "userId" = u !! "id" ∧
  orders st' = orders st ++ [o] ∧
  nextOrderId st' = nextOrderId st + 1.
Proof using Huser Hrun.
  clear Hconsistent Hid. revert Hrun.
  unfold OrderResolvers.createOrder, Validation.validateRequired,
    Validation.validateQuantity, mbind, M_bind, gets, call, throw, mret, M_ret,
    Orders.createOrder.
  rewrite (requireAuth_ok _ _ _ Huser). cbv beta iota zeta.
  intros Hrun. repeat (case_match; simplify_eq/=; try done).
  split; [|split; [|done]].
  - field. rewrite lookup_spread_base; [apply lookup_singleton_eq|].
    unfold JS.literal. simpl fold_left. by field.
  - field. unfold JS.spread, JS.literal. simpl fold_left.
    rewrite lookup_union. field.
    rewrite lookup_singleton_ne by done. by destruct (u !! "id").
Qed.

(** X17.  A new order can be read back: in a store with consistent
    order ids, the order that [createOrder] returns carries the next
    free id and the id of the caller as its buyer, and the [order] query
    of the same caller for that id returns it. *)
Theorem createOrder_read_back :
  o !! "id" = Some (VInt (nextOrderId st)) ∧
  o !! "userId" = Some (VInt n) ∧
  Orders.getOrderById (Some (VInt (nextOrderId st))) st' = Some o ∧
  OrderResolvers.order (nextOrderId st) context st' = (Ok o, st').
Proof using Hconsistent Huser Hid Hrun.
  destruct createOrder_identity as (Hoid & Hbuyer & Horders & _).
  rewrite Hid in Hbuyer.
  assert (Orders.getOrderById (Some (VInt (nextOrderId st))) st' = Some o) as Hfound.
  { unfold Orders.getOrderById. rewrite Horders.
    rewrite find_app_None.
    - apply find_hit. rewrite (has_id_int o _ _ Hoid). lia.
    - apply find_None_all. intros j y Hj.
      destruct (consistent_lookup st j y Hconsistent Hj) as (m & Hm & Hlt).
      rewrite (has_id_int y m _ Hm). lia. }
  repeat split; try done.
  unfold OrderResolvers.order, mbind, M_bind, gets.
  rewrite (requireAuth_ok _ _ _ Huser). cbv beta iota. rewrite Hfound.
  rewrite Hbuyer, Hid. simpl. by rewrite Z.eqb_refl.
Qed.

End CreateOrderReadBack.

Section CancelTwice.
Context (context : ReqContext) (u o : obj) (id : Z) (env : Env) (st : DataStore).
Context (reason : jsval).
Hypothesis Huser : ctx_user context = Some u.
Hypothesis Hfound : Orders.getOrderById (Some (VInt id)) st = Some o.
Hypothesis Howner : JS.strict_eq (u !! "id") (o !! "userId") = true.
Hypothesis Hopen : o !! "status" ≠ Some (VStr "CANCELLED").
Hypothesis Hundelivered : o !! "status" ≠ Some (VStr "DELIVERED").

(** X18.  An order is cancelled once: after [cancelOrder] has
    succeeded, cancelling the same order again is refused with "Order
    is already cancelled", whatever the reason given, and the store
    keeps the first cancellation. *)
Theorem cancelOrder_once :
  ∃ o' st',
    OrderResolvers.cancelOrder id reason context env st
    = (Ok ("Order cancelled successfully", Some o'), st') ∧
    ∀ reason' env',
      OrderResolvers.cancelOrder id reason' context env' st'
      = (Err (OrderResolvers.invalid_operation "Order is already cancelled"
                "This order has already been cancelled"), st').
Proof using Huser Hfound Howner Hopen Hundelivered.
  destruct (cancelOrder_success context u o id env st Huser Hfound Howner reason
              Hopen Hundelivered) as (i & Hi & Ho & Hrun).
  eexists _, _. split; [exact Hrun|]. intros reason' env'.
  apply (cancelOrder_already_cancelled context u
           (Orders.cancelled o reason (nowISO env)) id env' _ Huser).
  - apply (replaced_lookup st id i o); [done..|apply cancelled_id].
  - rewrite cancelled_other; [done|]. by apply (bool_decide_unpack _).
  - apply cancelled_status.
Qed.

End CancelTwice.

Lemma deleteOrder_then_gone_witness :
  ∃ st',
    OrderResolvers.deleteOrder 1 Fixture.asJane Fixture.store
    = (Ok "Order deleted successfully", st') ∧
    Orders.getOrderById (Some (VInt 1)) st' = None.
Proof.
  assert (JS.findIndex (Store.has_id (Some (VInt 1))) (orders Fixture.store)
          = Some 0%nat) as Hindex by (by vm_compute).
  assert (OrderResolvers.deleteOrder 1 Fixture.asJane Fixture.store
          = (Ok "Order deleted successfully",
             set_orders (delete 0%nat (orders Fixture.store)) Fixture.store)) as Hrun.
  { unfold OrderResolvers.deleteOrder, mbind, M_bind, gets, call, Orders.deleteOrder.
    rewrite (requireAuth_ok _ Fixture.jane) by done. cbv beta iota.
    rewrite fixture_order_1.
    rewrite (requireOwnership_ok _ Fixture.jane)
      by (done || apply fixture_jane_owns_order_1).
    by rewrite Hindex. }
  eexists. split; [exact Hrun|].
  by destruct (deleteOrder_then_gone 1 Fixture.asJane Fixture.store _ _
                 (initial_consistent Fixture.boot) Hrun).
Defined.

Lemma cancelOrder_once_witness :
  ∃ o' st',
    OrderResolvers.cancelOrder 1 None Fixture.asJane Fixture.env Fixture.store
    = (Ok ("Order cancelled successfully", Some o'), st') ∧
    OrderResolvers.cancelOrder 1 None Fixture.asJane Fixture.env st'
    = (Err (OrderResolvers.invalid_operation "Order is already cancelled"
              "This order has already been cancelled"), st').
Proof.
  destruct (cancelOrder_once Fixture.asJane Fixture.jane
              (Store.sampleOrder Fixture.boot) 1 Fixture.env Fixture.store None
              eq_refl fixture_order_1 fixture_jane_owns_order_1)
    as (o' & st' & Hrun & Hagain).
  - by rewrite fixture_order_1_pending.
  - by rewrite fixture_order_1_pending.
  - exists o', st'. split; [exact Hrun|apply Hagain].
Defined.

Lemma createOrder_accepts input context env st u l :
  ctx_user context = Some u →
  Validation.missing (input !! "listingId") = false →
  Validation.missing (input !! "quantity") = false →
  Validation.missing (input !! "shippingAddress") = false →
  negb (JS.isInteger (input !! "quantity"))
  || JS.leb (input !! "quantity") (Some (VInt 0)) = false →
  Store.getListingById (input !! "listingId") st = Some l →
  ∃ o st', OrderResolvers.createOrder input context env st = (Ok o, st').
Proof.
  intros Huser H1 H2 H3 H4 Hl.
  unfold OrderResolvers.createOrder, Validation.validateRequired,
    Validation.validateQuantity, mbind, M_bind, gets, call.
  rewrite (requireAuth_ok _ _ _ Huser). cbv beta iota zeta.
  rewrite H1, H2, H3, H4. cbv beta iota delta [mret M_ret]. rewrite Hl.
  destruct (Orders.createOrder _ _ st) as [o st']. by exists o, st'.
Qed.

Lemma createOrder_read_back_witness :
  ∃ o st',
    OrderResolvers.createOrder janesOrder Fixture.asJane Fixture.env Fixture.store
    = (Ok o, st') ∧
    o !! "id" = Some (VInt 2) ∧
    OrderResolvers.order 2 Fixture.asJane st' = (Ok o, st').
Proof.
  assert (janesOrder !! "listingId" = Some (VInt 1)) as Hlisting by (by vm_compute).
  assert (Fixture.jane !! "id" = Some (VInt 2)) as Hjane by (by vm_compute).
  destruct (createOrder_accepts janesOrder Fixture.asJane Fixture.env Fixture.store
              Fixture.jane (Store.iphone Fixture.boot) eq_refl)
    as (o & st' & Hrun); [by vm_compute..| |].
  { rewrite Hlisting. apply fixture_listing_1. }
  exists o, st'. split; [exact Hrun|].
  destruct (createOrder_read_back janesOrder Fixture.asJane Fixture.env
              Fixture.store st' Fixture.jane o 2
              (initial_consistent Fixture.boot) eq_refl Hjane Hrun)
    as (Hid & _ & _ & Hread).
  split; [exact Hid|exact Hread].
Defined.

(** ** Listings *)

Section FilterTwice.
Context {A : Type}.

Lemma filter_and (p q : A → bool) (l : list A) :
  List.filter q (List.filter p l) = List.filter (λ x, p x && q x) l.
Proof.
  induction l as [|x l IH]; simpl; [done|].
  destruct (p x); simpl; [|done]. destruct (q x); by rewrite IH.
Qed.

Lemma filter_true (l : list A) : List.filter (λ _, true) l = l.
Proof. induction l as [|x l IH]; simpl; by rewrite ?IH. Qed.

Lemma filter_if (b : bool) (p : A → bool) (l : list A) :
  (if b then List.filter p l else l)
  = List.filter (λ x, if b then p x else true) l.
Proof. destruct b; [done|]. symmetry. apply filter_true. Qed.

Lemma filter_option {B : Type} (o : option B) (p : A → bool) (l : list A) :
  match o with Some _ => List.filter p l | None => l end
  = List.filter (λ x, match o with Some _ => p x | None => true end) l.
Proof. destruct o; [done|]. symmetry. apply filter_true. Qed.

End FilterTwice.

(** The pattern on three addresses: an ordinary one, one with a
    no-break space, which [\s] matches, and one without a dot after the
    [@]. *)
Lemma email_shape_examples :
  Validation.email_shape "jane@example.com" = true ∧
  Validation.email_shape spacedAddress = false ∧
  Validation.email_shape "jane@example" = false.
Proof. repeat split; vm_compute; reflexivity. Qed.

Section GetListings.
Context `{P : Platform}.
Context (filter : obj) (st : DataStore).

Lemma narrow_filter (l1 : list obj) :
  Store.narrow filter l1
  = List.filter (λ listing,
      (match filter !! "priceMin" with
       | Some _ => JS.leb (filter !! "priceMin") (listing !! "price")
       | None => true
       end) &&
      (match filter !! "priceMax" with
       | Some _ => JS.leb (listing !! "price") (filter !! "priceMax")
       | None => true
       end) &&
      (if JS.truthy (filter !! "category") then
         JS.strict_eq (listing !! "category") (filter !! "category")
       else true) &&
      (if JS.truthy (filter !! "condition") then
         JS.strict_eq (listing !! "condition") (filter !! "condition")
       else true)) l1.
Proof.
  unfold Store.narrow. cbv zeta.
  rewrite !filter_if, !filter_option, !filter_and.
  apply filter_ext. intros l. by rewrite !andb_assoc.
Qed.

Lemma search_match_Ok (searchTerm : string) (listing : obj) (b : bool) :
  Store.search_match searchTerm listing = Ok b →
  b = lower_has searchTerm (listing !! "title")
      || lower_has searchTerm (listing !! "description").
Proof.
  unfold Store.search_match, Store.lower_includes, lower_has.
  destruct (listing !! "title") as [[| | |t| |]|]; simpl; try done.
  destruct (JS.includes searchTerm (toLowerCase t)); [by intros [= <-]|].
  destruct (listing !! "description") as [[| | |d| |]|]; simpl; try done.
  by intros [= <-].
Qed.

Lemma search_match_title (searchTerm : string) (listing : obj) :
  (∀ t, listing !! "title" ≠ Some (VStr t)) →
  ∃ e, Store.search_match searchTerm listing = Err e.
Proof.
  intros Htitle. unfold Store.search_match, Store.lower_includes.
  destruct (listing !! "title") as [[| | |t| |]|]; simpl; try by eexists.
  by destruct (Htitle t).
Qed.

Lemma search_match_strings (searchTerm : string) (listing : obj) (t d : string) :
  listing !! "title" = Some (VStr t) →
  listing !! "description" = Some (VStr d) →
  ∃ b, Store.search_match searchTerm listing = Ok b.
Proof.
  intros Ht Hd. unfold Store.search_match, Store.lower_includes.
  rewrite Ht, Hd. destruct (JS.includes searchTerm (toLowerCase t)); by eexists.
Qed.

Lemma getListings_Ok (r : list obj) :
  Store.getListings filter st = Ok r →
  r = List.filter (listing_matches filter) (listings st).
Proof.
  unfold Store.getListings, Store.search, listing_matches.
  destruct (JS.truthy (filter !! "search")).
  - destruct (filter !! "search") as [[| | |s| |]|]; simpl; try done.
    destruct (Store.filter_until _ _) as [l1|e] eqn:Hsearch; [|done].
    intros [= <-]. pose proof (filter_until_Ok _ _ _ Hsearch) as Hl1.
    rewrite Hl1.
    rewrite narrow_filter, filter_and. apply filter_ext_in. intros l Hl.
    destruct (Store.search_match (toLowerCase s) l) as [b|e] eqn:Hb.
    + apply search_match_Ok in Hb as ->. cbv beta. by rewrite !andb_assoc.
    + apply list_elem_of_In in Hl.
      destruct (filter_until_throws _ _ _ _ Hl Hb) as [e' He'].
      by rewrite Hsearch in He'.
  - intros [= <-]. by rewrite narrow_filter.
Qed.

(** X19.  The filters of [getListings] add up, and its search can
    throw.  Whenever [getListings] returns, the result is the table of
    listings, in its order, cut down to the listings that meet every
    condition in use.  It does return when there is no search, and when
    the search term and the title and description of every listing are
    strings; with a search in use and a listing whose title is no
    string (a title set to null by [updateListing]), it throws a
    [TypeError], which the client sees as INTERNAL_SERVER_ERROR. *)
Theorem getListings_filter :
  (∀ r, Store.getListings filter st = Ok r →
        r = List.filter (listing_matches filter) (listings st)) ∧
  (JS.truthy (filter !! "search") = false →
   Store.getListings filter st
   = Ok (List.filter (listing_matches filter) (listings st))) ∧
  (∀ s, filter !! "search" = Some (VStr s) →
        (∀ l, l ∈ listings st →
              ∃ t d, l !! "title" = Some (VStr t) ∧
                     l !! "description" = Some (VStr d)) →
   Store.getListings filter st
   = Ok (List.filter (listing_matches filter) (listings st))) ∧
  (JS.truthy (filter !! "search") = true →
   ∀ l, l ∈ listings st → (∀ t, l !! "title" ≠ Some (VStr t)) →
   ∃ e, Store.getListings filter st = Err e ∧
        exn_code e = "INTERNAL_SERVER_ERROR").
Proof.
  split; [apply getListings_Ok|]. split; [|split].
  - intros Hsearch.
    destruct (Store.getListings filter st) as [r|e] eqn:Hrun.
    + by rewrite (getListings_Ok r Hrun).
    + apply getListings_Err in Hrun as [_ Htruthy]. congruence.
  - intros s Hs Hstrings.
    destruct (Store.getListings filter st) as [r|e] eqn:Hrun.
    + by rewrite (getListings_Ok r Hrun).
    + exfalso. revert Hrun. unfold Store.getListings, Store.search. rewrite Hs.
      destruct (JS.truthy (Some (VStr s))); [|done].
      destruct (filter_until_total (Store.search_match (toLowerCase s)) (listings st))
        as [r ->]; [|done].
      intros l Hl. destruct (Hstrings l Hl) as (t & d & Ht & Hd).
      by eapply search_match_strings.
  - intros Hsearch l Hl Htitle.
    destruct (Store.getListings filter st) as [r|e] eqn:Hrun.
    + exfalso. revert Hrun. unfold Store.getListings, Store.search. rewrite Hsearch.
      destruct (filter !! "search") as [[| | |s| |]|]; simpl; try done.
      destruct (search_match_title (toLowerCase s) l Htitle) as [e He].
      destruct (filter_until_throws _ _ _ _ Hl He) as [e' ->]. done.
    + exists e. split; [done|]. by apply getListings_Err in Hrun as [-> _].
Qed.

End GetListings.

Lemma getListings_filter_witness :
  Store.getListings (P := Fixture.platform) searchPhone Fixture.store
  = Ok [Store.iphone Fixture.boot].
Proof.
  destruct (getListings_filter (P := Fixture.platform) searchPhone Fixture.store)
    as (_ & _ & Hstrings & _).
  assert (Hiphone : listing_matches (P := Fixture.platform) searchPhone
                      (Store.iphone Fixture.boot) = true)
    by (vm_compute; reflexivity).
  assert (Hguitar : listing_matches (P := Fixture.platform) searchPhone
                      (Store.guitar Fixture.boot) = false)
    by (vm_compute; reflexivity).
  rewrite (Hstrings "phone").
  - change (listings Fixture.store)
      with [Store.iphone Fixture.boot; Store.guitar Fixture.boot].
    cbn [List.filter]. by rewrite Hiphone, Hguitar.
  - vm_compute; reflexivity.
  - change (listings Fixture.store)
      with [Store.iphone Fixture.boot; Store.guitar Fixture.boot].
    intros l [->|[->|[]%elem_of_nil]%elem_of_cons]%elem_of_cons;
      eexists _, _; split; vm_compute; reflexivity.
Defined.

Section UpdateListing.
Context (id : Z) (input : obj) (context : ReqContext) (env : Env) (st : DataStore).
Context (u l : obj).
Hypothesis Huser : ctx_user context = Some u.
Hypothesis Hfound : Store.getListingById (Some (VInt id)) st = Some l.
Hypothesis Howner : JS.strict_eq (u !! "id") (l !! "userId") = true.

(** The input type of [updateListing] has no field [id]. *)
Hypothesis Hno_id : input !! "id" = None.

Ltac enter :=
  unfold ListingResolvers.updateListing, mbind, M_bind, gets, call;
  rewrite (requireAuth_ok _ _ _ Huser); cbv beta iota zeta;
  rewrite Hfound; rewrite (requireOwnership_ok _ _ _ Huser _ Howner);
  cbv beta iota.

(** X20.  An owner's update of a listing takes the fields of the input
    over the stored ones, keeps the others, stamps [updatedAt], and the
    listing read back by its id is the one returned; a price that is
    not above zero is refused with VALIDATION_ERROR and nothing is
    written. *)
Theorem updateListing_read_back :
  (∀ price, input !! "price" = Some price →
            JS.leb (Some price) (Some (VInt 0)) = true →
   ListingResolvers.updateListing id input context env st
   = (Err (Validation.validation_error "Price must be greater than 0" "price"), st)) ∧
  (match input !! "price" with
   | Some price => JS.leb (Some price) (Some (VInt 0)) = false
   | None => True
   end →
   ∃ l' st',
     ListingResolvers.updateListing id input context env st = (Ok (Some l'), st') ∧
     Store.getListingById (Some (VInt id)) st' = Some l' ∧
     l' !! "updatedAt" = Some (VStr (nowISO env)) ∧
     (∀ k v, k ≠ "updatedAt" → input !! k = Some v → l' !! k = Some v) ∧
     (∀ k, k ≠ "updatedAt" → input !! k = None → l' !! k = l !! k)).
Proof using Huser Hfound Howner Hno_id.
  split.
  - intros price Hprice Hle. enter. rewrite Hprice.
    unfold Validation.validatePrice. by rewrite Hle.
  - intros Hprice. enter.
    assert ((match input !! "price" with
             | Some _ => Validation.validatePrice (input !! "price")
             | None => mret ()
             end) st = (Ok (), st)) as ->.
    { destruct (input !! "price") as [price|]; [|done].
      unfold Validation.validatePrice. by rewrite Hprice. }
    unfold Store.updateListing, Store.merge_at.
    destruct (find_Some_findIndex _ _ _ Hfound) as (i & Hi & Hl).
    rewrite Hi, Hl. simpl.
    eexists _, _. split; [done|]. split; [|split; [|split]].
    + unfold Store.getListingById. simpl. apply find_insert_first; [done|].
      unfold Store.has_id. rewrite merged_kept by done.
      by apply find_some in Hfound as [_ ?].
    + unfold Store.merged. apply lookup_insert_eq.
    + intros k v Hk Hv. by apply merged_field.
    + intros k Hk Hv. by apply merged_kept.
Qed.

End UpdateListing.

Lemma imageUrls_inv images env st urls st' :
  ListingResolvers.imageUrls images env st = (Ok urls, st') →
  st' = st ∧
  ∀ files, images = Some (VStrs files) → length urls = length files.
Proof.
  unfold ListingResolvers.imageUrls, throw, mret, M_ret. intros Hrun.
  destruct images as [[| | | |files|]|]; branches.
  split; [done|]. intros ? [= <-]. apply length_imap.
Qed.

(** The listing that [createListing] stores. *)
Lemma stored_listing (data : obj) (now : string) (st : DataStore) :
  data !! "id" = None →
  let l := (Store.createListing data now st).1 in
  l !! "id" = Some (VInt (nextListingId st)) ∧
  l !! "userId" = data !! "userId" ∧
  l !! "images" = data !! "images" ∧
  (Store.createListing data now st).2
  = mkStore (users st) (listings st ++ [l]) (orders st) (sessions st)
            (nextUserId st) (nextListingId st + 1) (nextOrderId st).
Proof.
  intros Hid. unfold Store.createListing. cbn [fst snd].
  rewrite !lookup_insert_ne by done. rewrite !lookup_spread, Hid.
  rewrite lookup_singleton_eq, !lookup_singleton_ne by done.
  repeat split; by case_match.
Qed.

Section CreateListing.
Context (input : obj) (context : ReqContext) (env : Env) (st st' : DataStore).
Context (u l : obj).
Hypothesis Huser : ctx_user context = Some u.
Hypothesis Hrun : ListingResolvers.createListing input context env st = (Ok l, st').

(** What [createListing] hands to the store. *)
Lemma createListing_stored :
  ∃ urls,
    ListingResolvers.imageUrls (input !! "images") env st = (Ok urls, st) ∧
    Store.createListing
      (JS.literal [("title", input !! "title");
                   ("description", input !! "description");
                   ("price", input !! "price");
                   ("category", input !! "category");
                   ("condition", input !! "condition");
                   ("location", input !! "location");
                   ("images", Some (VStrs urls));
                   ("userId", u !! "id")])
      (nowISO env) st
    = (l, st').
Proof using Huser Hrun.
  revert Hrun.
  unfold ListingResolvers.createListing, Validation.validateRequired,
    Validation.validatePrice, mbind, M_bind.
  rewrite (requireAuth_ok _ _ _ Huser). cbv beta iota zeta.
  destruct (Validation.missing (input !! "title")); [done|].
  destruct (Validation.missing (input !! "description")); [done|].
  destruct (Validation.missing (input !! "price")); [done|].
  destruct (JS.leb (input !! "price") (Some (VInt 0))); [done|].
  cbv beta iota delta [mret M_ret].
  destruct (ListingResolvers.imageUrls (input !! "images") env st)
    as [[urls|e] st1] eqn:Hurls; [|done].
  destruct (imageUrls_inv _ _ _ _ _ Hurls) as [-> _].
  unfold call. destruct (Store.createListing _ _ st) as [l0 st0] eqn:Hstored.
  intros [= -> ->]. by exists urls.
Qed.

(** X21.  Who creates a listing owns it: the new listing carries the
    id of the caller as its [userId] and the next free listing id, it
    is appended to the table, and it gets one generated image name for
    each uploaded image. *)
Theorem createListing_owner :
  l !! "userId" = u !! "id" ∧
  l !! "id" = Some (VInt (nextListingId st)) ∧
  listings st' = listings st ++ [l] ∧
  nextListingId st' = nextListingId st + 1 ∧
  (∀ files, input !! "images" = Some (VStrs files) →
            ∃ urls, l !! "images" = Some (VStrs urls) ∧ length urls = length files).
Proof using Huser Hrun.
  destruct createListing_stored as (urls & Hurls & Hstored).
  apply imageUrls_inv in Hurls as [_ Hlength].
  match type of Hstored with
  | Store.createListing ?data ?now st = _ =>
      pose proof (stored_listing data now st) as Hfields
  end.
  rewrite Hstored in Hfields. cbn [fst snd] in Hfields.
  destruct Hfields as (Hid & Howner & Himages & ->).
  { unfold JS.literal. simpl fold_left. by field. }
  unfold JS.literal in Howner, Himages. simpl fold_left in Howner, Himages.
  revert Howner Himages. field. intros Howner Himages.
  repeat split; try done.
  intros files Hfiles. exists urls. split; [done|]. by apply Hlength.
Qed.

End CreateListing.

Lemma createListing_accepts input context env st u files :
  ctx_user context = Some u →
  Validation.missing (input !! "title") = false →
  Validation.missing (input !! "description") = false →
  Validation.missing (input !! "price") = false →
  JS.leb (input !! "price") (Some (VInt 0)) = false →
  input !! "images" = Some (VStrs files) →
  ∃ l st', ListingResolvers.createListing input context env st = (Ok l, st').
Proof.
  intros Huser H1 H2 H3 H4 Himages.
  unfold ListingResolvers.createListing, Validation.validateRequired,
    Validation.validatePrice, ListingResolvers.imageUrls, mbind, M_bind, call.
  rewrite (requireAuth_ok _ _ _ Huser). cbv beta iota zeta.
  rewrite H1, H2, H3, H4, Himages. cbv beta iota delta [mret M_ret].
  destruct (Store.createListing _ _ st) as [l st']. by exists l, st'.
Qed.

Lemma updateListing_read_back_witness :
  ∃ l' st',
    ListingResolvers.updateListing 1 cheaper Fixture.asJohn Fixture.env Fixture.store
    = (Ok (Some l'), st') ∧
    Store.getListingById (Some (VInt 1)) st' = Some l' ∧
    l' !! "price" = Some (VInt 900).
Proof.
  assert (cheaper !! "price" = Some (VInt 900)) as Hprice by (by vm_compute).
  assert (cheaper !! "id" = None) as Hno_id by (by vm_compute).
  assert (JS.strict_eq (Fixture.john !! "id") (Store.iphone Fixture.boot !! "userId")
          = true) as Howner by (by vm_compute).
  destruct (updateListing_read_back 1 cheaper Fixture.asJohn Fixture.env Fixture.store
              Fixture.john (Store.iphone Fixture.boot) eq_refl fixture_listing_1
              Howner Hno_id) as [_ Hupdate].
  destruct Hupdate as (l' & st' & Hrun & Hread & _ & Hnew & _).
  { by rewrite Hprice. }
  exists l', st'. split; [exact Hrun|]. split; [exact Hread|].
  by apply Hnew.
Defined.

Lemma createListing_owner_witness :
  ∃ l st',
    ListingResolvers.createListing bicycle Fixture.asJane Fixture.env Fixture.store
    = (Ok l, st') ∧
    l !! "userId" = Fixture.jane !! "id" ∧
    l !! "id" = Some (VInt 3) ∧
    ∃ urls, l !! "images" = Some (VStrs urls) ∧ length urls = 2%nat.
Proof.
  assert (bicycle !! "images" = Some (VStrs ["front.jpg"; "side.jpg"])) as Himages
    by (by vm_compute).
  destruct (createListing_accepts bicycle Fixture.asJane Fixture.env Fixture.store
              Fixture.jane ["front.jpg"; "side.jpg"] eq_refl)
    as (l & st' & Hrun); [by vm_compute..|exact Himages|].
  exists l, st'. split; [exact Hrun|].
  destruct (createListing_owner bicycle Fixture.asJane Fixture.env Fixture.store st'
              Fixture.jane l eq_refl Hrun) as (Howner & Hid & _ & _ & Hurls).
  split; [exact Howner|]. split; [exact Hid|]. exact (Hurls _ Himages).
Defined.

(** ** Updating a user *)

Lemma bind_reads_inv {A B : Type} (m : M A) (k : A → M B) st b st' :
  reads m →
  (m ≫= k) st = (Ok b, st') →
  ∃ a, m st = (Ok a, st) ∧ k a st = (Ok b, st').
Proof.
  intros Hm. unfold mbind, M_bind. destruct (Hm st) as [Hst _].
  destruct (m st) as [[a|e] st1]; simpl in *; [|done]. subst.
  intros Hk. by exists a.
Qed.

Section UpdateUser.
Context `{P : Platform}.
Context (id : Z) (input : obj) (context : ReqContext) (env : Env).
Context (st st' : DataStore) (r : obj).
Hypothesis Hrun : UserResolvers.updateUser id input context env st = (Ok r, st').

(** The input type of [updateUser] has no field [id]. *)
Hypothesis Hno_id : input !! "id" = None.

(** What [updateUser] hands to the store: the input, with the password
    replaced by its hash when one is given. *)
Lemma updates_inv (updates : obj) :
  (if JS.truthy (input !! "password") then
     Validation.validatePassword (input !! "password");;
     hashed ← UserResolvers.hashPassword (input !! "password") env;
     mret (<["password" := VStr hashed]> input)
   else mret input) st = (Ok updates, st) →
  (JS.truthy (input !! "password") = false ∧ updates = input) ∨
  (∃ pw, input !! "password" = Some (VStr pw) ∧ pw ≠ "" ∧
         updates = <["password" := VStr (bcrypt_hash pw 10 (salt env))]> input).
Proof using Type.
  clear Hrun Hno_id.
  unfold Validation.validatePassword, UserResolvers.hashPassword,
    mbind, M_bind, throw, mret, M_ret.
  destruct (JS.truthy (input !! "password")) eqn:Htruthy.
  - intros Hupdates. right.
    destruct (input !! "password") as [[| | |pw| |]|]; branches.
    exists pw. split; [done|]. split; [|done]. by intros ->.
  - intros [= <-]. by left.
Qed.

(** A successful [updateUser], taken apart. *)
Lemma updateUser_inv :
  ∃ i existing updates,
    Store.getUserById (Some (VInt id)) st = Some existing ∧
    JS.findIndex (Store.has_id (Some (VInt id))) (users st) = Some i ∧
    users st !! i = Some existing ∧
    ((JS.truthy (input !! "password") = false ∧ updates = input) ∨
     (∃ pw, input !! "password" = Some (VStr pw) ∧ pw ≠ "" ∧
            updates = <["password" := VStr (bcrypt_hash pw 10 (salt env))]> input)) ∧
    r = userWithoutPassword (Store.merged existing updates (nowISO env)) ∧
    st' = set_users (<[i := Store.merged existing updates (nowISO env)]> (users st)) st.
Proof using Hrun.
  clear Hno_id. revert Hrun. unfold UserResolvers.updateUser.
  intros (_ & _ & Hrun)%bind_reads_inv; [|reads_all].
  apply bind_reads_inv in Hrun as (found & Hfound & Hrun); [|reads_all].
  injection Hfound as <-.
  destruct (Store.getUserById (Some (VInt id)) st) as [existing|] eqn:Hexisting;
    [|done].
  apply bind_reads_inv in Hrun as (_ & _ & Hrun); [|reads_all].
  apply bind_reads_inv in Hrun as (_ & _ & Hrun); [|reads_all].
  apply bind_reads_inv in Hrun as (updates & Hupdates & Hrun); [|reads_all].
  apply updates_inv in Hupdates.
  revert Hrun. unfold mbind, M_bind, call, Store.updateUser, Store.merge_at.
  destruct (find_Some_findIndex _ _ _ Hexisting) as (i & Hi & Hrow).
  rewrite Hi, Hrow. simpl. intros [= <- <-].
  by exists i, existing, updates.
Qed.

(** X23.  A successful [updateUser] can be read back: the user found
    under the id afterwards is the one returned, less its password.
    What it stores as the password depends on the input: a non-empty
    string is stored as its bcrypt hash; without a password in the input
    the stored password stays; a password that is present and falsy
    ([null] or the empty string) is neither validated nor hashed, and is
    stored as it was given, in place of the hash. *)
Theorem updateUser_read_back :
  ∃ existing u',
    Store.getUserById (Some (VInt id)) st = Some existing ∧
    Store.getUserById (Some (VInt id)) st' = Some u' ∧
    r = userWithoutPassword u' ∧
    u' !! "id" = existing !! "id" ∧
    (∀ pw, input !! "password" = Some (VStr pw) → pw ≠ "" →
           u' !! "password" = Some (VStr (bcrypt_hash pw 10 (salt env)))) ∧
    (input !! "password" = None → u' !! "password" = existing !! "password") ∧
    (∀ v, input !! "password" = Some v → JS.truthy (Some v) = false →
          u' !! "password" = Some v) ∧
    (input !! "password" = Some VNull → u' !! "password" = Some VNull) ∧
    (input !! "password" = Some (VStr "") → u' !! "password" = Some (VStr "")).
Proof using Hrun Hno_id.
  destruct updateUser_inv
    as (i & existing & updates & Hexisting & Hi & Hrow & Hupdates & -> & ->).
  pose proof Hexisting as Hid. unfold Store.getUserById in Hid.
  apply find_some in Hid as [_ Hid].
  assert (updates !! "id" = None) as Hupdates_id.
  { destruct Hupdates as [[_ ->]|(pw & _ & _ & ->)]; [done|].
    by rewrite lookup_insert_ne. }
  assert (Hfalsy : ∀ v, input !! "password" = Some v → JS.truthy (Some v) = false →
            Store.merged existing updates (nowISO env) !! "password" = Some v).
  { intros v Hv Htruthy.
    destruct Hupdates as [[_ ->]|(pw & Hpw & Hnonempty & _)].
    - by apply merged_field.
    - rewrite Hpw in Hv. injection Hv as <-. simpl in Htruthy.
      apply negb_false_iff, String.eqb_eq in Htruthy. done. }
  exists existing, (Store.merged existing updates (nowISO env)).
  split; [done|]. split; [|split; [done|split; [|split; [|split; [|split; [|split]]]]]].
  - unfold Store.getUserById. simpl. apply find_insert_first; [done|].
    unfold Store.has_id. by rewrite merged_kept.
  - by apply merged_kept.
  - intros pw Hpw Hnonempty.
    destruct Hupdates as [[Htruthy _]|(pw' & Hpw' & _ & ->)].
    + rewrite Hpw in Htruthy. simpl in Htruthy.
      apply negb_false_iff, String.eqb_eq in Htruthy. done.
    + rewrite Hpw in Hpw'. injection Hpw' as <-.
      apply merged_field; [done|]. apply lookup_insert_eq.
  - intros Hnone.
    destruct Hupdates as [[_ ->]|(pw & Hpw & _ & _)].
    + by apply merged_kept.
    + by rewrite Hnone in Hpw.
  - exact Hfalsy.
  - intros Hnull. by apply Hfalsy.
  - intros Hempty. by apply Hfalsy.
Qed.

End UpdateUser.

Lemma updateUser_accepts `{P : Platform} id input context env st u existing :
  ctx_user context = Some u →
  JS.strict_eq (u !! "id") (Some (VInt id)) = true →
  Store.getUserById (Some (VInt id)) st = Some existing →
  JS.truthy (input !! "username")
  && JS.ltb (JS.length (input !! "username")) (Some (VInt 3)) = false →
  JS.truthy (input !! "email") = false →
  JS.truthy (input !! "password") = false →
  ∃ r st', UserResolvers.updateUser id input context env st = (Ok r, st').
Proof.
  intros Huser Hself Hfound Husername Hemail Hpassword.
  unfold UserResolvers.updateUser, Validation.validateUsername, mbind, M_bind, gets,
    call, Store.updateUser, Store.merge_at.
  rewrite (requireOwnership_ok _ _ _ Huser _ Hself). cbv beta iota.
  rewrite Hfound, Hemail, Hpassword.
  destruct (find_Some_findIndex _ _ _ Hfound) as (i & Hi & Hrow).
  destruct (JS.truthy (input !! "username")); simpl in *;
    rewrite ?Husername; simpl; rewrite Hi; by eexists _, _.
Qed.

Lemma updateUser_read_back_witness :
  (∃ r st' u',
     UserResolvers.updateUser (P := Fixture.platform) 1 renamed Fixture.asJohn
       Fixture.env Fixture.store
     = (Ok r, st') ∧
     Store.getUserById (Some (VInt 1)) st' = Some u' ∧
     r = userWithoutPassword u' ∧
     u' !! "password" = Some (VStr Store.sampleHash)) ∧
  (∃ r st' u',
     UserResolvers.updateUser (P := Fixture.platform) 1 passwordNull Fixture.asJohn
       Fixture.env Fixture.store
     = (Ok r, st') ∧
     Store.getUserById (Some (VInt 1)) st' = Some u' ∧
     r = userWithoutPassword u' ∧
     u' !! "password" = Some VNull).
Proof.
  assert (Store.john !! "password" = Some (VStr Store.sampleHash)) as Hhash
    by (by vm_compute).
  split.
  - destruct (updateUser_accepts (P := Fixture.platform) 1 renamed Fixture.asJohn
                Fixture.env Fixture.store Fixture.john Store.john eq_refl)
      as (r & st' & Hrun); [by vm_compute|apply fixture_user_1|by vm_compute..|].
    destruct (updateUser_read_back (P := Fixture.platform) 1 renamed Fixture.asJohn
                Fixture.env Fixture.store st' r Hrun)
      as (existing & u' & Hexisting & Hread & Hr & _ & _ & Hkept & _);
      [by vm_compute|].
    rewrite fixture_user_1 in Hexisting. injection Hexisting as <-.
    exists r, st', u'. split; [exact Hrun|]. split; [exact Hread|].
    split; [exact Hr|]. rewrite <- Hhash. apply Hkept. by vm_compute.
  - destruct (updateUser_accepts (P := Fixture.platform) 1 passwordNull
                Fixture.asJohn Fixture.env Fixture.store Fixture.john Store.john
                eq_refl)
      as (r & st' & Hrun); [by vm_compute|apply fixture_user_1|by vm_compute..|].
    destruct (updateUser_read_back (P := Fixture.platform) 1 passwordNull
                Fixture.asJohn Fixture.env Fixture.store st' r Hrun)
      as (existing & u' & _ & Hread & Hr & _ & _ & _ & _ & Hnull & _);
      [by vm_compute|].
    exists r, st', u'. split; [exact Hrun|]. split; [exact Hread|].
    split; [exact Hr|]. apply Hnull. by vm_compute.
Defined.

(** ** What a deleted user leaves behind *)

Section DistinctIds.
Context (rows : list obj).
Hypothesis Hdistinct : distinct_ids rows.

Lemma distinct_ids_lookup (i : nat) (o : obj) :
  rows !! i = Some o → ∃ n, o !! "id" = Some (VInt n).
Proof using Hdistinct.
  destruct Hdistinct as (ns & Hids & _). intros Hi.
  assert (((λ o : obj, o !! "id") <$> rows) !! i = Some (o !! "id")) as Hl
    by (by rewrite list_lookup_fmap, Hi).
  rewrite Hids, list_lookup_fmap in Hl.
  destruct (ns !! i) as [n|]; simplify_eq/=. by exists n.
Qed.

Lemma distinct_ids_unique (id : Z) (i j : nat) (x y : obj) :
  rows !! i = Some x → rows !! j = Some y →
  Store.has_id (Some (VInt id)) x = true →
  Store.has_id (Some (VInt id)) y = true →
  i = j.
Proof using Hdistinct.
  destruct Hdistinct as (ns & Hids & Hnodup). intros Hi Hj Hx Hy.
  assert (∀ k z, rows !! k = Some z →
                 Store.has_id (Some (VInt id)) z = true → ns !! k = Some id) as Hat.
  { intros k z Hk Hz.
    assert (((λ o : obj, o !! "id") <$> rows) !! k = Some (z !! "id")) as Hl
      by (by rewrite list_lookup_fmap, Hk).
    rewrite Hids, list_lookup_fmap in Hl.
    destruct (ns !! k) as [n|] eqn:Hn; simplify_eq/=.
    rewrite (has_id_int z n id) in Hz by done. f_equal. lia. }
  eapply NoDup_lookup; eauto.
Qed.

Lemma delete_row_gone (id : Z) (i : nat) :
  JS.findIndex (Store.has_id (Some (VInt id))) rows = Some i →
  find (Store.has_id (Some (VInt id))) (delete i rows) = None ∧
  ∀ id', id' ≠ id →
    find (Store.has_id (Some (VInt id'))) (delete i rows)
    = find (Store.has_id (Some (VInt id'))) rows.
Proof using Hdistinct.
  intros Hi. destruct (findIndex_Some _ _ _ Hi) as (o & Ho & Hid & _). split.
  - apply find_delete_unique. intros j y Hj Hy.
    by apply (distinct_ids_unique id j i y o).
  - intros id' Hid'. apply (find_delete_other _ _ _ o Ho).
    destruct (distinct_ids_lookup i o Ho) as (n & Hn).
    rewrite (has_id_int o n id Hn) in Hid. rewrite (has_id_int o n id' Hn). lia.
Qed.

End DistinctIds.

Lemma imageUrls_const images env :
  ∃ r, ∀ st, ListingResolvers.imageUrls images env st = (r, st).
Proof.
  unfold ListingResolvers.imageUrls, throw, mret, M_ret.
  destruct images as [[| | | |files|]|]; try (by eexists).
  all: destruct (_ && _); by eexists.
Qed.

Lemma createListing_reads_counter input context env st1 st2 :
  nextListingId st1 = nextListingId st2 →
  (ListingResolvers.createListing input context env st1).1
  = (ListingResolvers.createListing input context env st2).1.
Proof.
  intros Hnext.
  unfold ListingResolvers.createListing, Auth.requireAuth,
    Validation.validateRequired, Validation.validatePrice, mbind, M_bind.
  destruct (ctx_user context); [|done]. cbv beta iota zeta.
  destruct (Validation.missing (input !! "title")); [done|].
  destruct (Validation.missing (input !! "description")); [done|].
  destruct (Validation.missing (input !! "price")); [done|].
  destruct (JS.leb (input !! "price") (Some (VInt 0))); [done|].
  cbv beta iota delta [mret M_ret].
  destruct (imageUrls_const (input !! "images") env) as [[urls|e] Hurls];
    rewrite !Hurls; [|done].
  unfold call, Store.createListing. simpl. by rewrite Hnext.
Qed.

Section DeleteUser.
Context `{P : Platform}.
Context (id : Z) (context : ReqContext) (st st' : DataStore) (message : string).
Hypothesis Hdistinct : distinct_ids (users st).
Hypothesis Hrun : UserResolvers.deleteUser id context st = (Ok message, st').

Lemma deleteUser_inv :
  ∃ i, JS.findIndex (Store.has_id (Some (VInt id))) (users st) = Some i ∧
       st' = set_users (delete i (users st)) st.
Proof using Hrun.
  clear Hdistinct. revert Hrun.
  unfold UserResolvers.deleteUser, Auth.requireOwnership, Auth.requireAuth,
    Store.deleteUser, mbind, M_bind, gets, call, throw, mret, M_ret.
  intros Hrun. repeat (case_match; simplify_eq/=; try done). by eexists.
Qed.

(** X24.  Deleting a user deletes the user and nothing else.  The id
    no longer answers and the other users are found as before; the
    listings and the orders of the deleted user stay in their tables,
    and their [user] field now resolves to nothing; and the context of
    the deleted user goes on creating listings as before, since no
    resolver looks the caller up in the table of users. *)
Theorem deleteUser_leaves_dangling :
  Store.getUserById (Some (VInt id)) st' = None ∧
  (∀ id', id' ≠ id →
     Store.getUserById (Some (VInt id')) st' = Store.getUserById (Some (VInt id')) st) ∧
  listings st' = listings st ∧
  orders st' = orders st ∧
  (∀ parent, parent !! "userId" = Some (VInt id) →
     ListingResolvers.Listing_user parent st' = None ∧
     OrderResolvers.Order_user parent st' = None) ∧
  (∀ input env,
     (ListingResolvers.createListing input context env st').1
     = (ListingResolvers.createListing input context env st).1).
Proof using Hdistinct Hrun.
  destruct deleteUser_inv as (i & Hi & ->).
  destruct (delete_row_gone (users st) Hdistinct id i Hi) as [Hgone Hothers].
  split; [exact Hgone|]. split; [exact Hothers|]. split; [done|]. split; [done|].
  split.
  - intros parent Hparent.
    unfold ListingResolvers.Listing_user, OrderResolvers.Order_user,
      Store.getUserById. simpl. by rewrite Hparent, Hgone.
  - intros input env. by apply createListing_reads_counter.
Qed.

End DeleteUser.

Lemma fixture_users_distinct : distinct_ids (users Fixture.store).
Proof.
  exists [1; 2]. split.
  - assert (Store.john !! "id" = Some (VInt 1)) as Hjohn by (by vm_compute).
    assert (Store.jane !! "id" = Some (VInt 2)) as Hjane by (by vm_compute).
    change ([Store.john !! "id"; Store.jane !! "id"] = [Some (VInt 1); Some (VInt 2)]).
    by rewrite Hjohn, Hjane.
  - apply (bool_decide_unpack _). by vm_compute.
Qed.

Lemma deleteUser_leaves_dangling_witness :
  ∃ st',
    UserResolvers.deleteUser 1 Fixture.asJohn Fixture.store
    = (Ok "User deleted successfully", st') ∧
    Store.getUserById (Some (VInt 1)) st' = None ∧
    listings st' = listings Fixture.store ∧
    ListingResolvers.Listing_user (Store.iphone Fixture.boot) st' = None.
Proof.
  assert (JS.findIndex (Store.has_id (Some (VInt 1))) (users Fixture.store)
          = Some 0%nat) as Hindex by (by vm_compute).
  assert (JS.strict_eq (Fixture.john !! "id") (Some (VInt 1)) = true) as Hself
    by (by vm_compute).
  assert (Store.iphone Fixture.boot !! "userId" = Some (VInt 1)) as Howner
    by (by vm_compute).
  assert (UserResolvers.deleteUser 1 Fixture.asJohn Fixture.store
          = (Ok "User deleted successfully",
             set_users (delete 0%nat (users Fixture.store)) Fixture.store)) as Hrun.
  { unfold UserResolvers.deleteUser, mbind, M_bind, gets, call, Store.deleteUser.
    rewrite (requireOwnership_ok _ Fixture.john) by done. cbv beta iota.
    rewrite fixture_user_1. by rewrite Hindex. }
  eexists. split; [exact Hrun|].
  destruct (deleteUser_leaves_dangling 1 Fixture.asJohn Fixture.store _ _
              fixture_users_distinct Hrun)
    as (Hgone & _ & Hlistings & _ & Hdangling & _).
  split; [exact Hgone|]. split; [exact Hlistings|].
  by destruct (Hdangling (Store.iphone Fixture.boot) Howner).
Defined.

(** ** The search of listings ignores case *)

(** X25.  The search of [getListings] sees its search term through
    [toLowerCase] only: two terms with the same lower-case form select
    the same listings, and throw on the same stores, whatever the rest
    of the filter. *)
Theorem search_ignores_case `{P : Platform} (filter : obj) (term term' : string)
    (st : DataStore) :
  toLowerCase term = toLowerCase term' →
  term ≠ "" → term' ≠ "" →
  Store.getListings (<["search" := VStr term]> filter) st
  = Store.getListings (<["search" := VStr term']> filter) st.
Proof.
  intros Hlower Hterm Hterm'.
  unfold Store.getListings, Store.search, Store.narrow. cbv zeta.
  rewrite !lookup_insert_eq, !lookup_insert_ne by done. simpl JS.truthy.
  apply String.eqb_neq in Hterm, Hterm'. by rewrite Hterm, Hterm', Hlower.
Qed.

Lemma search_ignores_case_witness :
  Store.getListings (P := Fixture.platform) (<["search" := VStr "IPHONE"]> ∅)
    Fixture.store
  = Store.getListings (P := Fixture.platform) (<["search" := VStr "iphone"]> ∅)
      Fixture.store.
Proof. by apply search_ignores_case. Defined.

(** ** The ids of users and listings *)

Section TableOk.
Context (rows : list obj) (next : Z).
Hypothesis Hok : table_ok rows next.

Lemma table_ok_app (o : obj) :
  o !! "id" = Some (VInt next) → table_ok (rows ++ [o]) (next + 1).
Proof using Hok.
  destruct Hok as (ns & Hids & Hnodup & Hbound). intros Ho.
  exists (ns ++ [next]). split; [|split].
  - rewrite !fmap_app, Hids. simpl. by rewrite Ho.
  - apply NoDup_app. split; [done|]. split; [|apply NoDup_singleton].
    intros n Hn ->%list_elem_of_singleton. specialize (Hbound _ Hn). lia.
  - intros n [Hn| ->%list_elem_of_singleton]%elem_of_app; [|lia].
    specialize (Hbound _ Hn). lia.
Qed.

Lemma table_ok_insert (i : nat) (o o' : obj) :
  rows !! i = Some o → o' !! "id" = o !! "id" → table_ok (<[i := o']> rows) next.
Proof using Hok.
  destruct Hok as (ns & Hids & Hnodup & Hbound). intros Hi Ho'.
  exists ns. split; [|done].
  rewrite list_fmap_insert, Ho'. rewrite list_insert_id; [done|].
  by rewrite list_lookup_fmap, Hi.
Qed.

Lemma table_ok_delete (i : nat) : table_ok (delete i rows) next.
Proof using Hok.
  destruct Hok as (ns & Hids & Hnodup & Hbound).
  exists (delete i ns). split; [|split].
  - by rewrite !list_fmap_delete, Hids.
  - eapply sublist_NoDup; [done|apply sublist_delete].
  - intros n Hn%list_elem_of_delete_inv. by apply Hbound.
Qed.

Lemma table_ok_lookup (i : nat) (o : obj) :
  rows !! i = Some o → ∃ n, o !! "id" = Some (VInt n) ∧ n < next.
Proof using Hok.
  destruct Hok as (ns & Hids & _ & Hbound). intros Hi.
  assert (((λ o : obj, o !! "id") <$> rows) !! i = Some (o !! "id")) as Hl
    by (by rewrite list_lookup_fmap, Hi).
  rewrite Hids, list_lookup_fmap in Hl.
  destruct (ns !! i) as [n|] eqn:Hn; simplify_eq/=.
  exists n. split; [done|]. apply Hbound. by eapply list_elem_of_lookup_2.
Qed.

Lemma table_ok_fresh (o : obj) :
  o !! "id" = Some (VInt next) →
  find (Store.has_id (Some (VInt next))) (rows ++ [o]) = Some o.
Proof using Hok.
  intros Ho. rewrite find_app_None.
  - apply find_hit. rewrite (has_id_int o _ _ Ho). lia.
  - apply find_None_all. intros j y Hj.
    destruct (table_ok_lookup j y Hj) as (m & Hm & Hlt).
    rewrite (has_id_int y m _ Hm). lia.
Qed.

Lemma table_ok_distinct : distinct_ids rows.
Proof using Hok. destruct Hok as (ns & Hids & Hnodup & _). by exists ns. Qed.

End TableOk.

Lemma fmap_Ok_inv {A B : Type} (g : A → B) (m : M A) st r st' :
  (g <$> m) st = (Ok r, st') → ∃ a, m st = (Ok a, st') ∧ r = g a.
Proof.
  unfold fmap, M_fmap. destruct (m st) as [[a|e] st1]; [|done].
  intros [= <- <-]. by exists a.
Qed.

Lemma updateListing_inv id input context env st r st' :
  ListingResolvers.updateListing id input context env st = (Ok r, st') →
  ∃ i l, listings st !! i = Some l ∧
         st' = set_listings (<[i := Store.merged l input (nowISO env)]> (listings st)) st.
Proof.
  unfold ListingResolvers.updateListing.
  intros (_ & _ & Hrun)%bind_reads_inv; [|reads_all].
  apply bind_reads_inv in Hrun as (found & Hfound & Hrun); [|reads_all].
  injection Hfound as <-.
  destruct (Store.getListingById (Some (VInt id)) st) as [l|] eqn:Hl; [|done].
  apply bind_reads_inv in Hrun as (_ & _ & Hrun); [|reads_all].
  apply bind_reads_inv in Hrun as (_ & _ & Hrun); [|reads_all].
  revert Hrun. unfold call, Store.updateListing, Store.merge_at.
  destruct (find_Some_findIndex _ _ _ Hl) as (i & Hi & Hrow).
  rewrite Hi, Hrow. simpl. intros [= <- <-]. by exists i, l.
Qed.

Lemma deleteListing_inv id context st message st' :
  ListingResolvers.deleteListing id context st = (Ok message, st') →
  ∃ i, st' = set_listings (delete i (listings st)) st.
Proof.
  unfold ListingResolvers.deleteListing, Auth.requireOwnership, Auth.requireAuth,
    Store.deleteListing, mbind, M_bind, gets, call, throw, mret, M_ret.
  intros Hrun. repeat (case_match; simplify_eq/=; try done). by eexists.
Qed.

Lemma initial_ids_consistent (boot : string) : ids_consistent (Store.initial boot).
Proof.
  assert (Store.john !! "id" = Some (VInt 1)) as Hjohn by (by vm_compute).
  assert (Store.jane !! "id" = Some (VInt 2)) as Hjane by (by vm_compute).
  assert (Store.iphone boot !! "id" = Some (VInt 1)) as Hiphone
    by (unfold Store.iphone, JS.literal; simpl fold_left; by field).
  assert (Store.guitar boot !! "id" = Some (VInt 2)) as Hguitar
    by (unfold Store.guitar, JS.literal; simpl fold_left; by field).
  assert (NoDup [1; 2]) as Hnodup by (apply (bool_decide_unpack _); by vm_compute).
  split; exists [1; 2]; (split; [|split; [done|]]).
  - change ([Store.john !! "id"; Store.jane !! "id"] = [Some (VInt 1); Some (VInt 2)]).
    by rewrite Hjohn, Hjane.
  - intros n Hn. simpl. rewrite !elem_of_cons, elem_of_nil in Hn. lia.
  - change ([Store.iphone boot !! "id"; Store.guitar boot !! "id"]
            = [Some (VInt 1); Some (VInt 2)]).
    by rewrite Hiphone, Hguitar.
  - intros n Hn. simpl. rewrite !elem_of_cons, elem_of_nil in Hn. lia.
Qed.

Section IdsInvariant.
Context `{P : Platform}.
Context (op : Server.operation) (context : ReqContext) (env : Env) (st : DataStore).
Hypothesis Hschema : keeps_ids op.
Hypothesis Hconsistent : ids_consistent st.

Lemma users_stay_ok r st' :
  Server.resolve op context env st = (Ok r, st') →
  table_ok (users st') (nextUserId st').
Proof using Hschema Hconsistent.
  destruct Hconsistent as [Husers _]. intros Hrun.
  destruct (Api.writes_users op) eqn:Hop.
  - destruct op; try done; simpl in Hrun;
      apply fmap_Ok_inv in Hrun as (a & Hrun & _).
    + apply createUser_inv in Hrun
        as (_ & _ & pw & u & _ & _ & -> & Hid & _). simpl.
      by apply table_ok_app.
    + destruct (updateUser_inv _ _ _ _ _ _ _ Hrun)
        as (i & existing & updates & _ & _ & Hrow & Hupdates & _ & ->). simpl.
      apply (table_ok_insert _ _ Husers i existing); [done|].
      apply merged_kept; [done|].
      destruct Hupdates as [[_ ->]|(pw & _ & _ & ->)]; [done|].
      by rewrite lookup_insert_ne.
    + destruct (deleteUser_inv _ _ _ _ _ Hrun) as (i & _ & ->). simpl.
      by apply table_ok_delete.
  - pose proof (resolve_keeps_users op context env Hop st) as Hkept.
    rewrite Hrun in Hkept. simpl in Hkept. by injection Hkept as -> ->.
Qed.

Lemma listings_stay_ok r st' :
  Server.resolve op context env st = (Ok r, st') →
  table_ok (listings st') (nextListingId st').
Proof using Hschema Hconsistent.
  destruct Hconsistent as [_ Hlistings]. intros Hrun.
  destruct (Api.writes_listings op) eqn:Hop.
  - destruct op; try done; simpl in Hrun;
      apply fmap_Ok_inv in Hrun as (a & Hrun & _).
    + destruct (ctx_user context) as [u|] eqn:Huser.
      2: { unfold ListingResolvers.createListing, mbind, M_bind in Hrun.
           by rewrite (requireAuth_anonymous _ _ Huser) in Hrun. }
      destruct (createListing_stored _ _ _ _ _ _ _ Huser Hrun)
        as (urls & _ & Hstored).
      match type of Hstored with
      | Store.createListing ?data ?now st = _ =>
          pose proof (stored_listing data now st) as Hfields
      end.
      rewrite Hstored in Hfields. cbn [fst snd] in Hfields.
      destruct Hfields as (Hid & _ & _ & ->).
      { unfold JS.literal. simpl fold_left. by field. }
      simpl. by apply table_ok_app.
    + apply updateListing_inv in Hrun as (i & l & Hrow & ->). simpl.
      apply (table_ok_insert _ _ Hlistings i l); [done|].
      by apply merged_kept.
    + apply deleteListing_inv in Hrun as (i & ->). simpl.
      by apply table_ok_delete.
  - pose proof (resolve_keeps_listings op context env Hop st) as Hkept.
    rewrite Hrun in Hkept. simpl in Hkept. by injection Hkept as -> ->.
Qed.

(** X26.  Ids are given once: if the users and the listings of a store
    carry distinct integer ids below their counters, as they do in the
    sample data, they still do after any operation, successful or not,
    provided the inputs of [updateUser] and [updateListing] cannot name
    an [id]. *)
Theorem ids_stay_consistent :
  ids_consistent (Server.resolve op context env st).2.
Proof using Hschema Hconsistent.
  destruct (Server.resolve op context env st) as [[r|e] st'] eqn:Hrun.
  - split; [by eapply users_stay_ok|by eapply listings_stay_ok].
  - destruct (resolve_safe op context env st e st' Hrun) as [-> _]. done.
Qed.

End IdsInvariant.

Lemma getListings_empty `{P : Platform} (st : DataStore) :
  Store.getListings ∅ st = Ok (listings st).
Proof.
  unfold Store.getListings, Store.search, Store.narrow.
  by rewrite !lookup_empty.
Qed.

Section CreateListingReadBack.
Context `{P : Platform}.
Context (input : obj) (context : ReqContext) (env : Env) (st st' : DataStore).
Context (l : obj).
Hypothesis Hconsistent : ids_consistent st.
Hypothesis Hrun : ListingResolvers.createListing input context env st = (Ok l, st').

(** X27.  A new listing can be read back: in a store with consistent
    ids, the [listing] query for the id of the listing that
    [createListing] has returned gives that listing, and the listing is
    the last one of the unfiltered [listings] query. *)
Theorem createListing_read_back :
  l !! "id" = Some (VInt (nextListingId st)) ∧
  ListingResolvers.listing (nextListingId st) st' = (Ok l, st') ∧
  ListingResolvers.listings None st' = (Ok (listings st ++ [l]), st').
Proof using Hconsistent Hrun.
  destruct Hconsistent as [_ Hlistings].
  destruct (ctx_user context) as [u|] eqn:Huser.
  2: { unfold ListingResolvers.createListing, mbind, M_bind in Hrun.
       by rewrite (requireAuth_anonymous _ _ Huser) in Hrun. }
  destruct (createListing_stored _ _ _ _ _ _ _ Huser Hrun) as (urls & _ & Hstored).
  match type of Hstored with
  | Store.createListing ?data ?now st = _ =>
      pose proof (stored_listing data now st) as Hfields
  end.
  rewrite Hstored in Hfields. cbn [fst snd] in Hfields.
  destruct Hfields as (Hid & _ & _ & ->).
  { unfold JS.literal. simpl fold_left. by field. }
  split; [done|]. split.
  - unfold ListingResolvers.listing, mbind, M_bind, gets, Store.getListingById.
    simpl. by rewrite (table_ok_fresh _ _ Hlistings l Hid).
  - unfold ListingResolvers.listings, mbind, M_bind, gets.
    change (default ∅ None) with (∅ : obj). by rewrite getListings_empty.
Qed.

End CreateListingReadBack.

Lemma ids_stay_consistent_witness :
  ids_consistent
    (Server.resolve (P := Fixture.platform) (Server.MUpdateListing 1 cheaper)
       Fixture.asJohn Fixture.env Fixture.store).2.
Proof.
  apply ids_stay_consistent; [by vm_compute|apply initial_ids_consistent].
Defined.

Lemma createListing_read_back_witness :
  ∃ l st',
    ListingResolvers.createListing bicycle Fixture.asJane Fixture.env Fixture.store
    = (Ok l, st') ∧
    ListingResolvers.listing 3 st' = (Ok l, st').
Proof.
  assert (bicycle !! "images" = Some (VStrs ["front.jpg"; "side.jpg"])) as Himages
    by (by vm_compute).
  destruct (createListing_accepts bicycle Fixture.asJane Fixture.env Fixture.store
              Fixture.jane ["front.jpg"; "side.jpg"] eq_refl)
    as (l & st' & Hrun); [by vm_compute..|exact Himages|].
  exists l, st'. split; [exact Hrun|].
  by destruct (createListing_read_back (P := Fixture.platform) bicycle Fixture.asJane Fixture.env
                 Fixture.store st' l (initial_ids_consistent Fixture.boot) Hrun)
    as (_ & Hread & _).
Defined.
